(** * Rolling-Subtitle: message arbitration and lifecycle engine

    A shallow embedding of [gui/message_manager.py] (MessageItem,
    MessageQueue, MessageBuffer), of the arbitration code of
    [gui/main_window.py] (MainWindow) and of the admission check of
    [utils/message_processor.py], together with the properties of the
    specification that concern them.

    Conventions of the embedding.
    - A Python [str] is the list of its code points ([pystr]).
    - [time.time()] and the naive display-timezone clock are rationals
      (seconds); a handler reads each clock once.
    - A Python object has an identity [oid] (what [id(msg)] returns).  An
      attribute assignment on a shared object is written to every place that
      holds the object (see [Alias]).
    - [datetime.strptime] and [re.search] over the time patterns belong to
      the interpreter; they are parameters of the functions that call them. *)

From Stdlib Require Import Ascii String QArith Qabs.
From stdpp Require Import gmap list sorting strings numbers.
Close Scope Q_scope.

(** ** Python strings *)

Abbreviation pystr := (list N).

(** Code points of an ASCII literal. *)
Definition cp (s : string) : pystr :=
  (λ a, N_of_ascii a) <$> list_ascii_of_string s.

Definition nonempty {A} (l : list A) : bool :=
  match l with [] => false | _ :: _ => true end.

(** Truth value of an [Optional[str]]: [None] and the empty string are
    false. *)
Definition truthy (o : option pystr) : bool :=
  match o with Some (_ :: _) => true | _ => false end.

Definition str_eqb (a b : pystr) : bool := bool_decide (a = b).

(** [str.isspace] / the [\s] class of [re] on [str] patterns. *)
Definition py_isspace (c : N) : bool :=
  ((9 <=? c) && (c <=? 13) || (28 <=? c) && (c <=? 32)
   || (c =? 133) || (c =? 160) || (c =? 5760)
   || (8192 <=? c) && (c <=? 8202) || (c =? 8232) || (c =? 8233)
   || (c =? 8239) || (c =? 8287) || (c =? 12288))%N.

(** The [\d] class of [re] on [str] patterns: Unicode category Nd
    (Unicode 14.0), as inclusive ranges. *)
Definition decimal_ranges : list (N * N) :=
  [(48, 57); (1632, 1641); (1776, 1785); (1984, 1993); (2406, 2415);
   (2534, 2543); (2662, 2671); (2790, 2799); (2918, 2927); (3046, 3055);
   (3174, 3183); (3302, 3311); (3430, 3439); (3558, 3567); (3664, 3673);
   (3792, 3801); (3872, 3881); (4160, 4169); (4240, 4249); (6112, 6121);
   (6160, 6169); (6470, 6479); (6608, 6617); (6784, 6793); (6800, 6809);
   (6992, 7001); (7088, 7097); (7232, 7241); (7248, 7257); (42528, 42537);
   (43216, 43225); (43264, 43273); (43472, 43481); (43504, 43513);
   (43600, 43609); (44016, 44025); (65296, 65305); (66720, 66729);
   (68912, 68921); (69734, 69743); (69872, 69881); (69942, 69951);
   (70096, 70105); (70384, 70393); (70736, 70745); (70864, 70873);
   (71248, 71257); (71360, 71369); (71472, 71481); (71904, 71913);
   (72016, 72025); (72784, 72793); (73040, 73049); (73120, 73129);
   (92768, 92777); (92864, 92873); (93008, 93017); (120782, 120831);
   (123200, 123209); (123632, 123641); (125264, 125273);
   (130032, 130041)]%N.

Definition py_isdecimal (c : N) : bool :=
  existsb (λ r, (fst r <=? c) && (c <=? snd r))%N decimal_ranges.

(** Length of the longest prefix whose characters satisfy [p]. *)
Fixpoint span_len (p : N → bool) (s : pystr) : nat :=
  match s with
  | c :: s' => if p c then S (span_len p s') else 0
  | [] => 0
  end.

Fixpoint starts_with (pat s : pystr) : bool :=
  match pat, s with
  | [], _ => true
  | p :: pat', c :: s' => (p =? c)%N && starts_with pat' s'
  | _ :: _, [] => false
  end.

(** [re.sub(pattern, '', s)] and [s.replace(old, '')]: scan from the left;
    where the matcher succeeds with a non-empty match the match is dropped
    and the scan resumes after it.  [skip] counts the characters of the
    current match still to drop. *)
Fixpoint sub_remove (matcher : pystr → option nat) (skip : nat) (s : pystr)
  : pystr :=
  match s with
  | [] => []
  | c :: s' =>
      match skip with
      | S k => sub_remove matcher k s'
      | 0 =>
          match matcher s with
          | Some (S k) => sub_remove matcher k s'
          | _ => c :: sub_remove matcher 0 s'
          end
      end
  end.

Definition literal (old : pystr) (s : pystr) : option nat :=
  if starts_with old s then Some (length old) else None.

Definition str_remove (old s : pystr) : pystr := sub_remove (literal old) 0 s.

(** The pattern 第\s*\d+\s*报 tried at the head of [s].  The three classes
    are pairwise disjoint and none contains 报, so the greedy match is the
    only candidate and backtracking cannot find another one. *)
Definition report_mark (s : pystr) : option nat :=
  match s with
  | c :: r =>
      if (c =? 31532)%N then
        let a := span_len py_isspace r in
        let r1 := drop a r in
        let d := span_len py_isdecimal r1 in
        let r2 := drop d r1 in
        let b := span_len py_isspace r2 in
        match d, drop b r2 with
        | S _, c' :: _ =>
            if (c' =? 25253)%N then Some (1 + a + d + b + 1) else None
        | _, _ => None
        end
      else None
  | [] => None
  end.

(** The pattern \s+ tried at the head of [s]. *)
Definition spaces (s : pystr) : option nat :=
  match span_len py_isspace s with 0 => None | n => Some n end.

Fixpoint lstrip (s : pystr) : pystr :=
  match s with
  | c :: s' => if py_isspace c then lstrip s' else s
  | [] => []
  end.

Definition strip (s : pystr) : pystr := reverse (lstrip (reverse (lstrip s))).

(** [_normalize_warning_text] *)
Definition _normalize_warning_text (text : pystr) : pystr :=
  if nonempty text then
    let normalized := text in
    let normalized := sub_remove report_mark 0 normalized in
    let normalized := str_remove [26368; 32456; 25253]%N normalized in
    let normalized := str_remove (cp "Final Report") normalized in
    let normalized := str_remove (cp "final report") normalized in
    let normalized := str_remove (cp "FINAL REPORT") normalized in
    let normalized := sub_remove spaces 0 normalized in
    let normalized := str_remove [65292%N] (str_remove (cp ",") normalized) in
    let normalized := str_remove (cp ".") (str_remove [12290%N] normalized) in
    strip normalized
  else [].

(** ** MessageItem *)

(** The keys of a parsed event that the arbitration code reads.
    [pd_type] is [None] when the key is absent; the other fields hold what
    [parsed_data.get(key, default)] yields. *)
Record ParsedData := mkParsed {
  pd_type : option pystr;
  pd_cancel : bool;
  pd_event_id : pystr;
  pd_shock_time : pystr;
  pd_source_type : pystr;
  pd_payload : pystr
}.

Record MessageItem := mkMsg {
  oid : nat;
  text : pystr;
  color : pystr;
  timestamp : Q;
  message_type : pystr;
  source : pystr;
  image_path : option pystr;
  event_id : pystr;
  shock_time : option pystr;
  parsed_data : option ParsedData;
  first_displayed_at : option Q
}.

Definition set_image_path (p : option pystr) (m : MessageItem) : MessageItem :=
  mkMsg (oid m) (text m) (color m) (timestamp m) (message_type m) (source m)
        p (event_id m) (shock_time m) (parsed_data m) (first_displayed_at m).

Definition set_first_displayed_at (t : option Q) (m : MessageItem)
  : MessageItem :=
  mkMsg (oid m) (text m) (color m) (timestamp m) (message_type m) (source m)
        (image_path m) (event_id m) (shock_time m) (parsed_data m) t.

(** [if m.first_displayed_at is None: m.first_displayed_at = t] *)
Definition stamp_first_display (t : Q) (m : MessageItem) : MessageItem :=
  match first_displayed_at m with
  | None => set_first_displayed_at (Some t) m
  | Some _ => m
  end.

Definition Qlt_bool (a b : Q) : bool := negb (Qle_bool b a).

(** [MessageItem.is_same_event] *)
Definition is_same_event (self other : MessageItem) : bool :=
  if negb (str_eqb (source self) (source other)) then false
  else if nonempty (event_id self) && nonempty (event_id other) then
    str_eqb (event_id self) (event_id other)
  else
    if negb (nonempty (event_id self)) && negb (nonempty (event_id other)) then
      let normalized_self := _normalize_warning_text (text self) in
      let normalized_other := _normalize_warning_text (text other) in
      if nonempty normalized_self && str_eqb normalized_self normalized_other
      then true
      else if truthy (shock_time self) && truthy (shock_time other)
              && bool_decide (shock_time self = shock_time other)
      then true
      else if nonempty normalized_self && nonempty normalized_other then
        let time_diff := Qabs (timestamp self - timestamp other) in
        Qlt_bool time_diff (30 # 1)
        && str_eqb (take 80 normalized_self) (take 80 normalized_other)
      else false
    else false.

(** ** Source priorities *)

Definition SOURCE_PRIORITY : gmap pystr nat :=
  list_to_map
    [ (cp "weatheralarm", 1);
      (cp "cenc", 2); (cp "ningxia", 3); (cp "guangxi", 4); (cp "shanxi", 5);
      (cp "beijing", 6); (cp "cwa", 7); (cp "p2pquake", 8);
      (cp "p2pquake_tsunami", 8); (cp "hko", 9); (cp "usgs", 10);
      (cp "emsc", 11); (cp "bcsf", 13); (cp "gfz", 14); (cp "usp", 15);
      (cp "kma", 16); (cp "fssn", 17);
      (cp "cea", 0); (cp "cea-pr", 0); (cp "sichuan", 0); (cp "cwa-eew", 0);
      (cp "jma", 0); (cp "sa", 0); (cp "kma-eew", 0);
      (cp "wolfx_sc_eew", 0); (cp "wolfx_jma_eew", 0); (cp "wolfx_fj_eew", 0);
      (cp "wolfx_cenc_eew", 0); (cp "wolfx_cwa_eew", 0);
      (cp "wolfx_all_eew", 0);
      (cp "wolfx_cenc_eqlist", 8); (cp "wolfx_jma_eqlist", 8);
      (cp "nied", 0);
      (cp "fanstudio", 99);
      (cp "default", 99) ].

Definition get_source_priority (source : pystr) : nat :=
  default (SOURCE_PRIORITY !!! cp "default") (SOURCE_PRIORITY !! source).

(** ** Sorting

    [list.sort(key=...)] is a stable sort.  The key of a message is the pair
    (priority, add order); a message without a recorded add order gets
    [float('inf')], here [None]. *)

Definition sort_key_t : Type := nat * option nat.

Definition order_le (a b : option nat) : bool :=
  match a, b with
  | _, None => true
  | None, Some _ => false
  | Some x, Some y => x <=? y
  end.

Definition key_le (a b : sort_key_t) : bool :=
  (a.1 <? b.1) || ((a.1 =? b.1) && order_le a.2 b.2).

Section Sort.
Context {A K : Type} (le : K → K → bool) (key : A → K).

(** [x] goes in front of the first element whose key is not smaller:
    equal keys keep their original order. *)
Fixpoint insert_by (x : A) (l : list A) : list A :=
  match l with
  | [] => [x]
  | y :: l' =>
      if le (key x) (key y) then x :: y :: l' else y :: insert_by x l'
  end.

Definition py_sort (l : list A) : list A := foldr insert_by [] l.
End Sort.

(** ** MessageBuffer *)

Record MessageBuffer := mkBuf {
  buffer : list MessageItem;
  max_size : nat;
  current_index : nat;
  use_priority : bool;
  _add_order_counter : nat;
  _message_add_order : gmap nat nat;
  _current_displaying_msg_id : option nat
}.

(** [MessageBuffer.__init__] *)
Definition new_buffer (max_size : nat) (use_priority : bool) : MessageBuffer :=
  mkBuf [] max_size 0 use_priority 0 ∅ None.

Definition with_buffer (l : list MessageItem) (b : MessageBuffer) :=
  mkBuf l (max_size b) (current_index b) (use_priority b)
        (_add_order_counter b) (_message_add_order b)
        (_current_displaying_msg_id b).

Definition with_index (i : nat) (b : MessageBuffer) :=
  mkBuf (buffer b) (max_size b) i (use_priority b)
        (_add_order_counter b) (_message_add_order b)
        (_current_displaying_msg_id b).

Definition with_order (c : nat) (ao : gmap nat nat) (b : MessageBuffer) :=
  mkBuf (buffer b) (max_size b) (current_index b) (use_priority b)
        c ao (_current_displaying_msg_id b).

Definition with_displaying (d : option nat) (b : MessageBuffer) :=
  mkBuf (buffer b) (max_size b) (current_index b) (use_priority b)
        (_add_order_counter b) (_message_add_order b) d.

Definition sort_key (ao : gmap nat nat) (msg : MessageItem) : sort_key_t :=
  (get_source_priority (source msg), ao !! oid msg).

(** Position of the first entry that is the object [i]. *)
Definition index_of_id (i : nat) (l : list MessageItem) : option nat :=
  fst <$> list_find (λ m, oid m = i) l.

(** [MessageBuffer._sort_by_priority] *)
Definition _sort_by_priority (b : MessageBuffer) : MessageBuffer :=
  let current_msg :=
    match _current_displaying_msg_id b with
    | Some i => snd <$> list_find (λ m, oid m = i) (buffer b)
    | None => None
    end in
  let b := with_buffer (py_sort key_le (sort_key (_message_add_order b)) (buffer b)) b in
  let reset :=
    if length (buffer b) <=? current_index b then with_index 0 b else b in
  match current_msg with
  | Some m =>
      match index_of_id (oid m) (buffer b) with
      | Some i => with_index i b
      | None => reset
      end
  | None => reset
  end.

Definition sort_if_priority (b : MessageBuffer) : MessageBuffer :=
  if use_priority b then _sort_by_priority b else b.

(** The capacity check shared by every insertion:
    [if len(self.buffer) >= self.max_size: self.buffer.pop(0) ...].
    ([pop] on an empty list raises; that needs [max_size = 0].) *)
Definition make_room (b : MessageBuffer) : MessageBuffer :=
  if max_size b <=? length (buffer b) then
    match buffer b with
    | removed_msg :: rest =>
        let b := with_buffer rest b in
        let b := with_order (_add_order_counter b)
                   (delete (oid removed_msg) (_message_add_order b)) b in
        if 0 <? current_index b then with_index (current_index b - 1) b else b
    | [] => b
    end
  else b.

(** Record the add order of a new message and append it. *)
Definition append_new (message : MessageItem) (b : MessageBuffer)
  : MessageBuffer :=
  let c := S (_add_order_counter b) in
  let b := with_order c (<[oid message := c]> (_message_add_order b)) b in
  with_buffer (buffer b ++ [message]) b.

(** The add order of a replacement: the replaced entry's, when recorded. *)
Definition carry_order (existing_msg message : MessageItem) (b : MessageBuffer)
  : MessageBuffer :=
  match _message_add_order b !! oid existing_msg with
  | Some k =>
      with_order (_add_order_counter b)
        (delete (oid existing_msg) (<[oid message := k]> (_message_add_order b)))
        b
  | None =>
      let c := S (_add_order_counter b) in
      with_order c (<[oid message := c]> (_message_add_order b)) b
  end.

(** [MessageBuffer.add] *)
Definition add (message : MessageItem) (b : MessageBuffer) : MessageBuffer :=
  sort_if_priority (append_new message (make_room b)).

(** [MessageBuffer.replace_or_add] *)
Definition replace_or_add (message : MessageItem) (b : MessageBuffer)
  : bool * MessageBuffer :=
  match list_find (λ existing_msg, is_same_event message existing_msg = true)
          (buffer b) with
  | Some (i, existing_msg) =>
      let b := carry_order existing_msg message b in
      (true, sort_if_priority (with_buffer (<[i := message]> (buffer b)) b))
  | None => (false, sort_if_priority (append_new message (make_room b)))
  end.

(** [MessageBuffer.replace_by_source] *)
Definition replace_by_source (message : MessageItem) (b : MessageBuffer)
  : bool * MessageBuffer :=
  match list_find (λ existing_msg, source message = source existing_msg)
          (buffer b) with
  | Some (i, existing_msg) =>
      let b := carry_order existing_msg message b in
      (true, sort_if_priority (with_buffer (<[i := message]> (buffer b)) b))
  | None => (false, sort_if_priority (append_new message (make_room b)))
  end.

(** The first loop of [batch_replace_by_source]: [source_to_latest_msg], a
    dict in insertion order, kept as the list of its values. *)
Definition keep_latest (acc : list MessageItem) (message : MessageItem)
  : list MessageItem :=
  match list_find (λ existing_msg, source existing_msg = source message) acc with
  | Some (i, existing_msg) =>
      if Qlt_bool (timestamp existing_msg) (timestamp message)
      then <[i := message]> acc else acc
  | None => acc ++ [message]
  end.

Definition latest_per_source (messages : list MessageItem) : list MessageItem :=
  foldl keep_latest [] messages.

(** What the replacement stores: a weather message without an image path
    takes over the replaced entry's. *)
Definition keep_image (existing_msg message : MessageItem) : MessageItem :=
  if str_eqb (message_type message) (cp "weather")
     && negb (truthy (image_path message))
     && truthy (image_path existing_msg)
  then set_image_path (image_path existing_msg) message
  else message.

(** The body of the second loop of [batch_replace_by_source]. *)
Definition batch_step_by_source (st : list bool * MessageBuffer)
    (message : MessageItem) : list bool * MessageBuffer :=
  let '(unique_results, b) := st in
  match list_find (λ existing_msg, source message = source existing_msg)
          (buffer b) with
  | Some (i, existing_msg) =>
      let b := carry_order existing_msg message b in
      let message := keep_image existing_msg message in
      (unique_results ++ [true], with_buffer (<[i := message]> (buffer b)) b)
  | None => (unique_results ++ [false], append_new message (make_room b))
  end.

(** [MessageBuffer.batch_replace_by_source] *)
Definition batch_replace_by_source (messages : list MessageItem)
    (b : MessageBuffer) : list bool * MessageBuffer :=
  let unique_messages := latest_per_source messages in
  let '(unique_results, b) :=
    foldl batch_step_by_source ([], b) unique_messages in
  let source_to_result (s : pystr) : bool :=
    match list_find (λ msg, source msg = s) unique_messages with
    | Some (i, _) => default false (unique_results !! i)
    | None => false
    end in
  (source_to_result ∘ source <$> messages, sort_if_priority b).

(** [MessageBuffer.find_by_source] *)
Definition find_by_source (s : pystr) (b : MessageBuffer)
  : option MessageItem :=
  snd <$> list_find (λ msg, source msg = s) (buffer b).

(** [MessageBuffer.find_by_event_id] *)
Definition find_by_event_id (e s : pystr) (b : MessageBuffer)
  : option MessageItem :=
  snd <$> list_find (λ msg, event_id msg = e ∧ source msg = s) (buffer b).

(** [MessageBuffer.get_current] *)
Definition get_current (b : MessageBuffer) : option MessageItem * MessageBuffer :=
  match buffer b with
  | [] => (None, with_displaying None b)
  | _ :: _ =>
      let found :=
        match _current_displaying_msg_id b with
        | Some i => list_find (λ m, oid m = i) (buffer b)
        | None => None
        end in
      match found with
      | Some (i, msg) => (Some msg, with_index i b)
      | None =>
          let b :=
            if length (buffer b) <=? current_index b then with_index 0 b
            else b in
          match buffer b !! current_index b with
          | Some msg => (Some msg, with_displaying (Some (oid msg)) b)
          | None => (None, b)
          end
      end
  end.

(** [MessageBuffer._get_next_by_priority] *)
Definition _get_next_by_priority (b : MessageBuffer)
  : option MessageItem * MessageBuffer :=
  match buffer b with
  | [] => (None, with_displaying None b)
  | _ :: _ =>
      let b := _sort_by_priority b in
      let current_msg_index :=
        match _current_displaying_msg_id b with
        | Some i => index_of_id i (buffer b)
        | None => None
        end in
      let next_index :=
        match current_msg_index with
        | Some i => (i + 1) `mod` length (buffer b)
        | None => 0
        end in
      let next_index :=
        if length (buffer b) <=? next_index then 0 else next_index in
      let b := with_index next_index b in
      match buffer b !! next_index with
      | Some msg => (Some msg, with_displaying (Some (oid msg)) b)
      | None => (None, b)
      end
  end.

(** [MessageBuffer.get_next] *)
Definition get_next (b : MessageBuffer) : option MessageItem * MessageBuffer :=
  match buffer b with
  | [] => (None, with_displaying None b)
  | _ :: _ =>
      if use_priority b then _get_next_by_priority b
      else
        let b := with_index (S (current_index b) `mod` length (buffer b)) b in
        match buffer b !! current_index b with
        | Some msg => (Some msg, with_displaying (Some (oid msg)) b)
        | None => (None, b)
        end
  end.

(** [MessageBuffer.size] *)
Definition size (b : MessageBuffer) : nat := length (buffer b).

(** ** The display sink ([ScrollingText]) *)

(** One invocation of [update_text]; [call_accepted] is its return value. *)
Record UpdateCall := mkCall {
  call_text : pystr;
  call_color : pystr;
  call_image_path : option pystr;
  call_force : bool;
  call_message_type : pystr;
  call_accepted : bool
}.

(** The part of the widget the arbitration depends on: the scrolling flag,
    and the history of [update_text] invocations (oldest first). *)
Record ScrollingText := mkSink {
  _is_scrolling : bool;
  calls : list UpdateCall
}.

(** [_ScrollingTextMixin.update_text]: a non-forced update is refused while
    a scroll is in progress; an accepted one starts a scroll. *)
Definition update_text (text color : pystr) (image_path : option pystr)
    (force : bool) (message_type : pystr) (st : ScrollingText)
  : bool * ScrollingText :=
  if _is_scrolling st && negb force then
    (false, mkSink (_is_scrolling st)
              (calls st ++ [mkCall text color image_path force message_type false]))
  else
    (true, mkSink true
             (calls st ++ [mkCall text color image_path force message_type true])).

Definition is_scrolling (st : ScrollingText) : bool := _is_scrolling st.

(** ** MessageQueue *)

(** [MessageQueue.put(item, block=False)] on a queue of capacity [maxsize]:
    a full queue drops its oldest element. *)
Definition queue_put (maxsize : nat) (item : MessageItem)
    (q : list MessageItem) : list MessageItem :=
  if (0 <? maxsize) && (maxsize <=? length q) then drop 1 q ++ [item]
  else q ++ [item].

(** ** The arbiter ([MainWindow]) *)

Inductive display_type := warning | report.

Record MainWindow := mkWin {
  message_queue : list MessageItem;
  warning_buffer : MessageBuffer;
  report_buffer : MessageBuffer;
  scrolling_text : ScrollingText;
  current_display_type : option display_type;
  _switching_to_report : bool;
  _current_displaying_message : option MessageItem;
  _pending_update_message : option MessageItem;
  report_timers : nat;
  next_oid : nat
}.

Definition with_queue q (w : MainWindow) :=
  mkWin q (warning_buffer w) (report_buffer w) (scrolling_text w)
    (current_display_type w) (_switching_to_report w)
    (_current_displaying_message w) (_pending_update_message w)
    (report_timers w) (next_oid w).
Definition with_warning_buffer b (w : MainWindow) :=
  mkWin (message_queue w) b (report_buffer w) (scrolling_text w)
    (current_display_type w) (_switching_to_report w)
    (_current_displaying_message w) (_pending_update_message w)
    (report_timers w) (next_oid w).
Definition with_report_buffer b (w : MainWindow) :=
  mkWin (message_queue w) (warning_buffer w) b (scrolling_text w)
    (current_display_type w) (_switching_to_report w)
    (_current_displaying_message w) (_pending_update_message w)
    (report_timers w) (next_oid w).
Definition with_scrolling_text s (w : MainWindow) :=
  mkWin (message_queue w) (warning_buffer w) (report_buffer w) s
    (current_display_type w) (_switching_to_report w)
    (_current_displaying_message w) (_pending_update_message w)
    (report_timers w) (next_oid w).
Definition with_display_type d (w : MainWindow) :=
  mkWin (message_queue w) (warning_buffer w) (report_buffer w)
    (scrolling_text w) d (_switching_to_report w)
    (_current_displaying_message w) (_pending_update_message w)
    (report_timers w) (next_oid w).
Definition with_switching f (w : MainWindow) :=
  mkWin (message_queue w) (warning_buffer w) (report_buffer w)
    (scrolling_text w) (current_display_type w) f
    (_current_displaying_message w) (_pending_update_message w)
    (report_timers w) (next_oid w).
Definition with_current m (w : MainWindow) :=
  mkWin (message_queue w) (warning_buffer w) (report_buffer w)
    (scrolling_text w) (current_display_type w) (_switching_to_report w)
    m (_pending_update_message w) (report_timers w) (next_oid w).
Definition with_pending m (w : MainWindow) :=
  mkWin (message_queue w) (warning_buffer w) (report_buffer w)
    (scrolling_text w) (current_display_type w) (_switching_to_report w)
    (_current_displaying_message w) m (report_timers w) (next_oid w).
Definition with_timers n (w : MainWindow) :=
  mkWin (message_queue w) (warning_buffer w) (report_buffer w)
    (scrolling_text w) (current_display_type w) (_switching_to_report w)
    (_current_displaying_message w) (_pending_update_message w)
    n (next_oid w).
Definition with_next_oid n (w : MainWindow) :=
  mkWin (message_queue w) (warning_buffer w) (report_buffer w)
    (scrolling_text w) (current_display_type w) (_switching_to_report w)
    (_current_displaying_message w) (_pending_update_message w)
    (report_timers w) n.

(** [MainWindow.__init__]: both buffers hold at most 20 entries and sort by
    priority; the widget exists from then on, so the
    [if self.scrolling_text] guards of the handlers hold. *)
Definition new_window : MainWindow :=
  mkWin [] (new_buffer 20 true) (new_buffer 20 true) (mkSink false [])
    None false None None 0 0.

(** *** Shared objects

    An attribute assignment [obj.attr = v] is seen through every reference
    to [obj]: the buffers, the displayed message and the pending one. *)
Module Alias.
Definition on_object (i : nat) (f : MessageItem → MessageItem)
    (m : MessageItem) : MessageItem :=
  if oid m =? i then f m else m.

Definition assign (i : nat) (f : MessageItem → MessageItem)
    (w : MainWindow) : MainWindow :=
  let w := with_warning_buffer
             (with_buffer (on_object i f <$> buffer (warning_buffer w))
                (warning_buffer w)) w in
  let w := with_report_buffer
             (with_buffer (on_object i f <$> buffer (report_buffer w))
                (report_buffer w)) w in
  let w := with_current (on_object i f <$> _current_displaying_message w) w in
  with_pending (on_object i f <$> _pending_update_message w) w.
End Alias.

(** *** Configuration and interpreter services *)

Record MessageConfig := mkConfig {
  warning_shock_validity_seconds : Z;
  warning_min_display_seconds : Z;
  warning_color : pystr;
  use_custom_text : bool
}.

(** [config.py]: both windows default to five minutes. *)
Definition default_config : MessageConfig :=
  mkConfig 300 300 (cp "#FF0000") false.

(** What the handlers take from outside the arbitration code.
    - [strptime]: [datetime.strptime] tried with the two formats of
      [parse_display_time], as seconds on the naive display-timezone line;
    - [search_time]: [re.search] of the two time patterns of
      [_is_warning_still_valid] in a message text (the captured group);
    - [format_message], [get_message_color], [get_weather_image_path]: the
      renderer of [MessageProcessor], a black box for the arbitration. *)
Record Services := mkServices {
  config : MessageConfig;
  strptime : pystr → option Q;
  search_time : pystr → option pystr;
  format_message : ParsedData → option pystr;
  get_message_color : pystr → option ParsedData → pystr;
  get_weather_image_path : ParsedData → option pystr
}.

Section Arbiter.
Context (sv : Services).
(** [time.time()] and [timezone_utils.now_in_display_tz()]. *)
Context (now now_tz : Q).

(** [timezone_utils.parse_display_time] *)
Definition parse_display_time (time_str : pystr) : option Q :=
  if negb (nonempty time_str) || negb (nonempty (strip time_str)) then None
  else strptime sv (strip time_str).

(** [MessageProcessor._is_warning_valid] *)
Definition _is_warning_valid (data : ParsedData) : bool :=
  let shock_time_str := pd_shock_time data in
  if negb (nonempty shock_time_str) then true
  else
    match parse_display_time shock_time_str with
    | None => true
    | Some shock_time =>
        let time_diff := (now_tz - shock_time)%Q in
        Qle_bool time_diff
          (inject_Z (warning_shock_validity_seconds (config sv)))
    end.

(** [MainWindow._is_warning_still_valid] *)
Definition _is_warning_still_valid (message : MessageItem) : bool :=
  let min_display := warning_min_display_seconds (config sv) in
  match first_displayed_at message with
  | Some shown =>
      let displayed_seconds := (now - shown)%Q in
      Qlt_bool displayed_seconds (inject_Z min_display)
  | None =>
      let shock_time_str :=
        if truthy (shock_time message) then shock_time message
        else search_time sv (text message) in
      if negb (truthy shock_time_str) then true
      else
        match parse_display_time (default [] shock_time_str) with
        | None => true
        | Some shock_time =>
            let time_diff := (now_tz - shock_time)%Q in
            Qle_bool time_diff
              (inject_Z (warning_shock_validity_seconds (config sv)))
        end
  end.

(** [MainWindow._clean_expired_warnings] *)
Definition _clean_expired_warnings (w : MainWindow) : bool * MainWindow :=
  let wb := warning_buffer w in
  let valid_messages :=
    filter (λ msg, _is_warning_still_valid msg = true) (buffer wb) in
  let expired_count := length (buffer wb) - length valid_messages in
  if 0 <? expired_count then
    let wb := with_buffer valid_messages wb in
    let wb :=
      if length (buffer wb) <=? current_index wb then with_index 0 wb
      else wb in
    let w := with_warning_buffer wb w in
    match buffer wb, current_display_type w with
    | [], Some warning => (true, w)
    | _, _ => (false, w)
    end
  else (false, w).

(** The tail shared by the display paths of warnings: mark the shown
    object on its first display. *)
Definition mark_first_display (message : MessageItem) (w : MainWindow)
  : MainWindow :=
  if str_eqb (message_type message) (cp "warning") then
    Alias.assign (oid message) (stamp_first_display now) w
  else w.

(** [MainWindow._switch_to_warning_mode] *)
Definition _switch_to_warning_mode (message : MessageItem)
    (force_interrupt : bool) (w : MainWindow) : MainWindow :=
  let wb := warning_buffer w in
  let wb :=
    match list_find
            (λ msg, oid msg = oid message ∨ is_same_event msg message = true)
            (buffer wb) with
    | Some (found_index, found) =>
        with_displaying (Some (oid found)) (with_index found_index wb)
    | None => with_displaying (Some (oid message)) wb
    end in
  let w := with_warning_buffer wb w in
  let '(success, st) :=
    update_text (text message) (color message) (image_path message)
      force_interrupt (message_type message) (scrolling_text w) in
  let w := with_scrolling_text st w in
  if success then
    let w := with_display_type (Some warning) w in
    let w := with_current (Some message) w in
    let w := mark_first_display message w in
    with_pending None w
  else
    with_current (Some message) (with_display_type (Some warning) w).

(** [MainWindow._do_switch_to_report] *)
Definition _do_switch_to_report (current_msg : MessageItem) (w : MainWindow)
  : MainWindow :=
  let scrolling := is_scrolling (scrolling_text w) in
  let '(success, st) :=
    update_text (text current_msg) (color current_msg)
      (image_path current_msg) (negb scrolling) (message_type current_msg)
      (scrolling_text w) in
  let w := with_scrolling_text st w in
  let w :=
    if success then
      with_pending None
        (with_current (Some current_msg) (with_display_type (Some report) w))
    else w in
  with_switching false w.

(** [MainWindow._switch_to_report_mode] *)
Definition _switch_to_report_mode (w : MainWindow) : MainWindow :=
  match current_display_type w with
  | Some warning =>
      if _switching_to_report w then w
      else if 0 <? size (report_buffer w) then
        if negb (is_scrolling (scrolling_text w)) then
          let w := with_switching true w in
          match buffer (report_buffer w) with
          | current_msg :: _ =>
              let w := with_report_buffer (with_index 0 (report_buffer w)) w in
              _do_switch_to_report current_msg w
          | [] => with_switching false w
          end
        else w
      else with_switching false w
  | _ =>
      if _switching_to_report w then w else with_switching false w
  end.

(** The text of the notice of [_show_cancellation_notice]. *)
Definition cancellation_notice_text (source_name : pystr)
    (cancelled_message : option MessageItem) : pystr :=
  let close := 12305%N in
  let prefix :=
    match cancelled_message with
    | Some m =>
        if nonempty (text m) && bool_decide (close ∈ text m) then
          take (span_len (λ c, negb (c =? close)%N) (text m)) (text m)
          ++ [close]
        else []
    | None => []
    end in
  let prefix :=
    if nonempty prefix then prefix
    else [12304%N] ++ source_name ++ [39044; 35686; 12305]%N in
  prefix ++ [25910; 21040; 21462; 28040; 25253; 65292; 25764; 22238;
             24403; 21069; 39044; 35686; 20449; 24687]%N.

(** [MainWindow._show_cancellation_notice] *)
Definition _show_cancellation_notice (source_name : pystr)
    (cancelled_message : option MessageItem) (w : MainWindow) : MainWindow :=
  let notice_text := cancellation_notice_text source_name cancelled_message in
  let notice_color := warning_color (config sv) in
  let '(_, st) :=
    update_text notice_text notice_color None true (cp "warning")
      (scrolling_text w) in
  let w := with_scrolling_text st w in
  with_display_type (Some warning) (with_pending None (with_current None w)).

(** The demotion guard that follows every emptiness check of the warning
    buffer:
    [if self.report_buffer.size() > 0 and not self._switching_to_report]. *)
Definition demote_if_reports (w : MainWindow) : MainWindow :=
  if (0 <? size (report_buffer w)) && negb (_switching_to_report w)
  then _switch_to_report_mode w else w.

(** [MainWindow.on_message_received] *)
Definition on_message_received (source_name : pystr)
    (parsed_data : ParsedData) (w : MainWindow) : MainWindow :=
  let message_type := default (cp "report") (pd_type parsed_data) in
  let is_warning := str_eqb message_type (cp "warning") in
  if is_warning && str_eqb source_name (cp "jma") && pd_cancel parsed_data
  then
    let event_id' := pd_event_id parsed_data in
    if nonempty event_id' then
      let current_msg_will_be_removed :=
        match _current_displaying_message w with
        | Some m => str_eqb (source m) (cp "jma")
                    && str_eqb (event_id m) event_id'
        | None => false
        end in
      let wb := warning_buffer w in
      let wb :=
        with_buffer
          (filter (λ msg, ¬ (source msg = cp "jma" ∧ event_id msg = event_id'))
             (buffer wb)) wb in
      let wb :=
        if length (buffer wb) <=? current_index wb then with_index 0 wb
        else wb in
      let w := with_warning_buffer wb w in
      if current_msg_will_be_removed then
        let w :=
          _show_cancellation_notice source_name
            (_current_displaying_message w) w in
        if size (warning_buffer w) =? 0 then demote_if_reports w
        else
          let '(next_msg, wb) := get_next (warning_buffer w) in
          let w := with_warning_buffer wb w in
          match next_msg with
          | Some next_msg =>
              if negb (is_scrolling (scrolling_text w))
              then _switch_to_warning_mode next_msg false w
              else w
          | None => w
          end
      else w
    else w
  else if is_warning && negb (_is_warning_valid parsed_data) then w
  else
    match format_message sv parsed_data with
    | Some (c :: message') =>
        let message := c :: message' in
        let is_weather := str_eqb message_type (cp "weather") in
        let color :=
          get_message_color sv message_type
            (if is_weather then Some parsed_data else None) in
        let image_path :=
          if is_weather then get_weather_image_path sv parsed_data
          else None in
        let msg_item :=
          mkMsg (next_oid w) message color now message_type source_name
            image_path (pd_event_id parsed_data)
            (if is_warning then Some (pd_shock_time parsed_data) else None)
            (if is_weather then Some parsed_data else None)
            None in
        with_queue (queue_put 100 msg_item (message_queue w))
          (with_next_oid (S (next_oid w)) w)
    | _ => w
    end.

(** The update-report test of [process_messages] in warning mode. *)
Definition need_switch (warning_messages : list MessageItem)
    (w : MainWindow) : bool :=
  match _current_displaying_message w with
  | None => true
  | Some current_warning =>
      if negb (str_eqb (message_type current_warning) (cp "warning"))
      then true
      else existsb (λ msg, negb (is_same_event msg current_warning))
             warning_messages
  end.

(** The warning branch of [process_messages]. *)
Definition process_warnings (warning_messages : list MessageItem)
    (w : MainWindow) : MainWindow :=
  match current_display_type w with
  | Some warning =>
      let '(_, wb) :=
        batch_replace_by_source warning_messages (warning_buffer w) in
      let w := with_warning_buffer wb w in
      if need_switch warning_messages w then
        match buffer (warning_buffer w) with
        | first_warning :: _ =>
            if negb (is_scrolling (scrolling_text w)) then
              with_display_type (Some warning)
                (_switch_to_warning_mode first_warning false w)
            else w
        | [] => w
        end
      else w
  | _ =>
      let '(_, wb) :=
        batch_replace_by_source warning_messages (warning_buffer w) in
      let w := with_warning_buffer wb w in
      match py_sort Nat.leb (λ m, get_source_priority (source m))
              warning_messages with
      | first_warning :: _ => _switch_to_warning_mode first_warning true w
      | [] => w
      end
  end.

(** The report branch of [process_messages]; [had_warnings] tells whether
    the batch held warnings. *)
Definition process_reports (all_messages : list MessageItem)
    (had_warnings : bool) (w : MainWindow) : MainWindow :=
  let scrolling := is_scrolling (scrolling_text w) in
  let '(update_results, rb) :=
    batch_replace_by_source all_messages (report_buffer w) in
  let w := with_report_buffer rb w in
  let stage (w : MainWindow) (r : bool * MessageItem) : MainWindow :=
    let '(updated, msg) := r in
    if updated then
      match _current_displaying_message w with
      | Some cur =>
          if str_eqb (source cur) (source msg) then
            match find_by_source (source msg) (report_buffer w) with
            | Some updated_msg => with_pending (Some updated_msg) w
            | None => w
            end
          else w
      | None => w
      end
    else w in
  let w := foldl stage w (zip update_results all_messages) in
  if negb had_warnings && negb scrolling
  then with_timers (S (report_timers w)) w else w.

(** One run of [process_messages]: at most five queued messages are taken
    and classified. *)
Definition process_messages (w : MainWindow) : MainWindow :=
  let max_batch_size := 5 in
  let new_messages := take max_batch_size (message_queue w) in
  let w := with_queue (drop max_batch_size (message_queue w)) w in
  let is_type (t : string) (msg : MessageItem) : bool :=
    str_eqb (message_type msg) (cp t) in
  let warning_messages := List.filter (is_type "warning") new_messages in
  let weather_messages :=
    List.filter (λ m, negb (is_type "warning" m) && is_type "weather" m)
      new_messages in
  let report_messages :=
    List.filter (λ m, negb (is_type "warning" m) && negb (is_type "weather" m))
      new_messages in
  let w :=
    if nonempty warning_messages then process_warnings warning_messages w
    else w in
  if (nonempty weather_messages || nonempty report_messages)
     && negb (use_custom_text (config sv))
  then process_reports (weather_messages ++ report_messages)
         (nonempty warning_messages) w
  else w.

(** The display of the next warning at the end of a scroll. *)
Definition show_next_warning (next_msg : MessageItem) (w : MainWindow)
  : MainWindow :=
  let '(success, st) :=
    update_text (text next_msg) (color next_msg) (image_path next_msg)
      false (message_type next_msg) (scrolling_text w) in
  let w := with_scrolling_text st w in
  if success then
    let w := with_display_type (Some warning) w in
    let w := with_current (Some next_msg) w in
    let w := mark_first_display next_msg w in
    with_pending None w
  else w.

(** The last statement of [_on_scroll_completed]. *)
Definition final_demotion_check (w : MainWindow) : MainWindow :=
  match current_display_type w with
  | Some warning =>
      if size (warning_buffer w) =? 0 then demote_if_reports w else w
  | _ => w
  end.

(** [MainWindow._on_scroll_completed] *)
Definition _on_scroll_completed (w : MainWindow) : MainWindow :=
  if 0 <? size (warning_buffer w) then
    let w := (_clean_expired_warnings w).2 in
    if size (warning_buffer w) =? 0 then demote_if_reports w
    else
      let '(next_msg, wb) := get_next (warning_buffer w) in
      let w := with_warning_buffer wb w in
      match next_msg with
      | Some next_msg =>
          if negb (_is_warning_still_valid next_msg) then
            let wb := warning_buffer w in
            let wb :=
              with_index 0
                (with_buffer
                   (filter (λ msg, is_same_event msg next_msg ≠ true)
                      (buffer wb)) wb) in
            let w := with_warning_buffer wb w in
            let w := (_clean_expired_warnings w).2 in
            if size (warning_buffer w) =? 0 then demote_if_reports w
            else
              let '(next_msg, wb) := get_next (warning_buffer w) in
              let w := with_warning_buffer wb w in
              match next_msg with
              | Some next_msg =>
                  if _is_warning_still_valid next_msg
                  then final_demotion_check (show_next_warning next_msg w)
                  else demote_if_reports w
              | None => demote_if_reports w
              end
          else final_demotion_check (show_next_warning next_msg w)
      | None => final_demotion_check w
      end
  else if 0 <? size (report_buffer w) then
    let '(next_msg, w) :=
      match _pending_update_message w with
      | Some pending =>
          let w := with_pending None w in
          match list_find (λ msg, source msg = source pending)
                  (buffer (report_buffer w)) with
          | Some (i, msg) =>
              (Some msg,
               with_report_buffer
                 (with_displaying (Some (oid msg))
                    (with_index i (report_buffer w))) w)
          | None => (Some pending, w)
          end
      | None =>
          let '(next_msg, rb) := get_next (report_buffer w) in
          (next_msg, with_report_buffer rb w)
      end in
    let w :=
      match next_msg with
      | Some next_msg =>
          let '(success, st) :=
            update_text (text next_msg) (color next_msg)
              (image_path next_msg) false (message_type next_msg)
              (scrolling_text w) in
          let w := with_scrolling_text st w in
          if success then
            with_current (Some next_msg) (with_display_type (Some report) w)
          else w
      | None => w
      end in
    final_demotion_check w
  else final_demotion_check w.

(** The widget ends a scroll: it clears its flag and emits
    [scroll_completed], which runs [_on_scroll_completed]. *)
Definition scroll_completed (w : MainWindow) : MainWindow :=
  _on_scroll_completed
    (with_scrolling_text (mkSink false (calls (scrolling_text w))) w).

(** A [QTimer.singleShot(100, self._switch_to_report_mode)] fires. *)
Definition report_timer_fires (w : MainWindow) : MainWindow :=
  _switch_to_report_mode (with_timers (pred (report_timers w)) w).
End Arbiter.

(** * The other operations of the modules *)

(** ** MessageQueue *)

(** [MessageQueue.get(block=False)]: the oldest element, [None] on an empty
    queue. *)
Definition queue_get (q : list MessageItem)
  : option MessageItem * list MessageItem :=
  match q with
  | [] => (None, [])
  | item :: q' => (Some item, q')
  end.

(** The loop of [MessageQueue.get_all]:
    [while not self.queue.empty(): messages.append(self.queue.get_nowait())]. *)
Fixpoint get_all_loop (messages q : list MessageItem)
  : list MessageItem * list MessageItem :=
  match q with
  | [] => (messages, [])
  | item :: q' => get_all_loop (messages ++ [item]) q'
  end.

(** [MessageQueue.get_all] *)
Definition queue_get_all (q : list MessageItem)
  : list MessageItem * list MessageItem :=
  get_all_loop [] q.

(** [MessageQueue.qsize] *)
Definition qsize (q : list MessageItem) : nat := length q.

(** The queue after the given arrivals, oldest first. *)
Definition queue_put_all (maxsize : nat) (items q : list MessageItem)
  : list MessageItem :=
  foldl (λ q item, queue_put maxsize item q) q items.

(** ** MessageBuffer *)

(** The key of the first loop of [batch_replace_or_add]. *)
Definition msg_key (message : MessageItem) : pystr * pystr :=
  (event_id message, source message).

(** The first loop of [batch_replace_or_add]: [seen_in_batch] maps the key
    of every message of [unique_messages] to its position there. *)
Definition dedup_step (st : list MessageItem * list nat)
    (message : MessageItem) : list MessageItem * list nat :=
  let '(unique_messages, message_index_map) := st in
  match list_find (λ u, msg_key u = msg_key message) unique_messages with
  | None =>
      (unique_messages ++ [message],
       message_index_map ++ [length unique_messages])
  | Some (unique_index, _) =>
      (unique_messages, message_index_map ++ [unique_index])
  end.

(** The body of the second loop of [batch_replace_or_add]. *)
Definition batch_step_or_add (st : list bool * MessageBuffer)
    (message : MessageItem) : list bool * MessageBuffer :=
  let '(unique_results, b) := st in
  match list_find (λ existing_msg, is_same_event message existing_msg = true)
          (buffer b) with
  | Some (i, existing_msg) =>
      let b := carry_order existing_msg message b in
      (unique_results ++ [true], with_buffer (<[i := message]> (buffer b)) b)
  | None => (unique_results ++ [false], append_new message (make_room b))
  end.

(** [MessageBuffer.batch_replace_or_add]; a result index out of range
    raises [IndexError], here [None]. *)
Definition batch_replace_or_add (messages : list MessageItem)
    (b : MessageBuffer) : option (list bool) * MessageBuffer :=
  let '(unique_messages, message_index_map) :=
    foldl dedup_step ([], []) messages in
  let '(unique_results, b) :=
    foldl batch_step_or_add ([], b) unique_messages in
  (mapM (λ i, unique_results !! i) message_index_map, sort_if_priority b).

(** [MessageBuffer.remove_by_event_id] *)
Definition remove_by_event_id (e s : pystr) (b : MessageBuffer)
  : bool * MessageBuffer :=
  match list_find (λ msg, event_id msg = e ∧ source msg = s) (buffer b) with
  | Some (i, removed_msg) =>
      let b := with_buffer (delete i (buffer b)) b in
      let b := with_order (_add_order_counter b)
                 (delete (oid removed_msg) (_message_add_order b)) b in
      let b :=
        if i <? current_index b then with_index (current_index b - 1) b
        else if current_index b =? i then
          let b :=
            if length (buffer b) <=? current_index b then with_index 0 b
            else b in
          with_displaying None b
        else b in
      (true, sort_if_priority b)
  | None => (false, b)
  end.

(** [MessageBuffer.clear] *)
Definition clear (b : MessageBuffer) : MessageBuffer :=
  mkBuf [] (max_size b) 0 (use_priority b) 0 ∅ None.

(** ** MessageProcessor *)

Module MessageProcessor.
Section Formatter.
Context (sv : Services).
(** [timezone_utils.now_in_display_tz()] *)
Context (now_tz : Q).
(** The formatters of the four message types; [None] stands for a raised
    exception. *)
Context (_format_warning_message _format_report_message
         _format_weather_message _format_generic_message
         : ParsedData → option pystr).

(** [MessageProcessor.format_message] *)
Definition format_message (parsed_data : ParsedData) : option pystr :=
  let message_type := default (cp "report") (pd_type parsed_data) in
  if str_eqb message_type (cp "warning") then
    if str_eqb (pd_source_type parsed_data) (cp "jma")
       && pd_cancel parsed_data
    then None
    else if negb (_is_warning_valid sv now_tz parsed_data) then None
    else
      match _format_warning_message parsed_data with
      | Some result =>
          if negb (nonempty result) || str_eqb (strip result) [] then None
          else Some result
      | None => None
      end
  else if str_eqb message_type (cp "report") then
    _format_report_message parsed_data
  else if str_eqb message_type (cp "weather") then
    _format_weather_message parsed_data
  else _format_generic_message parsed_data.

(** The services of a window whose renderer is this [format_message]. *)
Definition services : Services :=
  mkServices (config sv) (strptime sv) (search_time sv) format_message
    (get_message_color sv) (get_weather_image_path sv).
End Formatter.
End MessageProcessor.

(** ** Completing a configuration file ([config.py]) *)

(** A value of the configuration dict: a nested dict (a section of the
    file) or anything else.  The code looks no deeper than the keys of a
    section; what it copies is opaque.  A dict is a finite map: the order
    of its keys plays no role in what the two functions compute. *)
Inductive ConfigValue (V : Type) : Type :=
| Plain (v : V)
| Dict (d : gmap pystr V).
Arguments Plain {V} v.
Arguments Dict {V} d.

Section ConfigFile.
Context {V : Type}.

(** [if subkey not in merged[key]: merged[key][subkey] = subval] *)
Definition fill_subkey (section : gmap pystr V) (item : pystr * V)
  : gmap pystr V :=
  match section !! item.1 with
  | None => <[item.1 := item.2]> section
  | Some _ => section
  end.

(** The body of the loop of [_merge_config_file]. *)
Definition merge_key (merged : gmap pystr (ConfigValue V))
    (item : pystr * ConfigValue V) : gmap pystr (ConfigValue V) :=
  let '(key, full_value) := item in
  match merged !! key with
  | None => <[key := full_value]> merged
  | Some (Dict section) =>
      match full_value with
      | Dict full_section =>
          <[key := Dict (foldl fill_subkey section (map_to_list full_section))]>
            merged
      | Plain _ => merged
      end
  | Some (Plain _) => merged
  end.

(** [Config._merge_config_file] *)
Definition _merge_config_file (existing full : gmap pystr (ConfigValue V))
  : gmap pystr (ConfigValue V) :=
  foldl merge_key existing (map_to_list full).

(** [Config._has_missing_keys] *)
Definition _has_missing_keys (existing full : gmap pystr (ConfigValue V))
  : bool :=
  existsb
    (λ item : pystr * ConfigValue V,
       match existing !! item.1 with
       | None => true
       | Some existing_value =>
           match item.2, existing_value with
           | Dict full_section, Dict section =>
               existsb
                 (λ sub : pystr * V, bool_decide (section !! sub.1 = None))
                 (map_to_list full_section)
           | _, _ => false
           end
       end)
    (map_to_list full).
End ConfigFile.

(** * Vocabulary of the properties *)

(** The order on entries induced by a key order. *)
Definition key_rel {A K : Type} (le : K → K → bool) (key : A → K) (x y : A)
  : Prop :=
  le (key x) (key y) = true.

(** Every entry of source [s] is [e]. *)
Definition only_entry (s : pystr) (e : MessageItem) (l : list MessageItem)
  : Prop :=
  ∀ x, x ∈ l → source x = s → x = e.

(** The identity rule in the words of the specification. *)
Definition spec_same_event (a b : MessageItem) : Prop :=
  source a = source b ∧
  ((event_id a ≠ [] ∧ event_id b ≠ [] ∧ event_id a = event_id b) ∨
   (event_id a = [] ∧ event_id b = [] ∧
    _normalize_warning_text (text a) = _normalize_warning_text (text b) ∧
    (Qabs (timestamp a - timestamp b) < 30 # 1)%Q)).

(** The identity rule the code implements. *)
Definition code_same_event (a b : MessageItem) : Prop :=
  let na := _normalize_warning_text (text a) in
  let nb := _normalize_warning_text (text b) in
  source a = source b ∧
  ((event_id a ≠ [] ∧ event_id b ≠ [] ∧ event_id a = event_id b) ∨
   (event_id a = [] ∧ event_id b = [] ∧
    ((na ≠ [] ∧ na = nb) ∨
     (truthy (shock_time a) = true ∧ truthy (shock_time b) = true ∧
      shock_time a = shock_time b) ∨
     (na ≠ [] ∧ nb ≠ [] ∧ (Qabs (timestamp a - timestamp b) < 30 # 1)%Q ∧
      take 80 na = take 80 nb)))).

(** The buffer as [_sort_by_priority] leaves it. *)
Definition sorted_buffer (b : MessageBuffer) : list MessageItem :=
  py_sort key_le (sort_key (_message_add_order b)) (buffer b).

(** The index [_get_next_by_priority] selects: the successor of the entry
    on display, located by identity in the sorted buffer, or 0 when there
    is none. *)
Definition next_index (b : MessageBuffer) : nat :=
  match _current_displaying_msg_id b with
  | Some i =>
      match index_of_id i (sorted_buffer b) with
      | Some k => (k + 1) `mod` length (buffer b)
      | None => 0
      end
  | None => 0
  end.

(** The results of [n] successive calls of [get_next]. *)
Fixpoint get_next_run (n : nat) (b : MessageBuffer)
  : list (option MessageItem) :=
  match n with
  | 0 => []
  | S n' => let '(m, b') := get_next b in m :: get_next_run n' b'
  end.


Definition buffer_sorted (b : MessageBuffer) : Prop :=
  StronglySorted (key_rel key_le (sort_key (_message_add_order b))) (buffer b).



(** ** Vocabulary of the further properties *)

(** The characters [_normalize_warning_text] removes wherever they stand:
    the comma and the full stop, in their ASCII and full-width forms. *)
Definition punctuation : list N := [44; 65292; 12290; 46]%N.

(** What [_merge_config_file] leaves under a key, from what the existing
    file and the full configuration hold there: an existing value stays, a
    missing one is taken from the full configuration, and an existing
    section receives the keys it lacks. *)
Definition completed {V : Type} (existing_value full_value : option (ConfigValue V))
  : option (ConfigValue V) :=
  match existing_value, full_value with
  | Some (Dict section), Some (Dict full_section) =>
      Some (Dict (section ∪ full_section))
  | Some v, _ => Some v
  | None, fv => fv
  end.

(** * Example states *)

Module C5Example.
(** Two reports of one source without event id: same text, received 100
    seconds apart. *)
Definition first_report : MessageItem :=
  mkMsg 1 (cp "M5.0 quake") (cp "#FFFFFF") (0 # 1) (cp "report")
        (cp "cenc") None [] None None None.
Definition second_report : MessageItem :=
  mkMsg 2 (cp "M5.0 quake") (cp "#FFFFFF") (100 # 1) (cp "report")
        (cp "cenc") None [] None None None.
End C5Example.

(** Whole seconds. *)
Definition secs (z : Z) : Q := inject_Z z.

Module Fixture.
(** The instant "2026-01-01 00:00:00" is second 0 of the display line;
    nothing else parses. *)
Definition epoch : pystr := cp "2026-01-01 00:00:00".

(** Services for the examples: the renderer returns the payload, and
    nothing for a cancelled JMA warning. *)
Definition services : Services :=
  mkServices default_config
    (λ s, if str_eqb s epoch then Some (secs 0) else None)
    (λ _, None)
    (λ pd, if str_eqb (default [] (pd_type pd)) (cp "warning")
              && str_eqb (pd_source_type pd) (cp "jma") && pd_cancel pd
           then None else Some (pd_payload pd))
    (λ _ _, cp "#FFFFFF")
    (λ _, None).

Definition msg (i : nat) (kind src ev txt : string) (t : Q) : MessageItem :=
  mkMsg i (cp txt) (cp "#FFFFFF") t (cp kind) (cp src) None (cp ev)
        None None None.

Definition event (kind src ev txt : string) (shock : pystr) : ParsedData :=
  mkParsed (Some (cp kind)) false (cp ev) shock (cp src) (cp txt).

Definition receive (t : Z) (src : string) (pd : ParsedData) :=
  on_message_received services (secs t) (secs t) (cp src) pd.

Definition usgs : MessageItem := msg 1 "report" "usgs" "U1" "usgs report" (secs 1).
Definition cenc : MessageItem := msg 2 "report" "cenc" "C1" "cenc report" (secs 2).
Definition emsc : MessageItem := msg 3 "report" "emsc" "M1" "emsc report" (secs 3).
Definition weatheralarm : MessageItem :=
  msg 3 "weather" "weatheralarm" "" "weather alert" (secs 3).

(** Scenario B: the three reports arrive as usgs, cenc, weatheralarm. *)
Definition loaded : MessageBuffer :=
  (batch_replace_by_source [usgs; cenc; weatheralarm] (new_buffer 20 true)).2.

(** A warning of "sa" whose shock time is the epoch, first shown at
    second 60. *)
Definition shown_warning : MessageItem :=
  mkMsg 1 (cp "sa warning") (cp "#FF0000") (secs 10) (cp "warning") (cp "sa")
        None (cp "E1") (Some epoch) None (Some (secs 60)).

(** A JMA warning of the event "E7". *)
Definition jma_warning : MessageItem :=
  mkMsg 1 (cp "jma warning") (cp "#FF0000") (secs 350) (cp "warning")
        (cp "jma") None (cp "E7") (Some epoch) None None.

(** Warning mode with the given warning buffer. *)
Definition window_with (l : list MessageItem) : MainWindow :=
  with_display_type (Some warning)
    (with_warning_buffer (with_buffer l (new_buffer 20 true)) new_window).

(** Three reports arrive (usgs, cenc, weatheralarm) and are processed;
    two scrolls complete, so the display shows weatheralarm, then cenc. *)
Definition reports_running : MainWindow :=
  let w := new_window in
  let w := receive 1 "usgs" (event "report" "usgs" "U1" "usgs report" []) w in
  let w := receive 2 "cenc" (event "report" "cenc" "C1" "cenc report" []) w in
  let w := receive 3 "weatheralarm"
             (event "weather" "weatheralarm" "" "weather alert" []) w in
  let w := process_messages services (secs 4) w in
  let w := scroll_completed services (secs 5) (secs 5) w in
  scroll_completed services (secs 6) (secs 6) w.
End Fixture.

Module C9Example.
(** Scenario C: a warning of "sa" whose shock time is the epoch, received
    at second 400 of the display line with a validity of 300 seconds. *)
Definition stale_sa : ParsedData :=
  mkParsed (Some (cp "warning")) false (cp "E1") Fixture.epoch (cp "sa")
           (cp "sa warning").

(** A JMA cancellation of the event "E7" with the same stale shock
    time. *)
Definition stale_jma_cancel : ParsedData :=
  mkParsed (Some (cp "warning")) true (cp "E7") Fixture.epoch (cp "jma")
           (cp "jma cancel").
End C9Example.

Module C4Example.
(** A priority buffer of capacity 2 that received usgs, then cenc. *)
Definition full : MessageBuffer :=
  add Fixture.cenc (add Fixture.usgs (new_buffer 2 true)).

(** The same arrivals in a buffer that does not sort. *)
Definition full_fifo : MessageBuffer :=
  add Fixture.cenc (add Fixture.usgs (new_buffer 2 false)).
End C4Example.

Module C8Example.
(** A warning of "sa" interrupts cenc at second 10. *)
Definition warning_shown : MainWindow :=
  let w := Fixture.receive 10 "sa"
             (Fixture.event "warning" "sa" "E1" "sa warning" Fixture.epoch)
             Fixture.reports_running in
  process_messages Fixture.services (secs 10) w.

(** At second 400 the warning's scroll completes: the warning has been
    displayed for 390 seconds, the sweep empties the warning buffer and
    the arbiter demotes. *)
Definition demoted : MainWindow :=
  scroll_completed Fixture.services (secs 400) (secs 400) warning_shown.

(** The next scroll completes. *)
Definition after_demotion : MainWindow :=
  scroll_completed Fixture.services (secs 410) (secs 410) demoted.

Definition shown (w : MainWindow) : list (pystr * bool) :=
  (λ c, (call_text c, call_force c)) <$> calls (scrolling_text w).
End C8Example.

Module C1Example.
End C1Example.

Module C3Example.
(** The first call of [get_next] put weatheralarm on display. *)
Definition weather_on_display : MessageBuffer := (get_next Fixture.loaded).2.
End C3Example.

Module C7Example.
(** A JMA warning of event "E7" on display and in the warning buffer. *)
Definition jma_displayed : MainWindow :=
  with_current (Some Fixture.jma_warning)
    (Fixture.window_with [Fixture.jma_warning]).

Definition cancel_E7 : ParsedData :=
  mkParsed (Some (cp "warning")) true (cp "E7") Fixture.epoch (cp "jma")
           (cp "jma cancel").

(** A JMA warning of the event "E7" arrives at second 10 and is processed:
    it is on display and in the warning buffer. *)
Definition shown : MainWindow :=
  process_messages Fixture.services (secs 10)
    (Fixture.receive 10 "jma"
       (Fixture.event "warning" "jma" "E7" "jma warning" Fixture.epoch)
       new_window).

(** At second 20 the next report of the event arrives; it waits in the
    queue for the next run of [process_messages]. *)
Definition update_queued : MainWindow :=
  Fixture.receive 20 "jma"
    (Fixture.event "warning" "jma" "E7" "jma warning, report 2"
       Fixture.epoch)
    shown.

(** At second 21 the cancellation of the event arrives. *)
Definition cancelled : MainWindow :=
  Fixture.receive 21 "jma" cancel_E7 update_queued.

(** At second 22 [process_messages] runs. *)
Definition reprocessed : MainWindow :=
  process_messages Fixture.services (secs 22) cancelled.

(** At second 30 the scroll of the cancellation notice completes. *)
Definition after_notice : MainWindow :=
  scroll_completed Fixture.services (secs 30) (secs 30) reprocessed.

Definition identity (m : MessageItem) : pystr * pystr :=
  (source m, event_id m).

(** The texts given to the sink so far, with the force flag of each call. *)
Definition shown_texts (w : MainWindow) : list (pystr * bool) :=
  (λ c, (call_text c, call_force c)) <$> calls (scrolling_text w).
End C7Example.

Module C10Example.
(** A weather alert with its image in the report buffer, and an update of
    the same source that arrives without image path. *)
Definition alert : MessageItem :=
  mkMsg 1 (cp "weather alert") (cp "#FFFF00") (secs 1) (cp "weather")
        (cp "weatheralarm") (Some (cp "alert.png")) [] None None None.

Definition update : MessageItem :=
  mkMsg 2 (cp "weather alert, updated") (cp "#FFFF00") (secs 2) (cp "weather")
        (cp "weatheralarm") None [] None None None.

(** The same update as a report: its type is not 'weather'. *)
Definition report_update : MessageItem :=
  mkMsg 3 (cp "weather alert, updated") (cp "#FFFF00") (secs 2) (cp "report")
        (cp "weatheralarm") None [] None None None.

Definition holding_alert : MessageBuffer :=
  (batch_replace_by_source [alert] (new_buffer 20 true)).2.
End C10Example.

(** ** Further example states *)

Module Samples.
(** Two reports of sources of equal priority (8), in arrival order. *)
Definition p2pquake : MessageItem :=
  Fixture.msg 11 "report" "p2pquake" "P1" "p2pquake report" (secs 1).
Definition wolfx : MessageItem :=
  Fixture.msg 12 "report" "wolfx_jma_eqlist" "W1" "wolfx report" (secs 2).

(** A report of a source that [Fixture.loaded] does not hold. *)
Definition hko : MessageItem :=
  Fixture.msg 13 "report" "hko" "H1" "hko report" (secs 5).

(** Buffers of capacity 2 that received usgs, then cenc: one that sorts by
    priority and one that does not. *)
Definition full : MessageBuffer :=
  add Fixture.cenc (add Fixture.usgs (new_buffer 2 true)).
Definition plain : MessageBuffer :=
  add Fixture.cenc (add Fixture.usgs (new_buffer 2 false)).

(** A JMA warning event whose shock time is the epoch, and its
    cancellation. *)
Definition jma_event : ParsedData :=
  Fixture.event "warning" "jma" "E7" "jma warning" Fixture.epoch.
Definition jma_cancel : ParsedData :=
  mkParsed (Some (cp "warning")) true (cp "E7") Fixture.epoch (cp "jma")
           (cp "jma cancel").

Definition usgs_event : ParsedData :=
  Fixture.event "report" "usgs" "U1" "usgs report" [].

(** A formatter that returns the payload. *)
Definition payload (pd : ParsedData) : option pystr := Some (pd_payload pd).

(** A message of usgs with nothing to identify it by: no event id, an
    empty text, no shock time. *)
Definition blank : MessageItem := Fixture.msg 9 "report" "usgs" "" "" (secs 1).
End Samples.

(** * Properties *)

(** ** Booleans of the embedding *)

Lemma nonempty_true {A} (l : list A) : nonempty l = true ↔ l ≠ [].
Proof. destruct l; simpl; split; intros; congruence. Qed.

Lemma nonempty_false {A} (l : list A) : nonempty l = false ↔ l = [].
Proof. destruct l; simpl; split; intros; congruence. Qed.

Lemma str_eqb_true a b : str_eqb a b = true ↔ a = b.
Proof. unfold str_eqb. apply bool_decide_eq_true. Qed.

Lemma str_eqb_false a b : str_eqb a b = false ↔ a ≠ b.
Proof. unfold str_eqb. apply bool_decide_eq_false. Qed.

Lemma Qlt_bool_true a b : Qlt_bool a b = true ↔ (a < b)%Q.
Proof.
  unfold Qlt_bool. rewrite negb_true_iff. split.
  - intros H. apply Qnot_le_lt. intros Hle.
    apply Qle_bool_iff in Hle. congruence.
  - intros H. destruct (Qle_bool b a) eqn:E; [|reflexivity].
    apply Qle_bool_iff in E. exfalso. exact (Qlt_not_le _ _ H E).
Qed.

Lemma Qlt_bool_false a b : Qlt_bool a b = false ↔ (b <= a)%Q.
Proof.
  unfold Qlt_bool. rewrite negb_false_iff. apply Qle_bool_iff.
Qed.

(** ** The stable sort *)

Section SortFacts.
Context {A K : Type} (le : K → K → bool) (key : A → K).
Hypothesis le_total : ∀ a b, le a b = true ∨ le b a = true.
Hypothesis le_trans : ∀ a b c, le a b = true → le b c = true → le a c = true.

Lemma insert_by_perm x l : insert_by le key x l ≡ₚ x :: l.
Proof.
  induction l as [|y l IH]; simpl; [reflexivity|].
  destruct (le (key x) (key y)); [reflexivity|].
  rewrite IH. apply Permutation_swap.
Qed.

Lemma py_sort_perm l : py_sort le key l ≡ₚ l.
Proof.
  induction l as [|x l IH]; simpl; [reflexivity|].
  rewrite insert_by_perm. by rewrite IH.
Qed.

Lemma insert_by_sorted x l :
  StronglySorted (key_rel le key) l → StronglySorted (key_rel le key) (insert_by le key x l).
Proof.
  induction 1 as [|y l Hs IH Hy]; simpl.
  - repeat constructor.
  - destruct (le (key x) (key y)) eqn:E.
    + constructor; [by constructor|]. constructor; [exact E|].
      eapply Forall_impl; [|exact Hy]. intros z Hz. unfold key_rel in *.
      eapply le_trans; eassumption.
    + constructor; [exact IH|].
      assert (Hyx : key_rel le key y x).
      { destruct (le_total (key x) (key y)) as [H|H]; [congruence|exact H]. }
      rewrite (insert_by_perm x l). by constructor.
Qed.

Lemma py_sort_sorted l : StronglySorted (key_rel le key) (py_sort le key l).
Proof.
  induction l as [|x l IH]; simpl; [constructor|].
  by apply insert_by_sorted.
Qed.

(** Sorting a sorted list changes nothing: equal keys keep their order. *)
Lemma py_sort_fixed l : StronglySorted (key_rel le key) l → py_sort le key l = l.
Proof.
  induction 1 as [|x l Hs IH Hx]; simpl; [reflexivity|].
  rewrite IH. destruct l as [|y l]; [reflexivity|]. simpl.
  inversion Hx as [|? ? Hxy _]; subst. unfold key_rel in Hxy.
  by rewrite Hxy.
Qed.

Lemma py_sort_idempotent l :
  py_sort le key (py_sort le key l) = py_sort le key l.
Proof. apply py_sort_fixed, py_sort_sorted. Qed.

End SortFacts.



Lemma order_le_total a b : order_le a b = true ∨ order_le b a = true.
Proof.
  destruct a, b; simpl; auto. rewrite !Nat.leb_le. lia.
Qed.

Lemma order_le_trans a b c :
  order_le a b = true → order_le b c = true → order_le a c = true.
Proof.
  destruct a, b, c; simpl; try done. rewrite !Nat.leb_le. lia.
Qed.

Lemma key_le_spec a b :
  key_le a b = true ↔ a.1 < b.1 ∨ (a.1 = b.1 ∧ order_le a.2 b.2 = true).
Proof.
  unfold key_le.
  rewrite orb_true_iff, andb_true_iff, Nat.ltb_lt, Nat.eqb_eq. tauto.
Qed.

Lemma key_le_total a b : key_le a b = true ∨ key_le b a = true.
Proof.
  rewrite !key_le_spec.
  destruct (order_le_total a.2 b.2); destruct (lt_eq_lt_dec a.1 b.1) as [[?|?]|?];
    intuition lia.
Qed.

Lemma key_le_trans a b c :
  key_le a b = true → key_le b c = true → key_le a c = true.
Proof.
  rewrite !key_le_spec.
  intros [?|[? ?]] [?|[? ?]]; try (left; lia).
  right. split; [lia|]. eapply order_le_trans; eassumption.
Qed.

(** ** Event identity *)

(** C5 (as amended).  [is_same_event a b] holds exactly when the sources
    are equal and either both event ids are non-empty and equal, or both are
    empty and one of three tests succeeds: the normalized texts are
    non-empty and equal (whatever the timestamps); both shock times are
    non-empty and equal (whatever the texts); or both normalized texts are
    non-empty, the timestamps are less than 30 seconds apart and the first
    80 characters of the normalized texts agree. *)
Theorem is_same_event_characterized (a b : MessageItem) :
  is_same_event a b = true ↔ code_same_event a b.
Proof.
  unfold is_same_event, code_same_event.
  destruct (str_eqb (source a) (source b)) eqn:Hs; simpl.
  2:{ apply str_eqb_false in Hs. split; [discriminate | tauto]. }
  apply str_eqb_true in Hs.
  destruct (nonempty (event_id a)) eqn:Ha, (nonempty (event_id b)) eqn:Hb;
    simpl;
    repeat match goal with
      | H : nonempty _ = true |- _ => apply nonempty_true in H
      | H : nonempty _ = false |- _ => apply nonempty_false in H
      end.
  - rewrite str_eqb_true. split; [tauto|].
    intros [_ [(_ & _ & H)|(H & _)]]; [exact H | contradiction].
  - split; [discriminate|]. intros [_ [(_ & H & _)|(H & _)]]; contradiction.
  - split; [discriminate|]. intros [_ [(H & _)|(_ & H & _)]]; contradiction.
  - set (na := _normalize_warning_text (text a)).
    set (nb := _normalize_warning_text (text b)).
    destruct (nonempty na && str_eqb na nb) eqn:E1.
    { apply andb_true_iff in E1 as [E1 E2].
      apply nonempty_true in E1. apply str_eqb_true in E2.
      split; [|reflexivity]. intros _. split; [exact Hs|].
      right. repeat split; try assumption. left. split; assumption. }
    destruct (truthy (shock_time a) && truthy (shock_time b)
              && bool_decide (shock_time a = shock_time b)) eqn:E2.
    { apply andb_true_iff in E2 as [E2 E3].
      apply andb_true_iff in E2 as [E2 E2'].
      apply bool_decide_eq_true in E3.
      split; [|reflexivity]. intros _. split; [exact Hs|].
      right. repeat split; try assumption. right. left. tauto. }
    assert (N1 : ¬ (na ≠ [] ∧ na = nb)).
    { intros [H1 H2]. apply nonempty_true in H1. apply str_eqb_true in H2.
      rewrite H1, H2 in E1. discriminate. }
    assert (N2 : ¬ (truthy (shock_time a) = true ∧ truthy (shock_time b) = true
                    ∧ shock_time a = shock_time b)).
    { intros (H1 & H2 & H3).
      rewrite H1, H2, (bool_decide_eq_true_2 _ H3) in E2. discriminate. }
    destruct (nonempty na && nonempty nb) eqn:E3.
    + apply andb_true_iff in E3 as [E3 E4].
      apply nonempty_true in E3. apply nonempty_true in E4.
      rewrite andb_true_iff, Qlt_bool_true, str_eqb_true.
      split.
      * intros [H1 H2]. split; [exact Hs|]. right.
        repeat split; try assumption. right. right. tauto.
      * intros [_ [(H & _)|(_ & _ & [H|[H|H]])]]; try tauto.
    + split; [discriminate|].
      intros [_ [(H & _)|(_ & _ & [H|[H|(H1 & H2 & _)]])]]; try tauto.
      apply nonempty_true in H1. apply nonempty_true in H2.
      rewrite H1, H2 in E3. discriminate.
Qed.

(** C5, the claim as stated fails: two items of one source without event
    id and with equal normalized texts are the same event although their
    timestamps are 100 seconds apart. *)
Lemma is_same_event_ignores_time_window :
  is_same_event C5Example.first_report C5Example.second_report = true
  ∧ ¬ spec_same_event C5Example.first_report C5Example.second_report.
Proof.
  split; [vm_compute; reflexivity|].
  intros [_ [(H & _)|(_ & _ & _ & H)]].
  - apply H. reflexivity.
  - vm_compute in H. discriminate.
Qed.

(** ** Expiry of displayed warnings *)

Lemma filter_all_of_length {A} (P : A → Prop) `{!∀ x, Decision (P x)}
    (l : list A) :
  length (filter P l) = length l → filter P l = l.
Proof.
  induction l as [|x l IH]; [reflexivity|].
  rewrite filter_cons. destruct (decide (P x)); simpl; intros Hlen.
  - f_equal. apply IH. lia.
  - pose proof (length_filter P l). lia.
Qed.

(** The sweep keeps exactly the valid entries. *)
Lemma _clean_expired_warnings_buffer sv now now_tz (w : MainWindow) :
  buffer (warning_buffer (_clean_expired_warnings sv now now_tz w).2)
  = filter (λ msg, _is_warning_still_valid sv now now_tz msg = true)
      (buffer (warning_buffer w)).
Proof.
  unfold _clean_expired_warnings.
  set (P := λ msg, _is_warning_still_valid sv now now_tz msg = true).
  set (l := buffer (warning_buffer w)).
  destruct (0 <? length l - length (filter P l)) eqn:E.
  - match goal with
    | |- context [if ?c then _ else _] => destruct c
    end; simpl;
      repeat match goal with
        | |- context [match ?x with _ => _ end] => destruct x
        end; reflexivity.
  - simpl. apply Nat.ltb_ge in E. symmetry. apply filter_all_of_length.
    pose proof (length_filter P l). subst l. lia.
Qed.

(** C2.  For a message whose [first_displayed_at] is set, the validity
    predicate of the expiry sweep is true exactly when
    [now - first_displayed_at < warning_min_display_seconds], whatever its
    shock time; hence an expiry sweep keeps such a message of the warning
    buffer while that holds, and drops it in every sweep from then on. *)
Theorem displayed_warning_expiry sv now now_tz (m : MessageItem) (shown : Q) :
  first_displayed_at m = Some shown →
  let min_display := inject_Z (warning_min_display_seconds (config sv)) in
  (_is_warning_still_valid sv now now_tz m = true
   ↔ (now - shown < min_display)%Q)
  ∧ ∀ w : MainWindow,
      m ∈ buffer (warning_buffer w) →
      (m ∈ buffer (warning_buffer (_clean_expired_warnings sv now now_tz w).2)
       ↔ (now - shown < min_display)%Q).
Proof.
  intros Hshown min_display.
  assert (Hvalid : _is_warning_still_valid sv now now_tz m = true
                   ↔ (now - shown < min_display)%Q).
  { unfold _is_warning_still_valid. rewrite Hshown. apply Qlt_bool_true. }
  split; [exact Hvalid|].
  intros w Hin. rewrite _clean_expired_warnings_buffer, list_elem_of_filter.
  rewrite Hvalid. tauto.
Qed.

(** ** Fixtures for the examples *)

(** Scenario D: at second 310 the warning has been on screen for 250
    seconds and its shock time is 310 seconds old; the sweep keeps it. *)
Lemma displayed_warning_expiry_witness :
  first_displayed_at Fixture.shown_warning = Some (secs 60)
  ∧ (_is_warning_still_valid Fixture.services (secs 310) (secs 310)
       Fixture.shown_warning = true
     ↔ (secs 310 - secs 60 < inject_Z 300)%Q).
Proof.
  split; [reflexivity|].
  apply (displayed_warning_expiry Fixture.services (secs 310) (secs 310)
           Fixture.shown_warning (secs 60)).
  reflexivity.
Defined.

Example scenario_D_kept :
  buffer (warning_buffer
            (_clean_expired_warnings Fixture.services (secs 310) (secs 310)
               (Fixture.window_with [Fixture.shown_warning])).2)
  = [Fixture.shown_warning].
Proof. vm_compute. reflexivity. Qed.

Example scenario_D_dropped_at_300 :
  buffer (warning_buffer
            (_clean_expired_warnings Fixture.services (secs 360) (secs 360)
               (Fixture.window_with [Fixture.shown_warning])).2)
  = [].
Proof. vm_compute. reflexivity. Qed.

(** ** Admission of warnings *)

(** C9 (as amended).  A warning event that does not take the JMA
    cancellation path and whose shock time, read on the display-timezone
    line, is more than [warning_shock_validity_seconds] older than the
    current time is dropped by [on_message_received]: nothing is enqueued
    and no buffer changes (the whole state is unchanged). *)
Theorem stale_warning_not_admitted sv now now_tz (source_name : pystr)
    (pd : ParsedData) (w : MainWindow) (shock : Q) :
  pd_type pd = Some (cp "warning") →
  ¬ (source_name = cp "jma" ∧ pd_cancel pd = true) →
  parse_display_time sv (pd_shock_time pd) = Some shock →
  (inject_Z (warning_shock_validity_seconds (config sv)) < now_tz - shock)%Q →
  on_message_received sv now now_tz source_name pd w = w.
Proof.
  intros Htype Hcancel Hparse Hold.
  unfold on_message_received. rewrite Htype. simpl default.
  assert (Hw : str_eqb (cp "warning") (cp "warning") = true)
    by (apply str_eqb_true; reflexivity).
  rewrite Hw. simpl andb.
  destruct (str_eqb source_name (cp "jma") && pd_cancel pd) eqn:E.
  { apply andb_true_iff in E as [E1 E2]. apply str_eqb_true in E1.
    exfalso. apply Hcancel. split; assumption. }
  assert (Hinvalid : _is_warning_valid sv now_tz pd = false).
  { unfold _is_warning_valid.
    destruct (nonempty (pd_shock_time pd)) eqn:En.
    - simpl. rewrite Hparse.
      destruct (Qle_bool _ _) eqn:Eq; [|reflexivity].
      apply Qle_bool_iff in Eq. exfalso. exact (Qlt_not_le _ _ Hold Eq).
    - unfold parse_display_time in Hparse. rewrite En in Hparse.
      discriminate. }
  rewrite Hinvalid. reflexivity.
Qed.

Lemma stale_warning_not_admitted_witness :
  on_message_received Fixture.services (secs 400) (secs 400) (cp "sa")
    C9Example.stale_sa new_window = new_window.
Proof.
  apply (stale_warning_not_admitted Fixture.services (secs 400) (secs 400)
           (cp "sa") C9Example.stale_sa new_window (secs 0)).
  - reflexivity.
  - intros [H _]. vm_compute in H. discriminate.
  - vm_compute. reflexivity.
  - vm_compute. reflexivity.
Defined.

(** C9, the claim as stated fails: a JMA cancellation is a warning event,
    and with a shock time 400 seconds old (validity 300) it still removes
    the matching entry, so the warning buffer changes. *)
Lemma stale_cancel_changes_warning_buffer :
  let w := Fixture.window_with [Fixture.jma_warning] in
  let w' := on_message_received Fixture.services (secs 400) (secs 400)
              (cp "jma") C9Example.stale_jma_cancel w in
  pd_type C9Example.stale_jma_cancel = Some (cp "warning")
  ∧ parse_display_time Fixture.services
      (pd_shock_time C9Example.stale_jma_cancel) = Some (secs 0)
  ∧ (inject_Z (warning_shock_validity_seconds (config Fixture.services))
     < secs 400 - secs 0)%Q
  ∧ buffer (warning_buffer w) = [Fixture.jma_warning]
  ∧ buffer (warning_buffer w') = [].
Proof. vm_compute. repeat split; reflexivity. Qed.

(** ** Capacity overflow *)

(** C4, the code at the failing input.  The full buffer is kept in priority
    order, so its head is cenc (priority 2, arrival token 2) although usgs
    (priority 10) arrived first (token 1).  Every insertion of a new source
    removes the head: cenc, the highest-priority and newest entry, also
    when it is the entry on display; usgs, the oldest arrival, stays.  In a
    buffer that does not sort, the same code removes the oldest arrival. *)
Lemma overflow_evicts_top_priority_entry :
  let b := C4Example.full in
  buffer b = [Fixture.cenc; Fixture.usgs]
  ∧ _message_add_order b !! oid Fixture.usgs = Some 1
  ∧ _message_add_order b !! oid Fixture.cenc = Some 2
  ∧ buffer (add Fixture.emsc b) = [Fixture.usgs; Fixture.emsc]
  ∧ buffer (replace_or_add Fixture.emsc b).2
    = [Fixture.usgs; Fixture.emsc]
  ∧ buffer (replace_by_source Fixture.emsc b).2
    = [Fixture.usgs; Fixture.emsc]
  ∧ buffer (batch_replace_by_source [Fixture.emsc] b).2
    = [Fixture.usgs; Fixture.emsc]
  ∧ (get_next b).1 = Some Fixture.cenc
  ∧ buffer (batch_replace_by_source [Fixture.emsc] (get_next b).2).2
    = [Fixture.usgs; Fixture.emsc]
  ∧ buffer (add Fixture.emsc C4Example.full_fifo)
    = [Fixture.cenc; Fixture.emsc].
Proof. vm_compute. repeat split; reflexivity. Qed.

(** ** Demotion to report mode *)

(** C8, the code at the failing input.  The report buffer holds
    weatheralarm, cenc, usgs in priority order and cenc was on display when
    the warning interrupted.  On demotion the arbiter shows entry 0
    (weatheralarm) and sets [current_index] to 0, but leaves the buffer's
    [_current_displaying_msg_id] on cenc; the next [get_next] therefore
    returns usgs, the successor of cenc, and cenc, the successor of
    entry 0, is skipped: the round-robin continues where it left off
    before the warning. *)
Lemma demotion_resumes_after_interrupted_report :
  (source <$> buffer (report_buffer C8Example.demoted))
  = [cp "weatheralarm"; cp "cenc"; cp "usgs"]
  ∧ buffer (warning_buffer C8Example.demoted) = []
  ∧ current_display_type C8Example.demoted = Some report
  ∧ current_index (report_buffer C8Example.demoted) = 0
  ∧ (source <$> _current_displaying_message C8Example.demoted)
    = Some (cp "weatheralarm")
  ∧ _current_displaying_msg_id (report_buffer C8Example.demoted)
    = (oid <$> buffer (report_buffer C8Example.demoted) !! 1)
  ∧ (source <$> (get_next (report_buffer C8Example.demoted)).1)
    = Some (cp "usgs")
  ∧ C8Example.shown C8Example.after_demotion
    = [ (cp "weather alert", false); (cp "cenc report", false);
        (cp "sa warning", true); (cp "weather alert", true);
        (cp "usgs report", false) ].
Proof. vm_compute. repeat split; reflexivity. Qed.

(** ** Interruption by a warning *)

Lemma update_text_forced t c i mt st :
  update_text t c i true mt st
  = (true, mkSink true (calls st ++ [mkCall t c i true mt true])).
Proof. unfold update_text. by rewrite andb_false_r. Qed.


(** The report branch of a run leaves the sink, the warning buffer and the
    display mode alone. *)
Lemma process_reports_frame (l : list MessageItem) (h : bool)
    (w : MainWindow) :
  let w' := process_reports l h w in
  scrolling_text w' = scrolling_text w
  ∧ warning_buffer w' = warning_buffer w
  ∧ current_display_type w' = current_display_type w.
Proof.
  unfold process_reports.
  destruct (batch_replace_by_source l (report_buffer w)) as [res rb].
  set (w0 := with_report_buffer rb w).
  assert (H0 : scrolling_text w0 = scrolling_text w
               ∧ warning_buffer w0 = warning_buffer w
               ∧ current_display_type w0 = current_display_type w) by done.
  clearbody w0. revert w0 H0.
  induction (zip res l) as [|[u msg] z IH]; intros w0 H0; simpl.
  - destruct (negb h && negb (is_scrolling (scrolling_text w))); exact H0.
  - apply IH. destruct u; [|exact H0].
    destruct (_current_displaying_message w0) as [cur|]; [|exact H0].
    destruct (str_eqb (source cur) (source msg)); [|exact H0].
    destruct (find_by_source _ _); exact H0.
Qed.


(** ** Round-robin *)

Lemma length_sorted_buffer b : length (sorted_buffer b) = length (buffer b).
Proof. unfold sorted_buffer. by rewrite py_sort_perm. Qed.

Lemma _sort_by_priority_shape b :
  ∃ i, _sort_by_priority b = with_index i (with_buffer (sorted_buffer b) b).
Proof.
  unfold _sort_by_priority. fold (sorted_buffer b).
  set (b1 := with_buffer (sorted_buffer b) b).
  assert (H1 : ∀ i, with_index i b1 = with_index i b1) by done.
  assert (Hid : b1 = with_index (current_index b) b1) by done.
  repeat match goal with
    | |- context [match ?x with _ => _ end] =>
        lazymatch x with
        | context [match _ with _ => _ end] => fail
        | _ => destruct x
        end
    end; eauto.
Qed.

Lemma next_index_lt b : buffer b ≠ [] → next_index b < length (buffer b).
Proof.
  intros Hne. assert (0 < length (buffer b)) by (destruct (buffer b); simpl; [done|lia]).
  unfold next_index.
  destruct (_current_displaying_msg_id b); [|done].
  destruct (index_of_id _ _); [|done].
  apply Nat.mod_upper_bound. lia.
Qed.

(** One call of [get_next] on a priority buffer. *)
Lemma get_next_priority b :
  use_priority b = true → buffer b ≠ [] →
  ∃ m, sorted_buffer b !! next_index b = Some m
       ∧ get_next b
         = (Some m,
            with_displaying (Some (oid m))
              (with_index (next_index b) (with_buffer (sorted_buffer b) b))).
Proof.
  intros Hp Hne. pose proof (next_index_lt b Hne) as Hlt.
  destruct (lookup_lt_is_Some_2 (sorted_buffer b) (next_index b)) as [m Hm].
  { by rewrite length_sorted_buffer. }
  exists m. split; [exact Hm|].
  unfold get_next, _get_next_by_priority. rewrite Hp.
  destruct (buffer b) as [|x l] eqn:Hb; [done|].
  destruct (_sort_by_priority_shape b) as [i ->]. simpl.
  rewrite length_sorted_buffer.
  assert (Hidx : match
                   match _current_displaying_msg_id b with
                   | Some i0 => index_of_id i0 (sorted_buffer b)
                   | None => None
                   end
                 with
                 | Some i0 => (i0 + 1) `mod` length (buffer b)
                 | None => 0
                 end = next_index b).
  { unfold next_index. by destruct (_current_displaying_msg_id b). }
  rewrite Hidx.
  replace (length (buffer b) <=? next_index b) with false
    by (symmetry; apply Nat.leb_gt; rewrite Hb; exact Hlt).
  by rewrite Hm.
Qed.

Lemma index_of_id_lookup (l : list MessageItem) (s : nat) (m : MessageItem) :
  NoDup (oid <$> l) → l !! s = Some m → index_of_id (oid m) l = Some s.
Proof.
  intros Hnd Hs. unfold index_of_id.
  assert (Hf : list_find (λ x, oid x = oid m) l = Some (s, m)).
  { apply list_find_Some. split; [exact Hs|]. split; [done|].
    intros j y Hj Hlt Heq.
    assert (j = s); [|lia].
    eapply NoDup_lookup; [exact Hnd| |].
    - rewrite list_lookup_fmap, Hj. simpl. by rewrite Heq.
    - by rewrite list_lookup_fmap, Hs. }
  by rewrite Hf.
Qed.

Lemma sorted_buffer_sorted b :
  StronglySorted (key_rel key_le (sort_key (_message_add_order b)))
    (sorted_buffer b).
Proof. apply py_sort_sorted; [apply key_le_total | apply key_le_trans]. Qed.

(** The [k]-th of successive calls returns the entry [k] places after the
    first selected index, counted cyclically in the sorted buffer. *)
Lemma get_next_run_cyclic (k : nat) (b : MessageBuffer) :
  use_priority b = true → buffer b ≠ [] → NoDup (oid <$> buffer b) →
  get_next_run k b
  = (λ j, sorted_buffer b !! ((next_index b + j) `mod` length (buffer b)))
    <$> seq 0 k.
Proof.
  revert b. induction k as [|k IH]; intros b Hp Hne Hnd; [reflexivity|].
  destruct (get_next_priority b Hp Hne) as (m & Hm & Hnext).
  pose proof (next_index_lt b Hne) as Hlt.
  simpl get_next_run. rewrite Hnext.
  set (b1 := with_displaying (Some (oid m))
               (with_index (next_index b) (with_buffer (sorted_buffer b) b))).
  assert (Hs1 : sorted_buffer b1 = sorted_buffer b).
  { unfold sorted_buffer at 1. simpl.
    apply py_sort_fixed, sorted_buffer_sorted. }
  assert (Hnd1 : NoDup (oid <$> sorted_buffer b)).
  { unfold sorted_buffer. by rewrite py_sort_perm. }
  assert (Hlen1 : length (buffer b1) = length (buffer b))
    by apply length_sorted_buffer.
  assert (Hn1 : next_index b1 = (next_index b + 1) `mod` length (buffer b)).
  { unfold next_index at 1. rewrite Hs1, Hlen1. simpl.
    by rewrite (index_of_id_lookup _ _ _ Hnd1 Hm). }
  rewrite IH; [|done| |by simpl].
  2:{ simpl. intros E. rewrite E in Hm. by rewrite lookup_nil in Hm. }
  rewrite Hs1, Hlen1, Hn1.
  cbn [seq fmap list_fmap]. f_equal.
  - rewrite Nat.add_0_r, Nat.mod_small by done. by rewrite Hm.
  - rewrite <- seq_shift, <- list_fmap_compose.
    apply list_fmap_ext. intros _ j _. simpl. f_equal.
    rewrite Nat.Div0.add_mod_idemp_l. f_equal. lia.
Qed.

Lemma rotate_nat_add_mod (a j n : nat) :
  rotate_nat_add a j n = (a + j) `mod` n.
Proof.
  unfold rotate_nat_add.
  by rewrite <- Nat2Z.inj_add, <- Nat2Z.inj_mod, Nat2Z.id.
Qed.

(** C3 (as amended).  On a non-empty priority buffer whose entries are
    distinct objects, successive calls of [get_next] without other
    operations walk the buffer in cyclic priority order: the buffer sorted
    by (source priority, insertion order) is non-decreasing and a
    permutation of the entries; the first call returns the entry after the
    one on display (located by identity in the sorted buffer), or entry 0
    when that entry is last or cannot be located; the [k]-th later call
    returns the entry [k] places further on, wrapping to index 0; hence
    [length] successive calls return the sorted buffer rotated to the
    first selected index -- every entry exactly once before any repeats --
    and they return it in non-decreasing order when the run starts at
    index 0. *)
Theorem get_next_round_robin (b : MessageBuffer) :
  use_priority b = true → buffer b ≠ [] → NoDup (oid <$> buffer b) →
  let sorted := sorted_buffer b in
  let n := length (buffer b) in
  StronglySorted (key_rel key_le (sort_key (_message_add_order b))) sorted
  ∧ sorted ≡ₚ buffer b
  ∧ (∀ i k, _current_displaying_msg_id b = Some i →
            index_of_id i sorted = Some k → next_index b = (k + 1) `mod` n)
  ∧ (_current_displaying_msg_id b = None → next_index b = 0)
  ∧ (∀ i, _current_displaying_msg_id b = Some i →
          index_of_id i sorted = None → next_index b = 0)
  ∧ (∀ k, get_next_run k b
          = (λ j, sorted !! ((next_index b + j) `mod` n)) <$> seq 0 k)
  ∧ get_next_run n b = Some <$> rotate (next_index b) sorted
  ∧ (next_index b = 0 → get_next_run n b = Some <$> sorted)
  ∧ (∀ k, get_next_run (S (k + n)) b !! (k + n) = get_next_run (S k) b !! k).
Proof.
  intros Hp Hne Hnd sorted n.
  assert (Hperm : sorted ≡ₚ buffer b) by apply py_sort_perm.
  assert (Hlen : length sorted = n) by apply length_sorted_buffer.
  assert (Hrun := λ k, get_next_run_cyclic k b Hp Hne Hnd).
  fold sorted n in Hrun.
  assert (Hrot : get_next_run n b = Some <$> rotate (next_index b) sorted).
  { rewrite Hrun. apply list_eq. intros j.
    rewrite !list_lookup_fmap.
    destruct (decide (j < n)) as [Hj|Hj].
    - rewrite lookup_seq_lt by done. simpl.
      rewrite lookup_rotate_r by lia.
      rewrite Hlen, rotate_nat_add_mod.
      destruct (lookup_lt_is_Some_2 sorted ((next_index b + j) `mod` n))
        as [x Hx].
      { rewrite Hlen. apply Nat.mod_upper_bound. lia. }
      by rewrite Hx.
    - rewrite lookup_seq_ge by lia. simpl.
      rewrite (lookup_ge_None_2 (rotate _ _)); [done|].
      rewrite length_rotate. lia. }
  split; [apply sorted_buffer_sorted|]. split; [exact Hperm|].
  split.
  { intros i k Hi Hk. unfold next_index. fold sorted. by rewrite Hi, Hk. }
  split.
  { intros Hi. unfold next_index. by rewrite Hi. }
  split.
  { intros i Hi Hk. unfold next_index. fold sorted. by rewrite Hi, Hk. }
  split; [exact Hrun|]. split; [exact Hrot|]. split.
  { intros H0. rewrite Hrot, H0. unfold rotate.
    rewrite Nat.Div0.mod_0_l. simpl. by rewrite app_nil_r. }
  intros k. rewrite !Hrun, !list_lookup_fmap.
  rewrite !lookup_seq_lt by lia. simpl. do 2 f_equal.
  replace (next_index b + (k + n)) with (next_index b + k + 1 * n) by lia.
  apply Nat.Div0.mod_add.
Qed.

Example scenario_B :
  get_next_run 3 Fixture.loaded
  = [Some Fixture.weatheralarm; Some Fixture.cenc; Some Fixture.usgs].
Proof. vm_compute. reflexivity. Qed.

Lemma get_next_round_robin_witness :
  get_next_run 3 C3Example.weather_on_display
  = Some <$> rotate (next_index C3Example.weather_on_display)
               (sorted_buffer C3Example.weather_on_display).
Proof.
  apply (get_next_round_robin C3Example.weather_on_display).
  - reflexivity.
  - vm_compute. discriminate.
  - apply (bool_decide_unpack _). vm_compute. reflexivity.
Defined.

(** C3, the claim as stated fails: with weatheralarm (priority 1) on
    display, three calls return cenc (2), usgs (10), weatheralarm (1): every
    entry once, but the keys do not stay non-decreasing. *)
Lemma get_next_run_wraps_inside_a_cycle :
  let b := C3Example.weather_on_display in
  let key := sort_key (_message_add_order b) in
  use_priority b = true
  ∧ buffer b = [Fixture.weatheralarm; Fixture.cenc; Fixture.usgs]
  ∧ get_next_run 3 b
    = [Some Fixture.cenc; Some Fixture.usgs; Some Fixture.weatheralarm]
  ∧ key Fixture.usgs = (10, Some 1)
  ∧ key Fixture.weatheralarm = (1, Some 3)
  ∧ key_le (key Fixture.usgs) (key Fixture.weatheralarm) = false.
Proof. vm_compute. repeat split; reflexivity. Qed.

(** ** Cancellation *)

(** A call of [get_next] permutes the buffer at most, and what it returns
    is an entry of the buffer. *)
Lemma get_next_result (b : MessageBuffer) :
  buffer (get_next b).2 ≡ₚ buffer b
  ∧ ∀ m, (get_next b).1 = Some m → m ∈ buffer b.
Proof.
  unfold get_next. destruct (buffer b) as [|x l] eqn:Hb.
  { simpl. rewrite Hb. split; [done|]. intros m [=]. }
  destruct (use_priority b).
  - unfold _get_next_by_priority. rewrite Hb.
    destruct (_sort_by_priority_shape b) as [i ->]. simpl.
    assert (Hperm : sorted_buffer b ≡ₚ x :: l).
    { rewrite <- Hb. apply py_sort_perm. }
    match goal with
    | |- context [sorted_buffer b !! ?i] =>
        destruct (sorted_buffer b !! i) as [msg|] eqn:E
    end; simpl; (split; [exact Hperm|]); intros m [=]. subst msg.
    rewrite <- Hperm. by eapply list_elem_of_lookup_2.
  - simpl. rewrite Hb.
    match goal with
    | |- context [(x :: l) !! ?i] => destruct ((x :: l) !! i) as [msg|] eqn:E
    end; simpl; rewrite Hb; (split; [done|]); intros m [=]. subst msg.
    by eapply list_elem_of_lookup_2.
Qed.

Lemma get_next_run_elems (k : nat) (b : MessageBuffer) (m : MessageItem) :
  Some m ∈ get_next_run k b → m ∈ buffer b.
Proof.
  revert b. induction k as [|k IH]; intros b; simpl.
  - by intros ?%elem_of_nil.
  - destruct (get_next_result b) as [Hperm Hres].
    destruct (get_next b) as [r b']. simpl in *.
    intros [Heq|Hin]%elem_of_cons.
    + by apply Hres.
    + rewrite <- Hperm. by apply IH.
Qed.

Lemma _show_cancellation_notice_shape sv s c (w : MainWindow) :
  _show_cancellation_notice sv s c w
  = with_display_type (Some warning)
      (with_pending None
         (with_current None
            (with_scrolling_text
               (mkSink true
                  (calls (scrolling_text w)
                   ++ [mkCall (cancellation_notice_text s c)
                         (warning_color (config sv)) None true (cp "warning")
                         true])) w))).
Proof. unfold _show_cancellation_notice. by rewrite update_text_forced. Qed.

(** While a scroll is in progress the demotion is a no-op. *)
Lemma demote_if_reports_scrolling (w : MainWindow) :
  current_display_type w = Some warning →
  is_scrolling (scrolling_text w) = true →
  demote_if_reports w = w.
Proof.
  intros Hd Hs. unfold demote_if_reports, _switch_to_report_mode.
  rewrite Hd, Hs. simpl.
  destruct (0 <? size (report_buffer w)); simpl; [|done].
  by destruct (_switching_to_report w).
Qed.

Lemma span_len_until (c : N) (p rest : pystr) :
  c ∉ p → span_len (λ x, negb (x =? c)%N) (p ++ c :: rest) = length p.
Proof.
  induction p as [|y p IH]; simpl; intros Hc.
  - by rewrite N.eqb_refl.
  - apply not_elem_of_cons in Hc as [Hy Hp].
    destruct (N.eqb_spec y c); [congruence|]. simpl. by rewrite IH.
Qed.

(** The notice opens with the bracketed organization prefix of the
    cancelled message. *)
Lemma cancellation_notice_prefix (s : pystr) (m : MessageItem)
    (p rest : pystr) :
  text m = p ++ 12305%N :: rest → 12305%N ∉ p →
  cancellation_notice_text s (Some m)
  = p ++ [12305%N]
    ++ [25910; 21040; 21462; 28040; 25253; 65292; 25764; 22238;
        24403; 21069; 39044; 35686; 20449; 24687]%N.
Proof.
  intros Ht Hp. unfold cancellation_notice_text. rewrite Ht.
  rewrite span_len_until by done. rewrite take_app_length.
  replace (nonempty (p ++ 12305%N :: rest)) with true
    by (by destruct p).
  rewrite bool_decide_eq_true_2 by (apply elem_of_app; right; by left).
  simpl andb. cbv iota.
  replace (nonempty (p ++ [12305%N])) with true by (by destruct p).
  by rewrite <- app_assoc.
Qed.

(** The cancellation itself.  When [on_message_received] gets a
    cancel-flagged warning event under the source name "jma" with a
    non-empty event id while the displayed message has that source and
    event id: every entry
    of the warning buffer with that source and event id is removed and
    nothing is inserted anywhere (queue and report buffer are untouched);
    exactly one [update_text] call is made, forced and accepted, with the
    cancellation notice, which opens with the organization prefix of the
    cancelled message; and as long as nothing is inserted, no later
    [get_next] on the warning buffer returns an entry with that source and
    event id.  The message queue is not searched: see
    [C7Example.update_queued]. *)
Theorem jma_cancellation_removes_and_notifies sv now now_tz
    (pd : ParsedData) (w : MainWindow) (cur : MessageItem) :
  pd_type pd = Some (cp "warning") →
  pd_cancel pd = true →
  pd_event_id pd ≠ [] →
  _current_displaying_message w = Some cur →
  source cur = cp "jma" →
  event_id cur = pd_event_id pd →
  let cancelled (m : MessageItem) :=
    source m = cp "jma" ∧ event_id m = pd_event_id pd in
  let w' := on_message_received sv now now_tz (cp "jma") pd w in
  buffer (warning_buffer w')
  ≡ₚ filter (λ m, ¬ cancelled m) (buffer (warning_buffer w))
  ∧ message_queue w' = message_queue w
  ∧ report_buffer w' = report_buffer w
  ∧ calls (scrolling_text w')
    = calls (scrolling_text w)
      ++ [mkCall (cancellation_notice_text (cp "jma") (Some cur))
            (warning_color (config sv)) None true (cp "warning") true]
  ∧ (∀ p rest, text cur = p ++ 12305%N :: rest → 12305%N ∉ p →
       cancellation_notice_text (cp "jma") (Some cur)
       = p ++ [12305%N]
         ++ [25910; 21040; 21462; 28040; 25253; 65292; 25764; 22238;
             24403; 21069; 39044; 35686; 20449; 24687]%N)
  ∧ ∀ k m, Some m ∈ get_next_run k (warning_buffer w') → ¬ cancelled m.
Proof.
  intros Hty Hc He Hcur Hsrc Hev cancelled w'.
  set (kept := filter (λ m, ¬ cancelled m) (buffer (warning_buffer w))).
  assert (Hmain :
    buffer (warning_buffer w') ≡ₚ kept
    ∧ message_queue w' = message_queue w
    ∧ report_buffer w' = report_buffer w
    ∧ calls (scrolling_text w')
      = calls (scrolling_text w)
        ++ [mkCall (cancellation_notice_text (cp "jma") (Some cur))
              (warning_color (config sv)) None true (cp "warning") true]).
  { subst w'. unfold on_message_received.
    rewrite Hty, Hc, Hcur, Hsrc, Hev. simpl default.
    rewrite !(proj2 (str_eqb_true _ _) eq_refl).
    rewrite (proj2 (nonempty_true _) He). simpl andb. cbv iota.
    rewrite _show_cancellation_notice_shape.
    set (w1 := with_display_type _ _).
    assert (Hb1 : buffer (warning_buffer w1) = kept).
    { subst w1. simpl. by destruct (_ <=? _). }
    assert (Hq1 : message_queue w1 = message_queue w) by done.
    assert (Hr1 : report_buffer w1 = report_buffer w) by done.
    assert (Hc1 : calls (scrolling_text w1)
                  = calls (scrolling_text w)
                    ++ [mkCall (cancellation_notice_text (cp "jma") (Some cur))
                          (warning_color (config sv)) None true (cp "warning")
                          true]).
    { subst w1. simpl. by rewrite Hcur. }
    assert (Hd1 : current_display_type w1 = Some warning) by done.
    assert (Hs1 : is_scrolling (scrolling_text w1) = true) by done.
    clearbody w1.
    destruct (size (warning_buffer w1) =? 0).
    - rewrite demote_if_reports_scrolling by done. by rewrite Hb1.
    - destruct (get_next_result (warning_buffer w1)) as [Hperm _].
      destruct (get_next (warning_buffer w1)) as [nm wb'].
      simpl in Hperm. rewrite Hb1 in Hperm.
      assert (Hs2 : is_scrolling (scrolling_text (with_warning_buffer wb' w1))
                    = true) by exact Hs1.
      destruct nm; rewrite ?Hs2; simpl; by rewrite Hperm. }
  destruct Hmain as (Hbuf & Hq & Hr & Hcalls).
  repeat split; try assumption.
  - intros p rest. apply cancellation_notice_prefix.
  - intros k m Hin%get_next_run_elems.
    rewrite Hbuf in Hin. unfold kept in Hin.
    by apply list_elem_of_filter in Hin as [Hn _].
Qed.

Lemma jma_cancellation_removes_and_notifies_witness :
  buffer (warning_buffer
            (on_message_received Fixture.services (secs 100) (secs 100)
               (cp "jma") C7Example.cancel_E7 C7Example.jma_displayed))
  ≡ₚ [].
Proof.
  apply (jma_cancellation_removes_and_notifies Fixture.services (secs 100)
           (secs 100) C7Example.cancel_E7 C7Example.jma_displayed
           Fixture.jma_warning).
  - reflexivity.
  - reflexivity.
  - vm_compute. discriminate.
  - reflexivity.
  - reflexivity.
  - reflexivity.
Defined.

(** C7, the code at the failing input.  A JMA warning of the event "E7" is
    on display and in the warning buffer, and the next report of the same
    event waits in the message queue when the cancellation arrives.  The
    cancellation empties the warning buffer and shows the notice, forced,
    but leaves the queued report where it is; the next run of
    [process_messages] inserts it into the warning buffer, [get_next]
    returns an entry of the cancelled (source, event id) pair, and when the
    scroll of the notice completes the cancelled event is displayed
    again. *)
Lemma cancelled_event_returns_from_the_queue :
  let jma_E7 := (cp "jma", cp "E7") in
  (* before the cancellation *)
  C7Example.identity <$> _current_displaying_message C7Example.update_queued
  = Some jma_E7
  ∧ C7Example.identity <$> buffer (warning_buffer C7Example.update_queued)
    = [jma_E7]
  ∧ C7Example.identity <$> message_queue C7Example.update_queued = [jma_E7]
  ∧ pd_cancel C7Example.cancel_E7 = true
  ∧ (pd_source_type C7Example.cancel_E7, pd_event_id C7Example.cancel_E7)
    = jma_E7
  (* the cancellation *)
  ∧ buffer (warning_buffer C7Example.cancelled) = []
  ∧ C7Example.identity <$> message_queue C7Example.cancelled = [jma_E7]
  ∧ C7Example.shown_texts C7Example.cancelled
    = [(cp "jma warning", true);
       (cancellation_notice_text (cp "jma")
          (_current_displaying_message C7Example.update_queued), true)]
  (* the queued report comes back *)
  ∧ C7Example.identity <$> buffer (warning_buffer C7Example.reprocessed)
    = [jma_E7]
  ∧ C7Example.identity <$> (get_next (warning_buffer C7Example.reprocessed)).1
    = Some jma_E7
  ∧ C7Example.shown_texts C7Example.after_notice
    = C7Example.shown_texts C7Example.cancelled
      ++ [(cp "jma warning, report 2", false)]
  ∧ C7Example.identity <$> _current_displaying_message C7Example.after_notice
    = Some jma_E7.
Proof. vm_compute. repeat split; reflexivity. Qed.

(** ** One entry per source *)

Lemma NoDup_fmap_eq {A B} (f : A → B) (l : list A) (x y : A) :
  NoDup (f <$> l) → x ∈ l → y ∈ l → f x = f y → x = y.
Proof.
  intros Hnd [i Hi]%list_elem_of_lookup [j Hj]%list_elem_of_lookup Heq.
  assert (i = j) as ->.
  { eapply NoDup_lookup; [exact Hnd| |]; rewrite list_lookup_fmap.
    - by rewrite Hi.
    - rewrite Hj. simpl. by rewrite Heq. }
  congruence.
Qed.

Lemma elem_of_insert_inv {A} (l : list A) (i : nat) (x y : A) :
  y ∈ <[i:=x]> l → y = x ∨ y ∈ l.
Proof.
  intros [j Hj]%list_elem_of_lookup.
  apply list_lookup_insert_Some in Hj as [(_ & Heq & _)|(_ & Hj)].
  - by left.
  - right. by eapply list_elem_of_lookup_2.
Qed.


Lemma fmap_insert_same {A B} (f : A → B) (l : list A) (i : nat) (e x : A) :
  l !! i = Some e → f x = f e → f <$> <[i:=x]> l = f <$> l.
Proof.
  intros Hi Hf. rewrite list_fmap_insert. apply list_insert_id.
  by rewrite list_lookup_fmap, Hi, Hf.
Qed.

Lemma keep_image_fields (e m : MessageItem) :
  oid (keep_image e m) = oid m ∧ source (keep_image e m) = source m.
Proof. unfold keep_image. by destruct (_ && _). Qed.

Lemma make_room_spec (b : MessageBuffer) :
  max_size (make_room b) = max_size b
  ∧ use_priority (make_room b) = use_priority b
  ∧ _add_order_counter (make_room b) = _add_order_counter b
  ∧ ((buffer (make_room b) = buffer b
      ∧ _message_add_order (make_room b) = _message_add_order b
      ∧ (length (buffer b) < max_size b ∨ buffer b = []))
     ∨ (∃ x, buffer b = x :: buffer (make_room b)
             ∧ max_size b ≤ length (buffer b)
             ∧ _message_add_order (make_room b)
               = delete (oid x) (_message_add_order b))).
Proof.
  unfold make_room.
  destruct (Nat.leb_spec (max_size b) (length (buffer b))); [|by auto 10].
  destruct (buffer b) as [|x l] eqn:Hb; [by auto 10|].
  destruct (0 <? _); simpl; repeat split; right; exists x; done.
Qed.


Lemma make_room_subset (b : MessageBuffer) (m : MessageItem) :
  m ∈ buffer (make_room b) → m ∈ buffer b.
Proof.
  destruct (make_room_spec b) as (_ & _ & _ & [(Hb & _)|(x & Hb & _)]);
    rewrite Hb; [done|]. by right.
Qed.


Lemma carry_order_buffer (e m : MessageItem) (b : MessageBuffer) :
  buffer (carry_order e m b) = buffer b.
Proof. unfold carry_order. by destruct (_message_add_order b !! oid e). Qed.


Lemma carry_order_frame (e m : MessageItem) (b : MessageBuffer) :
  max_size (carry_order e m b) = max_size b
  ∧ use_priority (carry_order e m b) = use_priority b.
Proof. unfold carry_order. by destruct (_message_add_order b !! oid e). Qed.





(** The first loop keeps one message per source. *)
Lemma keep_latest_spec (acc : list MessageItem) (m : MessageItem) :
  NoDup (source <$> acc) →
  NoDup (source <$> keep_latest acc m)
  ∧ ∀ x, x ∈ keep_latest acc m → x = m ∨ x ∈ acc.
Proof.
  intros Hnd. unfold keep_latest.
  destruct (list_find _ _) as [[i e]|] eqn:E.
  - apply list_find_Some in E as (Hi & Hsrc & _).
    destruct (Qlt_bool _ _); [|by auto].
    split; [by rewrite (fmap_insert_same source _ _ e)|].
    apply elem_of_insert_inv.
  - apply list_find_None in E. split.
    + rewrite fmap_app. apply list.NoDup_app. split; [done|]. split.
      * intros s (x & -> & Hx)%list_elem_of_fmap Hs%list_elem_of_singleton.
        by apply (proj1 (list.Forall_forall _ _) E x).
      * apply list.NoDup_singleton.
    + intros x [Hx|Hx%list_elem_of_singleton]%elem_of_app; auto.
Qed.

Lemma latest_per_source_spec (msgs : list MessageItem) :
  NoDup (source <$> latest_per_source msgs)
  ∧ ∀ x, x ∈ latest_per_source msgs → x ∈ msgs.
Proof.
  unfold latest_per_source.
  assert (H : ∀ acc, NoDup (source <$> acc) →
            NoDup (source <$> foldl keep_latest acc msgs)
            ∧ ∀ x, x ∈ foldl keep_latest acc msgs → x ∈ acc ∨ x ∈ msgs).
  { induction msgs as [|m msgs IH]; intros acc Hacc; simpl; [by auto|].
    destruct (keep_latest_spec acc m Hacc) as [Hnd Hsub].
    destruct (IH _ Hnd) as [Hnd' Hsub']. split; [done|].
    intros x [[->|Hx]%Hsub|Hx]%Hsub'.
    - right. by left.
    - by left.
    - right. by right. }
  destruct (H [] (NoDup_nil_2)) as [Hnd Hsub]. split; [done|].
  intros x [Hx%elem_of_nil|Hx]%Hsub; done.
Qed.


Lemma batch_replace_by_source_buffer (msgs : list MessageItem)
    (b : MessageBuffer) :
  (batch_replace_by_source msgs b).2
  = sort_if_priority
      (foldl batch_step_by_source ([], b) (latest_per_source msgs)).2.
Proof.
  unfold batch_replace_by_source. by destruct (foldl _ _ _).
Qed.








(** A second report of cenc replaces the first at its index and keeps its
    token. *)
Example cenc_update_in_place :
  let update := Fixture.msg 9 "report" "cenc" "C2" "cenc update" (secs 9) in
  let r := batch_replace_by_source [update] Fixture.loaded in
  buffer Fixture.loaded
  = [Fixture.weatheralarm; Fixture.cenc; Fixture.usgs]
  ∧ r.1 = [true]
  ∧ buffer r.2 = [Fixture.weatheralarm; update; Fixture.usgs]
  ∧ _message_add_order r.2 !! 9 = Some 2
  ∧ _message_add_order Fixture.loaded !! oid Fixture.cenc = Some 2.
Proof. vm_compute. repeat split; reflexivity. Qed.

(** ** Image path of a replaced weather alert *)

Section OtherSources.
Context (s : pystr) (e : MessageItem).

(** A turn of the loop for a message of another source leaves the entry of
    source [s] alone, unless the capacity check removes it. *)
Lemma batch_step_other (res : list bool) (b : MessageBuffer)
    (m : MessageItem) :
  source m ≠ s → source e = s → NoDup (source <$> buffer b) →
  let st := batch_step_by_source (res, b) m in
  NoDup (source <$> buffer st.2)
  ∧ max_size st.2 = max_size b
  ∧ length (buffer st.2) ≤ S (length (buffer b))
  ∧ (only_entry s e (buffer b) → only_entry s e (buffer st.2))
  ∧ (length (buffer b) < max_size b → e ∈ buffer b → e ∈ buffer st.2).
Proof.
  intros Hm He Hnd. unfold batch_step_by_source.
  destruct (list_find _ _) as [[i e']|] eqn:E; simpl.
  - apply list_find_Some in E as (Hi & Hsrc & _).
    destruct (keep_image_fields e' m) as [_ Hs'].
    destruct (carry_order_frame e' m b) as [Hmax _].
    rewrite carry_order_buffer.
    split; [by rewrite (fmap_insert_same source _ _ e'); [| |congruence]|].
    split; [done|]. split; [rewrite length_insert; lia|]. split.
    + intros Honly x [->|Hx]%elem_of_insert_inv Hxs; [congruence|].
      by apply Honly.
    + intros _ [j Hj]%list_elem_of_lookup.
      apply list_elem_of_lookup. exists j.
      rewrite list_lookup_insert_ne; [done|].
      intros <-. congruence.
  - apply list_find_None in E.
    destruct (make_room_spec b) as (Hmax & _ & _ & Hcases).
    assert (Hsub : buffer (make_room b) `sublist_of` buffer b).
    { destruct Hcases as [(-> & _)|(x & Hx & _)]; [done|].
      rewrite Hx. by apply sublist_cons. }
    split; [|split; [done|split; [|split]]].
    + rewrite fmap_app. apply list.NoDup_app. split.
      { eapply sublist_NoDup; [exact Hnd|]. by apply fmap_sublist. }
      split; [|apply list.NoDup_singleton].
      intros y (x & -> & Hx%make_room_subset)%list_elem_of_fmap
        Hy%list_elem_of_singleton.
      by apply (proj1 (list.Forall_forall _ _) E x).
    + rewrite length_app. simpl.
      apply sublist_length in Hsub. lia.
    + intros Honly x [Hx%make_room_subset|Hx%list_elem_of_singleton]%elem_of_app
        Hxs; [by apply Honly|congruence].
    + intros Hroom Hin. apply elem_of_app. left.
      destruct Hcases as [(-> & _)|(x & _ & Hfull & _)]; [done|lia].
Qed.

Lemma batch_fold_other (ms : list MessageItem) (res : list bool)
    (b : MessageBuffer) :
  Forall (λ m, source m ≠ s) ms → source e = s →
  NoDup (source <$> buffer b) →
  let st := foldl batch_step_by_source (res, b) ms in
  NoDup (source <$> buffer st.2)
  ∧ max_size st.2 = max_size b
  ∧ length (buffer st.2) ≤ length (buffer b) + length ms
  ∧ (only_entry s e (buffer b) → only_entry s e (buffer st.2))
  ∧ (length (buffer b) + length ms ≤ max_size b →
     e ∈ buffer b → e ∈ buffer st.2).
Proof.
  intros Hall He. revert res b.
  induction Hall as [|m ms Hm Hall IH]; intros res b Hnd.
  { simpl. repeat split; auto. lia. }
  destruct (batch_step_other res b m Hm He Hnd)
    as (Hnd1 & Hmax1 & Hlen1 & Honly1 & Hin1).
  cbn [foldl]. destruct (batch_step_by_source (res, b) m) as [res1 b1].
  simpl in *.
  destruct (IH res1 b1 Hnd1) as (Hnd2 & Hmax2 & Hlen2 & Honly2 & Hin2).
  split; [done|]. split; [congruence|]. split; [lia|]. split; [by auto|].
  intros Hroom Hin. apply Hin2; [lia|]. apply Hin1; [lia|done].
Qed.
End OtherSources.

Lemma length_latest_per_source (msgs : list MessageItem) :
  length (latest_per_source msgs) ≤ length msgs.
Proof.
  unfold latest_per_source.
  assert (H : ∀ acc, length (foldl keep_latest acc msgs)
                     ≤ length acc + length msgs).
  { induction msgs as [|m msgs IH]; intros acc; simpl; [lia|].
    etrans; [apply IH|].
    assert (length (keep_latest acc m) ≤ S (length acc)); [|lia].
    unfold keep_latest. destruct (list_find _ _) as [[i x]|].
    - destruct (Qlt_bool _ _); rewrite ?length_insert; lia.
    - rewrite length_app. simpl. lia. }
  apply (H []).
Qed.

Lemma keep_image_cases (existing message : MessageItem) :
  let carried :=
    message_type message = cp "weather"
    ∧ truthy (image_path message) = false
    ∧ truthy (image_path existing) = true in
  (carried →
   keep_image existing message
   = set_image_path (image_path existing) message)
  ∧ (¬ carried → keep_image existing message = message).
Proof.
  intros carried. unfold keep_image. split.
  - intros (H1 & H2 & H3).
    by rewrite (proj2 (str_eqb_true _ _) H1), H2, H3.
  - intros Hn.
    destruct (str_eqb (message_type message) (cp "weather")) eqn:E1;
      [apply str_eqb_true in E1|done].
    destruct (truthy (image_path message)) eqn:E2; [done|].
    destruct (truthy (image_path existing)) eqn:E3; [|done].
    by destruct Hn.
Qed.

(** C10.  In a call of [batch_replace_by_source], whenever the scan for
    an incoming message finds an entry of its source, the entry stored at
    that index is the incoming message, except that a message of type
    'weather' without image path takes the image path of the entry it
    replaces when that entry has one; no other field changes, and nothing
    is carried over for another type or when the message has an image
    path.  Field by field: with the carry-over the stored image path is the
    replaced entry's, is not empty and differs from the incoming one;
    without it the stored image path is the incoming one; the identity,
    text, colour, timestamp, type, source, event id, shock time, parsed
    data and first display time are always the incoming message's.  For a call that does not overflow the buffer, whose buffer holds
    one entry per source, the stored message is the only entry of its
    source in the resulting buffer. *)
Theorem weather_image_path_carried_over (messages : list MessageItem)
    (b : MessageBuffer) (message existing : MessageItem) :
  let carried :=
    message_type message = cp "weather"
    ∧ truthy (image_path message) = false
    ∧ truthy (image_path existing) = true in
  ∃ stored : MessageItem,
    (carried → stored = set_image_path (image_path existing) message)
    ∧ (¬ carried → stored = message)
    ∧ (carried →
       image_path stored = image_path existing
       ∧ truthy (image_path stored) = true
       ∧ image_path stored ≠ image_path message)
    ∧ (¬ carried → image_path stored = image_path message)
    ∧ oid stored = oid message
    ∧ text stored = text message
    ∧ color stored = color message
    ∧ timestamp stored = timestamp message
    ∧ message_type stored = message_type message
    ∧ source stored = source message
    ∧ event_id stored = event_id message
    ∧ shock_time stored = shock_time message
    ∧ parsed_data stored = parsed_data message
    ∧ first_displayed_at stored = first_displayed_at message
    ∧ (∀ (res : list bool) (b0 : MessageBuffer) (i : nat),
         list_find (λ e, source message = source e) (buffer b0)
         = Some (i, existing) →
         let st := batch_step_by_source (res, b0) message in
         st.1 = res ++ [true]
         ∧ buffer st.2 = <[i := stored]> (buffer b0))
    ∧ (NoDup (source <$> buffer b) →
       length (buffer b) + length messages ≤ max_size b →
       message ∈ latest_per_source messages →
       existing ∈ buffer b → source existing = source message →
       let b' := (batch_replace_by_source messages b).2 in
       stored ∈ buffer b'
       ∧ ∀ x, x ∈ buffer b' → source x = source message → x = stored).
Proof.
  intros carried. exists (keep_image existing message).
  destruct (keep_image_cases existing message) as [Hc Hn].
  split; [exact Hc|]. split; [exact Hn|].
  split.
  { intros H. rewrite (Hc H). destruct H as (_ & H2 & H3).
    cbn [image_path set_image_path]. split; [done|]. split; [done|].
    intros Heq. rewrite Heq in H3. congruence. }
  split; [intros H; by rewrite (Hn H)|].
  assert (Hfields :
    oid (keep_image existing message) = oid message
    ∧ text (keep_image existing message) = text message
    ∧ color (keep_image existing message) = color message
    ∧ timestamp (keep_image existing message) = timestamp message
    ∧ message_type (keep_image existing message) = message_type message
    ∧ source (keep_image existing message) = source message
    ∧ event_id (keep_image existing message) = event_id message
    ∧ shock_time (keep_image existing message) = shock_time message
    ∧ parsed_data (keep_image existing message) = parsed_data message
    ∧ first_displayed_at (keep_image existing message)
      = first_displayed_at message).
  { unfold keep_image. destruct (str_eqb _ _ && _ && _); repeat split. }
  destruct Hfields as (F1 & F2 & F3 & F4 & F5 & F6 & F7 & F8 & F9 & F10).
  do 10 (split; [assumption|]).
  split.
  { intros res b0 i Hfind. unfold batch_step_by_source. rewrite Hfind.
    simpl. by rewrite carry_order_buffer. }
  intros Hnd Hroom Hin Hex Hsrc.
  set (stored := keep_image existing message).
  destruct (latest_per_source_spec messages) as [Hnd_u _].
  pose proof (length_latest_per_source messages) as Hlen_u.
  apply list_elem_of_split in Hin as (u1 & u2 & Hu).
  rewrite Hu in Hnd_u, Hlen_u.
  rewrite fmap_app, fmap_cons in Hnd_u.
  apply list.NoDup_app in Hnd_u as (_ & Hu1 & Hu2).
  apply list.NoDup_cons in Hu2 as [Hu2 _].
  rewrite length_app in Hlen_u. simpl in Hlen_u.
  assert (Hall1 : Forall (λ m, source m ≠ source message) u1).
  { apply list.Forall_forall. intros m Hm Heq.
    apply (Hu1 (source m)); [by apply list_elem_of_fmap_2|].
    rewrite Heq. by left. }
  assert (Hall2 : Forall (λ m, source m ≠ source message) u2).
  { apply list.Forall_forall. intros m Hm Heq.
    apply Hu2. rewrite <- Heq.
    by apply list_elem_of_fmap_2. }
  assert (Honly : only_entry (source message) existing (buffer b)).
  { intros x Hx Hxs. apply (NoDup_fmap_eq source (buffer b)); try done.
    congruence. }
  (* the turns before the message *)
  destruct (batch_fold_other (source message) existing u1 [] b Hall1 Hsrc Hnd)
    as (Hnd1 & Hmax1 & Hlen1 & Honly1 & Hin1).
  destruct (foldl batch_step_by_source ([], b) u1) as [res1 b1] eqn:Hfold1.
  simpl in Hnd1, Hmax1, Hlen1, Honly1, Hin1.
  specialize (Honly1 Honly). specialize (Hin1 ltac:(lia) Hex).
  (* the turn of the message *)
  apply list_elem_of_lookup in Hin1 as [i Hi].
  assert (Hfind : list_find (λ e, source message = source e) (buffer b1)
                  = Some (i, existing)).
  { apply list_find_Some. split; [done|]. split; [done|].
    intros j y Hj Hlt Heq. assert (j = i); [|lia].
    eapply NoDup_lookup; [exact Hnd1| |]; rewrite list_lookup_fmap.
    - by rewrite Hj.
    - rewrite Hi. simpl. congruence. }
  set (st2 := batch_step_by_source (res1, b1) message).
  assert (Hb2 : buffer st2.2 = <[i := stored]> (buffer b1)
                ∧ max_size st2.2 = max_size b1).
  { unfold st2, batch_step_by_source. rewrite Hfind. simpl.
    rewrite carry_order_buffer. split; [done|].
    apply carry_order_frame. }
  destruct Hb2 as [Hb2 Hmax2].
  destruct (keep_image_fields existing message) as [_ Hsrc_stored].
  fold stored in Hsrc_stored.
  assert (Hnd2 : NoDup (source <$> buffer st2.2)).
  { rewrite Hb2, (fmap_insert_same source _ _ existing); [done..|congruence]. }
  assert (Honly2 : only_entry (source message) stored (buffer st2.2)).
  { intros x [j Hj]%list_elem_of_lookup Hxs. rewrite Hb2 in Hj.
    apply list_lookup_insert_Some in Hj as [(_ & <- & _)|(Hne & Hj)]; [done|].
    exfalso. apply Hne.
    eapply NoDup_lookup; [exact Hnd1| |]; rewrite list_lookup_fmap.
    - by rewrite Hi.
    - rewrite Hj. simpl. congruence. }
  assert (Hin2 : stored ∈ buffer st2.2).
  { rewrite Hb2. apply list_elem_of_insert. by eapply lookup_lt_Some. }
  assert (Hlen2 : length (buffer st2.2) = length (buffer b1))
    by by rewrite Hb2, length_insert.
  (* the turns after the message *)
  destruct (batch_fold_other (source message) stored u2 st2.1 st2.2 Hall2 Hsrc_stored Hnd2)
    as (_ & _ & _ & Honly3 & Hin3).
  specialize (Honly3 Honly2). specialize (Hin3 ltac:(lia) Hin2).
  (* the sort *)
  cbv zeta. rewrite batch_replace_by_source_buffer, Hu, foldl_app, Hfold1.
  cbn [foldl]. fold st2. rewrite <- surjective_pairing in Honly3, Hin3.
  set (b3 := (foldl batch_step_by_source st2 u2).2) in *.
  assert (Hperm : buffer (sort_if_priority b3) ≡ₚ buffer b3).
  { unfold sort_if_priority. destruct (use_priority b3); [|done].
    destruct (_sort_by_priority_shape b3) as [k ->]. apply py_sort_perm. }
  split.
  - by rewrite Hperm.
  - intros x Hx Hxs. rewrite Hperm in Hx. by apply Honly3.
Qed.

Lemma weather_image_path_carried_over_witness :
  ∃ stored : MessageItem,
    stored = set_image_path (Some (cp "alert.png")) C10Example.update
    ∧ image_path stored = Some (cp "alert.png")
    ∧ image_path stored ≠ image_path C10Example.update
    ∧ text stored = text C10Example.update
    ∧ stored ∈ buffer (batch_replace_by_source [C10Example.update]
                         C10Example.holding_alert).2.
Proof.
  destruct (weather_image_path_carried_over [C10Example.update]
              C10Example.holding_alert C10Example.update C10Example.alert)
    as (stored & Hcarried & _ & Himg & _ & _ & Htext
        & _ & _ & _ & _ & _ & _ & _ & _ & _ & Hcall).
  assert (Hc : message_type C10Example.update = cp "weather"
               ∧ truthy (image_path C10Example.update) = false
               ∧ truthy (image_path C10Example.alert) = true)
    by (repeat split).
  destruct (Himg Hc) as (Hpath & _ & Hdiff).
  exists stored. split; [by apply Hcarried|].
  split; [exact Hpath|]. split; [exact Hdiff|]. split; [exact Htext|].
  apply Hcall.
  - apply (bool_decide_unpack _). vm_compute. reflexivity.
  - vm_compute. lia.
  - vm_compute. by left.
  - vm_compute. by left.
  - reflexivity.
Defined.

Example image_path_kept_for_weather_only :
  buffer (batch_replace_by_source [C10Example.update]
            C10Example.holding_alert).2
  = [set_image_path (Some (cp "alert.png")) C10Example.update]
  ∧ buffer (batch_replace_by_source [C10Example.report_update]
              C10Example.holding_alert).2
    = [C10Example.report_update].
Proof. vm_compute. split; reflexivity. Qed.

(** * Further properties *)

(** ** Event identity *)

Lemma str_eqb_sym a b : str_eqb a b = str_eqb b a.
Proof.
  unfold str_eqb. destruct (decide (a = b)) as [->|Hn].
  - reflexivity.
  - rewrite !bool_decide_eq_false_2; [reflexivity| |]; congruence.
Qed.

(** X1.  [is_same_event] is symmetric: whether two messages are the same
    event does not depend on which one asks. *)
Theorem is_same_event_sym (a b : MessageItem) :
  is_same_event a b = is_same_event b a.
Proof.
  unfold is_same_event.
  rewrite (str_eqb_sym (source b) (source a)).
  destruct (str_eqb (source a) (source b)); cbn [negb]; [|reflexivity].
  rewrite (str_eqb_sym (event_id b) (event_id a)).
  destruct (nonempty (event_id a)), (nonempty (event_id b)); cbn [negb andb];
    try reflexivity.
  rewrite (str_eqb_sym (_normalize_warning_text (text b))).
  rewrite (str_eqb_sym (take 80 (_normalize_warning_text (text b)))).
  rewrite (Qabs_Qminus (timestamp b) (timestamp a)).
  set (na := _normalize_warning_text (text a)).
  set (nb := _normalize_warning_text (text b)).
  assert (Hs : bool_decide (shock_time a = shock_time b)
               = bool_decide (shock_time b = shock_time a)).
  { apply bool_decide_ext. split; congruence. }
  rewrite Hs.
  rewrite (andb_comm (truthy (shock_time b)) (truthy (shock_time a))).
  rewrite (andb_comm (nonempty nb) (nonempty na)).
  destruct (str_eqb na nb) eqn:E.
  - apply str_eqb_true in E. rewrite E. reflexivity.
  - rewrite !andb_false_r. reflexivity.
Qed.

(** X2.  A message is the same event as itself exactly when it carries
    something to identify it by: an event id, a text that does not
    normalise to the empty string, or a shock time.  A message with none of
    the three is never the same event as anything: whichever message it is
    compared with, and from whichever side, the answer is no. *)
Theorem is_same_event_refl_iff (m : MessageItem) :
  (is_same_event m m = true
   ↔ event_id m ≠ [] ∨ _normalize_warning_text (text m) ≠ []
     ∨ truthy (shock_time m) = true)
  ∧ (is_same_event m m = false →
     ∀ other, is_same_event m other = false
              ∧ is_same_event other m = false).
Proof.
  assert (Hiff : is_same_event m m = true
   ↔ event_id m ≠ [] ∨ _normalize_warning_text (text m) ≠ []
     ∨ truthy (shock_time m) = true).
  { unfold is_same_event.
    assert (Hs : str_eqb (source m) (source m) = true)
      by (by apply str_eqb_true).
    rewrite Hs. simpl.
    destruct (nonempty (event_id m)) eqn:E; simpl.
    - apply nonempty_true in E. split; [auto|]. intros _.
      by apply str_eqb_true.
    - apply nonempty_false in E.
      set (n := _normalize_warning_text (text m)).
      assert (Hn : str_eqb n n = true) by (by apply str_eqb_true).
      rewrite Hn, andb_true_r.
      destruct (nonempty n) eqn:En.
      + apply nonempty_true in En. split; auto.
      + apply nonempty_false in En.
        rewrite bool_decide_eq_true_2 by reflexivity.
        rewrite andb_true_r, andb_diag.
        destruct (truthy (shock_time m)); split; auto.
        intros [H|[H|H]]; congruence. }
  split; [exact Hiff|].
  intros Hself other.
  assert (He : event_id m = []).
  { destruct (event_id m) eqn:E; [done|].
    assert (is_same_event m m = true); [|congruence].
    apply Hiff. by left. }
  assert (Hn : _normalize_warning_text (text m) = []).
  { destruct (_normalize_warning_text (text m)) eqn:E; [done|].
    assert (is_same_event m m = true); [|congruence].
    apply Hiff. right. by left. }
  assert (Hs : truthy (shock_time m) = false).
  { destruct (truthy (shock_time m)) eqn:E; [|done].
    assert (is_same_event m m = true); [|congruence].
    apply Hiff. right. by right. }
  split.
  - unfold is_same_event. rewrite He, Hn, Hs. cbn [nonempty andb negb].
    destruct (negb (str_eqb (source m) (source other))); [done|].
    by destruct (nonempty (event_id other)).
  - unfold is_same_event. rewrite He, Hn, Hs. cbn [nonempty negb].
    rewrite !andb_false_r, !andb_true_r. cbn [andb].
    destruct (negb (str_eqb (source other) (source m))); [done|].
    destruct (nonempty (event_id other)); cbn [negb]; [done|].
    destruct (_normalize_warning_text (text other)) as [|c n] eqn:En;
      cbn [nonempty andb]; [done|].
    assert (str_eqb (c :: n) [] = false) as ->; [|done].
    unfold str_eqb. by apply bool_decide_eq_false_2.
Qed.

Lemma is_same_event_refl_iff_witness :
  is_same_event Samples.blank Samples.blank = false
  ∧ is_same_event Samples.blank Fixture.usgs = false
  ∧ is_same_event Fixture.usgs Samples.blank = false.
Proof.
  assert (H : is_same_event Samples.blank Samples.blank = false)
    by (vm_compute; reflexivity).
  split; [exact H|].
  exact (proj2 (is_same_event_refl_iff Samples.blank) H Fixture.usgs).
Defined.

(** ** Text normalisation *)

Lemma sub_remove_sublist (matcher : pystr → option nat) (s : pystr) (k : nat) :
  sub_remove matcher k s `sublist_of` s.
Proof.
  revert k. induction s as [|c s IH]; intros k; simpl; [constructor|].
  destruct k as [|k].
  - destruct (matcher (c :: s)) as [[|n]|].
    + by apply sublist_skip.
    + by apply sublist_cons.
    + by apply sublist_skip.
  - by apply sublist_cons.
Qed.

Lemma str_remove_char (c : N) (s : pystr) :
  str_remove [c] s = filter (λ x, x ≠ c) s.
Proof.
  unfold str_remove. induction s as [|x s IH]; [reflexivity|].
  cbn [sub_remove]. unfold literal at 1. cbn [starts_with Datatypes.length].
  rewrite filter_cons. destruct (decide (x ≠ c)) as [Hx|Hx].
  - assert ((c =? x)%N = false) as -> by (apply N.eqb_neq; congruence).
    simpl. by rewrite IH.
  - assert (x = c) as -> by (destruct (decide (x = c)); [done|contradiction]).
    rewrite N.eqb_refl. simpl. exact IH.
Qed.

Lemma sub_remove_spaces (s : pystr) (k : nat) :
  k = 0 ∨ k = span_len py_isspace s →
  Forall (λ c, py_isspace c = false) (sub_remove spaces k s).
Proof.
  revert k. induction s as [|c s IH]; intros k Hk; simpl; [constructor|].
  destruct k as [|k].
  - unfold spaces. simpl. destruct (py_isspace c) eqn:Ec.
    + apply IH. by right.
    + constructor; [exact Ec|]. apply IH. by left.
  - destruct Hk as [Hk|Hk]; [discriminate|]. simpl in Hk.
    destruct (py_isspace c); [|discriminate]. apply IH. right. congruence.
Qed.

Lemma lstrip_no_space (s : pystr) :
  Forall (λ c, py_isspace c = false) s → lstrip s = s.
Proof. intros H. destruct H as [|c s Hc _]; simpl; [done|]. by rewrite Hc. Qed.

Lemma strip_no_space (s : pystr) :
  Forall (λ c, py_isspace c = false) s → strip s = s.
Proof.
  intros H. unfold strip. rewrite (lstrip_no_space s H).
  rewrite lstrip_no_space by (by apply Forall_reverse).
  apply reverse_involutive.
Qed.

(** X3.  The normalised text is what is left of the text after deletions
    (it is a subsequence of the text) and holds neither a white-space
    character nor a comma or full stop. *)
Theorem _normalize_warning_text_clean (text : pystr) :
  _normalize_warning_text text `sublist_of` text
  ∧ Forall (λ c, py_isspace c = false ∧ c ∉ punctuation)
      (_normalize_warning_text text).
Proof.
  unfold _normalize_warning_text.
  destruct (nonempty text); [|split; [apply sublist_nil_l|constructor]].
  set (s5 := str_remove (cp "FINAL REPORT") _).
  set (s6 := sub_remove spaces 0 s5).
  assert (H5 : s5 `sublist_of` text).
  { unfold s5, str_remove.
    repeat (etrans; [apply sub_remove_sublist|]). reflexivity. }
  assert (H6 : Forall (λ c, py_isspace c = false) s6).
  { apply sub_remove_spaces. by left. }
  change (cp ",") with [44%N]. change (cp ".") with [46%N].
  rewrite !str_remove_char.
  match goal with |- context [strip ?x] => set (r := x) end.
  assert (Hr : Forall (λ c, py_isspace c = false) r).
  { apply list.Forall_forall. intros c Hc. unfold r in Hc.
    rewrite !list_elem_of_filter in Hc.
    apply (proj1 (list.Forall_forall _ _) H6). tauto. }
  rewrite (strip_no_space r Hr). split.
  - unfold r. repeat (etrans; [apply sublist_filter|]).
    etrans; [apply sub_remove_sublist|]. exact H5.
  - apply list.Forall_forall. intros c Hc. split.
    + by eapply (proj1 (list.Forall_forall _ _) Hr).
    + unfold r in Hc. rewrite !list_elem_of_filter in Hc.
      destruct Hc as (H46 & H12290 & H65292 & H44 & _).
      unfold punctuation. rewrite !elem_of_cons, elem_of_nil.
      intros [?|[?|[?|[?|[]]]]]; congruence.
Qed.

(** ** The report number *)

Lemma span_len_le (p : N → bool) (s : pystr) : span_len p s ≤ length s.
Proof. induction s as [|c s IH]; simpl; [lia|]. destruct (p c); simpl; lia. Qed.

(** A span stops at a character outside the class, wherever it stands. *)
Lemma span_len_stop (p : N → bool) (l : pystr) (x : N) (t : pystr) :
  p x = false → span_len p (l ++ x :: t) = span_len p l.
Proof.
  intros Hx. induction l as [|c l IH]; simpl.
  - by rewrite Hx.
  - destruct (p c); [by rewrite IH|done].
Qed.

Lemma span_len_all (p : N → bool) (l : pystr) (x : N) (t : pystr) :
  Forall (λ c, p c = true) l → p x = false →
  span_len p (l ++ x :: t) = length l.
Proof.
  intros Hl Hx. rewrite span_len_stop by done.
  induction Hl as [|c l Hc _ IH]; simpl; [done|]. by rewrite Hc, IH.
Qed.

Lemma space_not_decimal (c : N) : py_isspace c = true → py_isdecimal c = false.
Proof.
  unfold py_isspace. intros H.
  assert (Hc : (c <= 32 ∨ c = 133 ∨ c = 160 ∨ c = 5760
                ∨ (8192 <= c ∧ c <= 8287) ∨ c = 12288)%N).
  { repeat (apply orb_true_iff in H as [H|H]);
      repeat match goal with
        | H : _ && _ = true |- _ => apply andb_true_iff in H as [? ?]
        | H : (_ <=? _)%N = true |- _ => apply N.leb_le in H
        | H : (_ =? _)%N = true |- _ => apply N.eqb_eq in H
        end; lia. }
  clear H. unfold py_isdecimal, decimal_ranges. cbn [existsb fst snd].
  destruct Hc as [Hc|[Hc|[Hc|[Hc|[Hc|Hc]]]]];
  repeat (apply orb_false_intro);
    try reflexivity;
    apply andb_false_iff;
    first [ left; apply N.leb_gt; lia | right; apply N.leb_gt; lia ].
Qed.

Lemma decimal_not_space (c : N) : py_isdecimal c = true → py_isspace c = false.
Proof.
  intros H. destruct (py_isspace c) eqn:E; [|done].
  apply space_not_decimal in E. congruence.
Qed.

(** A skip runs over the characters it counts. *)
Lemma sub_remove_skip (matcher : pystr → option nat) (l t : pystr) :
  sub_remove matcher (length l) (l ++ t) = sub_remove matcher 0 t.
Proof. induction l as [|c l IH]; simpl; [by destruct t|exact IH]. Qed.

(** The pattern matches a report mark in full. *)
Lemma report_mark_number (d post : pystr) :
  d ≠ [] → Forall (λ c, py_isdecimal c = true) d →
  report_mark (31532%N :: d ++ 25253%N :: post) = Some (S (length d + 1)).
Proof.
  intros Hne Hd. unfold report_mark. rewrite N.eqb_refl.
  assert (Ha : span_len py_isspace (d ++ 25253%N :: post) = 0).
  { destruct Hd as [|c d Hc _]; [done|]. simpl.
    by rewrite (decimal_not_space c Hc). }
  rewrite Ha. rewrite drop_0.
  rewrite (span_len_all py_isdecimal d) by done.
  rewrite drop_app_length. cbn [span_len].
  replace (py_isspace 25253%N) with false by reflexivity.
  rewrite drop_0, N.eqb_refl.
  destruct d as [|c d]; [done|]. simpl. do 2 f_equal. lia.
Qed.

(** A match that starts before a 第 ends before it, and does not depend
    on what follows the 第. *)
Lemma report_mark_before (c : N) (p t1 t2 : pystr) :
  report_mark (c :: p ++ 31532%N :: t1) = report_mark (c :: p ++ 31532%N :: t2)
  ∧ ∀ n, report_mark (c :: p ++ 31532%N :: t1) = Some n → n ≤ S (length p).
Proof.
  assert (Hshape : ∀ t,
    report_mark (c :: p ++ 31532%N :: t)
    = if (c =? 31532)%N then
        let a := span_len py_isspace p in
        let d := span_len py_isdecimal (drop a p) in
        let b := span_len py_isspace (drop d (drop a p)) in
        match d, drop b (drop d (drop a p)) with
        | S _, c' :: _ =>
            if (c' =? 25253)%N then Some (1 + a + d + b + 1) else None
        | _, _ => None
        end
      else None).
  { intros t. unfold report_mark. destruct (c =? 31532)%N; [|done].
    cbv zeta.
    rewrite (span_len_stop py_isspace p) by reflexivity.
    set (a := span_len py_isspace p).
    assert (a ≤ length p) by apply span_len_le.
    rewrite drop_app_le by done.
    rewrite (span_len_stop py_isdecimal (drop a p)) by reflexivity.
    set (d := span_len py_isdecimal (drop a p)).
    assert (d ≤ length (drop a p)) by apply span_len_le.
    rewrite drop_app_le by done.
    rewrite (span_len_stop py_isspace (drop d (drop a p))) by reflexivity.
    set (b := span_len py_isspace (drop d (drop a p))).
    assert (b ≤ length (drop d (drop a p))) by apply span_len_le.
    rewrite drop_app_le by done.
    destruct d as [|d']; [done|].
    destruct (drop b (drop (S d') (drop a p))) as [|c' q]; [|done].
    reflexivity. }
  split; [by rewrite !Hshape|].
  intros n. rewrite Hshape. destruct (c =? 31532)%N; [|discriminate].
  cbv zeta.
  set (a := span_len py_isspace p).
  set (d := span_len py_isdecimal (drop a p)).
  set (b := span_len py_isspace (drop d (drop a p))).
  destruct d as [|d'] eqn:Ed; [discriminate|].
  destruct (drop b (drop (S d') (drop a p))) as [|c' q] eqn:Eq;
    [discriminate|].
  destruct (c' =? 25253)%N; [|discriminate]. intros [= <-].
  assert (length (drop b (drop (S d') (drop a p))) = S (length q))
    by (by rewrite Eq).
  rewrite !length_drop in *. lia.
Qed.

(** Scanning up to a 第: what is written before the 第 does not depend on
    what follows it. *)
Lemma sub_remove_before (p : pystr) (k : nat) (t1 t2 : pystr) :
  k ≤ length p →
  ∃ out,
    sub_remove report_mark k (p ++ 31532%N :: t1)
    = out ++ sub_remove report_mark 0 (31532%N :: t1)
    ∧ sub_remove report_mark k (p ++ 31532%N :: t2)
      = out ++ sub_remove report_mark 0 (31532%N :: t2).
Proof.
  revert k. induction p as [|c p IH]; intros k Hk.
  - assert (k = 0) as -> by (simpl in Hk; lia). by exists [].
  - destruct k as [|k].
    + destruct (report_mark_before c p t1 t2) as [Heq Hle].
      cbn [app sub_remove]. rewrite <- Heq.
      destruct (report_mark (c :: p ++ 31532%N :: t1)) as [[|n]|] eqn:E.
      * destruct (IH 0) as (out & H1 & H2); [lia|].
        exists (c :: out). by rewrite H1, H2.
      * destruct (IH n) as (out & H1 & H2).
        { specialize (Hle _ eq_refl). lia. }
        by exists out.
      * destruct (IH 0) as (out & H1 & H2); [lia|].
        exists (c :: out). by rewrite H1, H2.
    + cbn [app sub_remove]. apply IH. simpl in Hk. lia.
Qed.

(** X4.  The report number does not count: two texts that differ only in
    the number of a report mark 第…报 have the same normalised text, so
    successive reports of one event compare equal. *)
Theorem report_number_is_ignored (pre post d1 d2 : pystr) :
  d1 ≠ [] → d2 ≠ [] →
  Forall (λ c, py_isdecimal c = true) d1 →
  Forall (λ c, py_isdecimal c = true) d2 →
  _normalize_warning_text (pre ++ 31532%N :: d1 ++ 25253%N :: post)
  = _normalize_warning_text (pre ++ 31532%N :: d2 ++ 25253%N :: post).
Proof.
  intros Hn1 Hn2 Hd1 Hd2. unfold _normalize_warning_text.
  assert (Hne : ∀ d, nonempty (pre ++ 31532%N :: d ++ 25253%N :: post) = true)
    by (intros d; by destruct pre).
  rewrite !Hne.
  assert (Hmark : ∀ d, d ≠ [] → Forall (λ c, py_isdecimal c = true) d →
    sub_remove report_mark 0 (31532%N :: d ++ 25253%N :: post)
    = sub_remove report_mark 0 post).
  { intros d Hn Hd. cbn [sub_remove].
    rewrite (report_mark_number d post Hn Hd).
    replace (d ++ 25253%N :: post) with ((d ++ [25253%N]) ++ post)
      by (by rewrite <- app_assoc).
    replace (length d + 1) with (length (d ++ [25253%N]))
      by (rewrite length_app; reflexivity).
    apply sub_remove_skip. }
  destruct (sub_remove_before pre 0 (d1 ++ 25253%N :: post)
              (d2 ++ 25253%N :: post)) as (out & H1 & H2); [lia|].
  rewrite H1, H2, (Hmark d1 Hn1 Hd1), (Hmark d2 Hn2 Hd2). reflexivity.
Qed.

Lemma report_number_is_ignored_witness :
  _normalize_warning_text
    (cp "[CENC] " ++ 31532%N :: cp "1" ++ 25253%N :: cp " M5.0")
  = _normalize_warning_text
      (cp "[CENC] " ++ 31532%N :: cp "23" ++ 25253%N :: cp " M5.0").
Proof.
  apply (report_number_is_ignored (cp "[CENC] ") (cp " M5.0")
           (cp "1") (cp "23")).
  - vm_compute. discriminate.
  - vm_compute. discriminate.
  - repeat constructor.
  - repeat constructor.
Defined.

(** ** The message queue *)

Lemma get_all_loop_spec (messages q : list MessageItem) :
  get_all_loop messages q = (messages ++ q, []).
Proof.
  revert messages. induction q as [|x q IH]; intros messages; simpl.
  - by rewrite app_nil_r.
  - rewrite IH. by rewrite <- app_assoc.
Qed.

Lemma queue_put_all_spec (n : nat) (items q : list MessageItem) :
  0 < n → length q ≤ n →
  queue_put_all n items q = drop (length q + length items - n) (q ++ items).
Proof.
  intros Hn. unfold queue_put_all. revert q.
  induction items as [|x items IH]; intros q Hq; simpl.
  - rewrite app_nil_r. replace (length q + 0 - n) with 0 by lia. reflexivity.
  - unfold queue_put at 2.
    assert ((0 <? n) = true) as -> by (by apply Nat.ltb_lt).
    destruct (n <=? length q) eqn:E; simpl.
    + apply Nat.leb_le in E. destruct q as [|a q]; [simpl in *; lia|].
      simpl in *. rewrite drop_0. rewrite IH by (rewrite length_app; simpl; lia).
      rewrite length_app. simpl. rewrite <- app_assoc. simpl.
      replace (S (length q + S (length items)) - n) with (S (length items))
        by lia.
      replace (length q + 1 + length items - n) with (length items) by lia.
      reflexivity.
    + apply Nat.leb_gt in E.
      rewrite IH by (rewrite length_app; simpl; lia).
      rewrite length_app. simpl. rewrite <- app_assoc. simpl.
      f_equal. lia.
Qed.

(** X5.  A queue of capacity [maxsize] holds the last [maxsize] arrivals in
    arrival order: [put] on a full queue drops the oldest element, never
    the new one.  [get_all] hands all of them over, oldest first, and
    leaves the queue empty. *)
Theorem queue_keeps_latest_arrivals (maxsize : nat)
    (items q : list MessageItem) :
  0 < maxsize → length q ≤ maxsize →
  queue_get_all (queue_put_all maxsize items q)
  = (drop (length q + length items - maxsize) (q ++ items), [])
  ∧ qsize (queue_put_all maxsize items q)
    = Nat.min (length q + length items) maxsize.
Proof.
  intros Hn Hq. rewrite (queue_put_all_spec _ _ _ Hn Hq). split.
  - unfold queue_get_all. by rewrite get_all_loop_spec.
  - unfold qsize. rewrite length_drop, length_app. lia.
Qed.

Lemma queue_keeps_latest_arrivals_witness :
  queue_get_all
    (queue_put_all 2 [Fixture.usgs; Fixture.cenc; Fixture.emsc] [])
  = ([Fixture.cenc; Fixture.emsc], []).
Proof.
  destruct (queue_keeps_latest_arrivals 2
              [Fixture.usgs; Fixture.cenc; Fixture.emsc] []) as [H _].
  - lia.
  - simpl. lia.
  - exact H.
Defined.

(** ** Sorting the buffer *)

Lemma StronglySorted_lookup {A} (R : relation A) (l : list A) (i j : nat)
    (x y : A) :
  StronglySorted R l → i < j → l !! i = Some x → l !! j = Some y → R x y.
Proof.
  intros Hs. revert i j. induction Hs as [|a l Hs IH Ha]; intros i j Hij Hi Hj.
  - discriminate.
  - destruct j as [|j]; [lia|]. destruct i as [|i]; simpl in *.
    + injection Hi as <-.
      apply (proj1 (list.Forall_forall _ _) Ha).
      by eapply list_elem_of_lookup_2.
    + apply (IH i j); [lia|done..].
Qed.

Lemma key_le_order (a b : sort_key_t) :
  key_le a b = true →
  a.1 ≤ b.1
  ∧ (a.1 = b.1 → ∀ ka kb, a.2 = Some ka → b.2 = Some kb → ka ≤ kb)
  ∧ (a.1 = b.1 → a.2 = None → b.2 = None).
Proof.
  unfold key_le. intros H. apply orb_true_iff in H as [H|H].
  - apply Nat.ltb_lt in H. repeat split; lia.
  - apply andb_true_iff in H as [H1 H2]. apply Nat.eqb_eq in H1.
    repeat split; [lia| |].
    + intros _ ka kb Ha Hb. rewrite Ha, Hb in H2. simpl in H2.
      by apply Nat.leb_le.
    + intros _ Ha. rewrite Ha in H2. destruct b.2; [discriminate|done].
Qed.

Lemma sort_if_priority_frame (b : MessageBuffer) :
  buffer (sort_if_priority b) ≡ₚ buffer b
  ∧ max_size (sort_if_priority b) = max_size b
  ∧ use_priority (sort_if_priority b) = use_priority b
  ∧ _add_order_counter (sort_if_priority b) = _add_order_counter b
  ∧ _message_add_order (sort_if_priority b) = _message_add_order b
  ∧ _current_displaying_msg_id (sort_if_priority b)
    = _current_displaying_msg_id b.
Proof.
  unfold sort_if_priority. destruct (use_priority b) eqn:E; [|done].
  destruct (_sort_by_priority_shape b) as [i ->]. simpl.
  split; [apply py_sort_perm|done].
Qed.

Lemma sort_if_priority_sorted (b : MessageBuffer) :
  use_priority b = true → buffer_sorted (sort_if_priority b).
Proof.
  intros E. unfold sort_if_priority, buffer_sorted. rewrite E.
  destruct (_sort_by_priority_shape b) as [i ->]. simpl.
  apply sorted_buffer_sorted.
Qed.

Lemma _sort_by_priority_index (b : MessageBuffer) :
  buffer b ≠ [] →
  current_index (_sort_by_priority b) < length (buffer (_sort_by_priority b)).
Proof.
  intros Hne.
  assert (Hlen : length (sorted_buffer b) = length (buffer b))
    by apply length_sorted_buffer.
  assert (0 < length (buffer b)) by (destruct (buffer b); simpl; [done|lia]).
  unfold _sort_by_priority. fold (sorted_buffer b).
  change (buffer (with_buffer (sorted_buffer b) b)) with (sorted_buffer b).
  change (current_index (with_buffer (sorted_buffer b) b))
    with (current_index b).
  assert (Hreset :
    current_index
      (if length (sorted_buffer b) <=? current_index b
       then with_index 0 (with_buffer (sorted_buffer b) b)
       else with_buffer (sorted_buffer b) b)
    < length (buffer
      (if length (sorted_buffer b) <=? current_index b
       then with_index 0 (with_buffer (sorted_buffer b) b)
       else with_buffer (sorted_buffer b) b))).
  { destruct (length (sorted_buffer b) <=? current_index b) eqn:E; simpl.
    - lia.
    - apply Nat.leb_gt in E. lia. }
  destruct (match _current_displaying_msg_id b with
            | Some i => snd <$> list_find (λ m, oid m = i) (buffer b)
            | None => None
            end) as [m|]; [|exact Hreset].
  unfold index_of_id.
  destruct (list_find (λ m0, oid m0 = oid m) (sorted_buffer b))
    as [[j m2]|] eqn:Eg; simpl; [|exact Hreset].
  apply list_find_Some in Eg as (Hj & _). by eapply lookup_lt_Some.
Qed.

(** X6.  [_sort_by_priority] loses and invents no entry; afterwards the
    entries stand by source priority, those of one priority by add order
    with the entries without a recorded add order last; and the index
    follows the entry on display: if an entry is the displayed object,
    [current_index] points at it, and in any case the index is in range. *)
Theorem _sort_by_priority_sorts (b : MessageBuffer) :
  let b' := _sort_by_priority b in
  let ao := _message_add_order b in
  buffer b' ≡ₚ buffer b
  ∧ (∀ i j x y, i < j → buffer b' !! i = Some x → buffer b' !! j = Some y →
       let px := get_source_priority (source x) in
       let py := get_source_priority (source y) in
       px ≤ py
       ∧ (px = py → ∀ kx ky,
            ao !! oid x = Some kx → ao !! oid y = Some ky → kx ≤ ky)
       ∧ (px = py → ao !! oid x = None → ao !! oid y = None))
  ∧ (∀ d, _current_displaying_msg_id b = Some d → d ∈ oid <$> buffer b →
       oid <$> buffer b' !! current_index b' = Some d)
  ∧ (buffer b ≠ [] → current_index b' < length (buffer b')).
Proof.
  intros b' ao.
  assert (Hbuf : buffer b' = sorted_buffer b).
  { unfold b'. by destruct (_sort_by_priority_shape b) as [i ->]. }
  assert (Hperm : sorted_buffer b ≡ₚ buffer b) by apply py_sort_perm.
  split; [by rewrite Hbuf|]. split; [|split].
  - intros i j x y Hij Hx Hy. rewrite Hbuf in Hx, Hy.
    pose proof (StronglySorted_lookup _ _ _ _ _ _
                  (sorted_buffer_sorted b) Hij Hx Hy) as Hle.
    apply key_le_order in Hle. exact Hle.
  - intros d Hd Hin.
    apply list_elem_of_fmap in Hin as (m & -> & Hm).
    unfold b', _sort_by_priority. rewrite Hd.
    destruct (list_find (λ m0, oid m0 = oid m) (buffer b))
      as [[k m1]|] eqn:Ef.
    2:{ apply list_find_None in Ef.
        by apply (proj1 (list.Forall_forall _ _) Ef) in Hm. }
    apply list_find_Some in Ef as (Hk & Hoid & _). simpl.
    fold (sorted_buffer b).
    change (buffer (with_buffer (sorted_buffer b) b)) with (sorted_buffer b).
    unfold index_of_id.
    destruct (list_find (λ m0, oid m0 = oid m1) (sorted_buffer b))
      as [[j m2]|] eqn:Eg; simpl.
    + apply list_find_Some in Eg as (Hj & Hoid2 & _).
      rewrite Hj. simpl. congruence.
    + apply list_find_None in Eg.
      assert (m1 ∈ sorted_buffer b) as Hm1.
      { rewrite Hperm. by eapply list_elem_of_lookup_2. }
      by apply (proj1 (list.Forall_forall _ _) Eg) in Hm1.
  - apply _sort_by_priority_index.
Qed.

(** ** Insertions *)

Lemma make_room_length (b : MessageBuffer) :
  0 < max_size b → length (buffer b) ≤ max_size b →
  length (buffer (make_room b)) < max_size b.
Proof.
  intros Hn Hl. unfold make_room.
  destruct (max_size b <=? length (buffer b)) eqn:E.
  - apply Nat.leb_le in E. destruct (buffer b) as [|x l] eqn:Hb.
    + simpl in *. lia.
    + assert (length (buffer (with_buffer l b)) < max_size b)
        by (simpl in *; lia).
      destruct (0 <? _); simpl in *; lia.
  - apply Nat.leb_gt in E. lia.
Qed.

Lemma make_room_length_eq (b : MessageBuffer) :
  0 < max_size b →
  length (buffer (make_room b))
  = if max_size b <=? length (buffer b) then length (buffer b) - 1
    else length (buffer b).
Proof.
  intros Hn. unfold make_room.
  destruct (max_size b <=? length (buffer b)) eqn:E; [|done].
  apply Nat.leb_le in E. destruct (buffer b) as [|x l] eqn:Hb.
  - simpl in *. lia.
  - destruct (0 <? _); simpl; lia.
Qed.

Lemma add_shape (m : MessageItem) (b : MessageBuffer) :
  0 < max_size b → length (buffer b) ≤ max_size b →
  m ∈ buffer (add m b)
  ∧ length (buffer (add m b)) = Nat.min (S (length (buffer b))) (max_size b)
  ∧ max_size (add m b) = max_size b
  ∧ _add_order_counter (add m b) = S (_add_order_counter b)
  ∧ _message_add_order (add m b) !! oid m = Some (S (_add_order_counter b)).
Proof.
  intros Hn Hl. unfold add.
  destruct (sort_if_priority_frame (append_new m (make_room b)))
    as (Hp & Hmax & _ & Hc & Ho & _).
  destruct (make_room_spec b) as (Hm1 & _ & Hm3 & _).
  split; [|split; [|split; [|split]]].
  - rewrite Hp. simpl. apply elem_of_app. right. by apply list_elem_of_singleton.
  - rewrite Hp.
    change (buffer (append_new m (make_room b)))
      with (buffer (make_room b) ++ [m]).
    rewrite length_app, (make_room_length_eq b Hn).
    change (length [m]) with 1.
    destruct (max_size b <=? length (buffer b)) eqn:E.
    + apply Nat.leb_le in E. lia.
    + apply Nat.leb_gt in E. lia.
  - rewrite Hmax. simpl. exact Hm1.
  - rewrite Hc. simpl. by rewrite Hm3.
  - rewrite Ho. simpl. rewrite Hm3. apply lookup_insert_eq.
Qed.

(** X7.  [add] on a buffer with room for at least one entry: the new
    message is in the buffer afterwards, with the next add order; the
    buffer grows by one entry until it is full and never exceeds
    [max_size]. *)
Theorem add_bounded (m : MessageItem) (b : MessageBuffer) :
  0 < max_size b → length (buffer b) ≤ max_size b →
  m ∈ buffer (add m b)
  ∧ length (buffer (add m b)) = Nat.min (S (length (buffer b))) (max_size b)
  ∧ max_size (add m b) = max_size b
  ∧ _add_order_counter (add m b) = S (_add_order_counter b)
  ∧ _message_add_order (add m b) !! oid m = Some (S (_add_order_counter b)).
Proof. apply add_shape.
Qed.

Lemma add_bounded_witness :
  Fixture.emsc ∈ buffer (add Fixture.emsc Samples.full)
  ∧ length (buffer (add Fixture.emsc Samples.full)) = 2.
Proof.
  destruct (add_bounded Fixture.emsc Samples.full) as (H1 & H2 & _).
  - vm_compute. lia.
  - vm_compute. lia.
  - split; [exact H1|exact H2].
Defined.

(** X8.  In a priority buffer, two messages of equal source priority that
    are added one after the other, with room for both, stand in arrival
    order: the rotation shows the earlier arrival first. *)
Theorem add_fifo_within_priority (m1 m2 : MessageItem) (b : MessageBuffer) :
  use_priority b = true → length (buffer b) + 2 ≤ max_size b →
  oid m1 ≠ oid m2 →
  get_source_priority (source m1) = get_source_priority (source m2) →
  ∃ i j, i < j
         ∧ buffer (add m2 (add m1 b)) !! i = Some m1
         ∧ buffer (add m2 (add m1 b)) !! j = Some m2.
Proof.
  intros Hp Hl Hoid Hprio.
  set (b1 := add m1 b).
  destruct (add_shape m1 b) as (Hin1 & Hlen1 & Hmax1 & Hc1 & Ho1);
    [lia..|]. fold b1 in Hin1, Hlen1, Hmax1, Hc1, Ho1.
  assert (Hp1 : use_priority b1 = true).
  { unfold b1, add.
    destruct (sort_if_priority_frame (append_new m1 (make_room b)))
      as (_ & _ & -> & _). simpl.
    destruct (make_room_spec b) as (_ & -> & _). exact Hp. }
  destruct (add_shape m2 b1) as (Hin2 & Hlen2 & Hmax2 & Hc2 & Ho2);
    [lia..|].
  set (b2 := add m2 b1) in *.
  assert (Hroom : make_room b1 = b1).
  { unfold make_room.
    destruct (max_size b1 <=? length (buffer b1)) eqn:E; [|done].
    apply Nat.leb_le in E. lia. }
  assert (Hb2 : b2 = sort_if_priority (append_new m2 b1)).
  { unfold b2, add. by rewrite Hroom. }
  destruct (sort_if_priority_frame (append_new m2 b1))
    as (Hperm & _ & _ & _ & Hao & _).
  rewrite <- Hb2 in Hperm, Hao. simpl in Hperm, Hao.
  assert (Hm1 : m1 ∈ buffer b2).
  { rewrite Hperm. apply elem_of_app. by left. }
  assert (Ho1' : _message_add_order b2 !! oid m1 = Some (S (_add_order_counter b))).
  { rewrite Hao. rewrite lookup_insert_ne by congruence. exact Ho1. }
  assert (Hs : buffer_sorted b2).
  { rewrite Hb2. apply sort_if_priority_sorted. exact Hp1. }
  apply list_elem_of_lookup in Hm1 as [i Hi].
  apply list_elem_of_lookup in Hin2 as [j Hj].
  exists i, j. split; [|done].
  destruct (Nat.lt_trichotomy i j) as [H|[H|H]]; [done| |].
  - subst j. congruence.
  - exfalso.
    pose proof (StronglySorted_lookup _ _ _ _ _ _ Hs H Hj Hi) as Hle.
    apply key_le_order in Hle as (_ & Hle & _). simpl in Hle.
    specialize (Hle (eq_sym Hprio) _ _ Ho2 Ho1'). lia.
Qed.

Lemma add_fifo_within_priority_witness :
  ∃ i j, i < j
    ∧ buffer (add Samples.wolfx (add Samples.p2pquake (new_buffer 20 true)))
      !! i = Some Samples.p2pquake
    ∧ buffer (add Samples.wolfx (add Samples.p2pquake (new_buffer 20 true)))
      !! j = Some Samples.wolfx.
Proof.
  apply (add_fifo_within_priority Samples.p2pquake Samples.wolfx
           (new_buffer 20 true)).
  - reflexivity.
  - simpl. lia.
  - vm_compute. lia.
  - vm_compute. reflexivity.
Defined.

(** X9.  [replace_or_add] reports a replacement exactly when some entry is
    the same event as the message; then the first such entry gives way to
    the message and no other entry changes.  Otherwise it does what [add]
    does. *)
Theorem replace_or_add_spec (m : MessageItem) (b : MessageBuffer) :
  let r := replace_or_add m b in
  (r.1 = true ↔ ∃ e, e ∈ buffer b ∧ is_same_event m e = true)
  ∧ (r.1 = true →
       ∃ i e, buffer b !! i = Some e ∧ is_same_event m e = true
              ∧ (∀ j x, j < i → buffer b !! j = Some x →
                   is_same_event m x ≠ true)
              ∧ buffer r.2 ≡ₚ <[i := m]> (buffer b))
  ∧ (r.1 = false → r.2 = add m b).
Proof.
  unfold replace_or_add.
  destruct (list_find (λ e, is_same_event m e = true) (buffer b))
    as [[i e]|] eqn:Ef; simpl.
  - apply list_find_Some in Ef as (Hi & He & Hfirst).
    split; [|split; [|discriminate]].
    + split; [|done]. intros _. exists e. split; [|done].
      by eapply list_elem_of_lookup_2.
    + intros _. exists i, e.
      set (b1 := with_buffer _ _).
      destruct (sort_if_priority_frame b1) as (Hp & _).
      assert (Hb1 : buffer b1 = <[i := m]> (buffer b)).
      { unfold b1. simpl. by rewrite carry_order_buffer. }
      repeat split; [done..| |by rewrite Hp, Hb1].
      intros j x Hj Hx. by apply (Hfirst j x).
  - apply list_find_None in Ef.
    split; [|split; [discriminate|done]].
    split; [discriminate|]. intros (e & He & Hs).
    by apply (proj1 (list.Forall_forall _ _) Ef) in He.
Qed.

(** ** Batches *)

(** X10.  A batch of one message is [replace_or_add] of that message. *)
Theorem batch_replace_or_add_single (m : MessageItem) (b : MessageBuffer) :
  batch_replace_or_add [m] b
  = (Some [(replace_or_add m b).1], (replace_or_add m b).2).
Proof.
  unfold batch_replace_or_add, replace_or_add. cbn [foldl].
  unfold dedup_step at 1. cbn [list_find app Datatypes.length foldl].
  unfold batch_step_or_add.
  destruct (list_find (λ e, is_same_event m e = true) (buffer b))
    as [[i e]|]; reflexivity.
Qed.

Lemma keep_image_id (e m : MessageItem) :
  message_type m ≠ cp "weather" ∨ truthy (image_path m) = true →
  keep_image e m = m.
Proof.
  intros [H|H]; unfold keep_image.
  - apply str_eqb_false in H. by rewrite H.
  - rewrite H. by rewrite andb_false_r.
Qed.

(** X11.  For a message that is no weather alert, or that brings its own
    image path, a batch of one message by source is [replace_by_source] of
    that message. *)
Theorem batch_replace_by_source_single (m : MessageItem) (b : MessageBuffer) :
  message_type m ≠ cp "weather" ∨ truthy (image_path m) = true →
  batch_replace_by_source [m] b
  = ([(replace_by_source m b).1], (replace_by_source m b).2).
Proof.
  intros Hk. unfold batch_replace_by_source, replace_by_source.
  unfold latest_per_source. cbn [foldl]. unfold keep_latest at 1 2.
  cbn [list_find app foldl]. unfold batch_step_by_source.
  destruct (list_find (λ e, source m = source e) (buffer b))
    as [[i e]|]; cbn [fmap list_fmap compose].
  - rewrite (keep_image_id e m Hk).
    rewrite decide_True by reflexivity. reflexivity.
  - rewrite decide_True by reflexivity. reflexivity.
Qed.

Lemma batch_replace_by_source_single_witness :
  batch_replace_by_source [Samples.hko] Fixture.loaded
  = ([(replace_by_source Samples.hko Fixture.loaded).1],
     (replace_by_source Samples.hko Fixture.loaded).2).
Proof.
  apply (batch_replace_by_source_single Samples.hko Fixture.loaded).
  left. vm_compute. discriminate.
Defined.

Lemma dedup_fold_inv (msgs U : list MessageItem) (M : list nat) :
  Forall (λ i, i < length U) M →
  let st := foldl dedup_step (U, M) msgs in
  Forall (λ i, i < length st.1) st.2
  ∧ length st.2 = length M + length msgs
  ∧ (∀ k, k ∈ msg_key <$> st.1
          ↔ k ∈ msg_key <$> U ∨ k ∈ msg_key <$> msgs).
Proof.
  revert U M. induction msgs as [|m msgs IH]; intros U M HM; cbv zeta;
    cbn [foldl].
  - simpl. split; [exact HM|]. split; [lia|]. intros k.
    rewrite elem_of_nil. tauto.
  - destruct (list_find (λ u, msg_key u = msg_key m) U) as [[i u]|] eqn:Ef.
    + assert (dedup_step (U, M) m = (U, M ++ [i])) as ->
        by (unfold dedup_step; by rewrite Ef).
      apply list_find_Some in Ef as (Hi & Hu & _).
      destruct (IH U (M ++ [i])) as (H1 & H2 & H3).
      { apply Forall_app. split; [done|]. constructor; [|constructor].
        by eapply lookup_lt_Some. }
      split; [exact H1|]. split.
      * rewrite H2, length_app. simpl. lia.
      * intros k. rewrite H3. rewrite fmap_cons, elem_of_cons.
        split; [tauto|]. intros [H|[H|H]]; [tauto| |tauto].
        left. subst k. rewrite <- Hu. apply list_elem_of_fmap_2.
        by eapply list_elem_of_lookup_2.
    + assert (dedup_step (U, M) m = (U ++ [m], M ++ [length U])) as ->
        by (unfold dedup_step; by rewrite Ef).
      destruct (IH (U ++ [m]) (M ++ [length U])) as (H1 & H2 & H3).
      { apply Forall_app. split.
        - eapply list.Forall_impl; [exact HM|]. intros j Hj. simpl in Hj.
          rewrite length_app. simpl. lia.
        - constructor; [|constructor]. rewrite length_app. simpl. lia. }
      split; [exact H1|]. split.
      * rewrite H2, length_app. simpl. lia.
      * intros k. rewrite H3. rewrite fmap_app, elem_of_app, !fmap_cons.
        rewrite !elem_of_cons, fmap_nil, elem_of_nil. tauto.
Qed.

Lemma dedup_fold_seen (msgs U : list MessageItem) (M : list nat)
    (m : MessageItem) :
  msg_key m ∈ msg_key <$> U ∨ msg_key m ∈ msg_key <$> msgs →
  (foldl dedup_step (U, M) (msgs ++ [m])).1
  = (foldl dedup_step (U, M) msgs).1.
Proof.
  intros Hin. rewrite foldl_snoc.
  destruct (dedup_fold_inv msgs U [] ltac:(constructor)) as (_ & _ & H3).
  assert (Hfst : ∀ M', (foldl dedup_step (U, M') msgs).1
                       = (foldl dedup_step (U, []) msgs).1).
  { clear. revert U. induction msgs as [|x msgs IH]; intros U M'; [done|].
    cbn [foldl]. unfold dedup_step at 2 4.
    destruct (list_find _ U) as [[i u]|]; rewrite IH; symmetry; apply IH. }
  apply H3 in Hin. rewrite <- (Hfst M) in Hin.
  destruct (foldl dedup_step (U, M) msgs) as [U' M']. simpl in *.
  unfold dedup_step.
  destruct (list_find (λ u, msg_key u = msg_key m) U') as [[i u]|] eqn:Ef;
    [done|].
  apply list_find_None in Ef.
  apply list_elem_of_fmap in Hin as (u & Hk & Hu).
  apply (proj1 (list.Forall_forall _ _) Ef) in Hu. congruence.
Qed.

Lemma batch_step_or_add_fold_length (msgs : list MessageItem)
    (res : list bool) (b : MessageBuffer) :
  length (foldl batch_step_or_add (res, b) msgs).1 = length res + length msgs.
Proof.
  revert res b. induction msgs as [|m msgs IH]; intros res b; cbn [foldl].
  - simpl. lia.
  - unfold batch_step_or_add at 2.
    destruct (list_find _ (buffer b)) as [[i e]|]; rewrite IH, length_app;
      simpl; lia.
Qed.

Lemma batch_step_or_add_max (st : list bool * MessageBuffer)
    (m : MessageItem) :
  max_size (batch_step_or_add st m).2 = max_size st.2.
Proof.
  destruct st as [res b]. unfold batch_step_or_add.
  destruct (list_find _ _) as [[i e]|]; cbn [snd].
  - apply carry_order_frame.
  - apply make_room_spec.
Qed.

Lemma batch_step_or_add_fold_max (msgs : list MessageItem)
    (st : list bool * MessageBuffer) :
  max_size (foldl batch_step_or_add st msgs).2 = max_size st.2.
Proof.
  revert st. induction msgs as [|m msgs IH]; intros st; cbn [foldl]; [done|].
  by rewrite IH, batch_step_or_add_max.
Qed.

(** X12.  On a buffer with [max_size > 0], [batch_replace_or_add]
    returns a result list of the length of the batch: no result index is
    out of range.  The bound of the buffer is unchanged, so the next batch
    is served as well.  A message whose (event id, source) pair occurred
    earlier in the batch does not reach the buffer: of such duplicates the
    first one counts.  (With [max_size = 0] and an empty buffer the
    [pop(0)] that makes room raises IndexError: no result is returned.) *)
Theorem batch_replace_or_add_results (msgs : list MessageItem)
    (b : MessageBuffer) :
  0 < max_size b →
  (∃ results, (batch_replace_or_add msgs b).1 = Some results
              ∧ length results = length msgs)
  ∧ max_size (batch_replace_or_add msgs b).2 = max_size b
  ∧ (∀ m, msg_key m ∈ msg_key <$> msgs →
       (batch_replace_or_add (msgs ++ [m]) b).2
       = (batch_replace_or_add msgs b).2).
Proof.
  intros Hmax. split; [|split].
  - unfold batch_replace_or_add.
    destruct (dedup_fold_inv msgs [] [] ltac:(constructor)) as (H1 & H2 & _).
    destruct (foldl dedup_step ([], []) msgs) as [U M]. simpl in H1, H2.
    pose proof (batch_step_or_add_fold_length U [] b) as Hlen.
    destruct (foldl batch_step_or_add ([], b) U) as [res b']. simpl in *.
    assert (His : is_Some (mapM (λ i, res !! i) M)).
    { apply mapM_is_Some. eapply list.Forall_impl; [exact H1|].
      intros i Hi. simpl in *. apply lookup_lt_is_Some. lia. }
    destruct His as [results Hr]. exists results. split; [done|].
    apply length_mapM in Hr. lia.
  - unfold batch_replace_or_add.
    destruct (foldl dedup_step ([], []) msgs) as [U M].
    pose proof (batch_step_or_add_fold_max U ([], b)) as Hm.
    destruct (foldl batch_step_or_add ([], b) U) as [res b']. cbn [snd] in *.
    destruct (sort_if_priority_frame b') as (_ & -> & _). exact Hm.
  - intros m Hm. unfold batch_replace_or_add.
    pose proof (dedup_fold_seen msgs [] [] m (or_intror Hm)) as Hs.
    destruct (foldl dedup_step ([], []) (msgs ++ [m])) as [U1 M1].
    destruct (foldl dedup_step ([], []) msgs) as [U M]. simpl in Hs. subst U1.
    destruct (foldl batch_step_or_add ([], b) U) as [res b']. reflexivity.
Qed.

Lemma batch_replace_or_add_results_witness :
  0 < max_size Fixture.loaded
  ∧ ∃ results,
      (batch_replace_or_add [Fixture.emsc; Fixture.usgs; Fixture.emsc]
         Fixture.loaded).1 = Some results
      ∧ length results = 3.
Proof.
  split; [vm_compute; lia|].
  apply (batch_replace_or_add_results
           [Fixture.emsc; Fixture.usgs; Fixture.emsc] Fixture.loaded).
  vm_compute; lia.
Defined.

Lemma latest_per_source_covers (msgs : list MessageItem) (m : MessageItem) :
  m ∈ msgs →
  ∃ x, x ∈ latest_per_source msgs ∧ x ∈ msgs ∧ source x = source m
       ∧ (timestamp m <= timestamp x)%Q.
Proof.
  revert m.
  induction msgs as [|m0 msgs IH] using rev_ind; intros m Hm.
  - by apply elem_of_nil in Hm.
  - unfold latest_per_source in *. rewrite foldl_snoc.
    set (acc := foldl keep_latest [] msgs) in *.
    assert (Hsub : ∀ x, x ∈ acc → x ∈ msgs)
      by apply (latest_per_source_spec msgs).
    assert (Hnew : ∃ x, x ∈ keep_latest acc m0 ∧ source x = source m0
                        ∧ (x = m0 ∨ x ∈ acc)
                        ∧ (timestamp m0 <= timestamp x)%Q).
    { unfold keep_latest.
      destruct (list_find (λ e, source e = source m0) acc)
        as [[i e]|] eqn:Ef.
      - apply list_find_Some in Ef as (Hi & He & _).
        destruct (Qlt_bool (timestamp e) (timestamp m0)) eqn:Et.
        + exists m0. split; [|split; [done|split; [by left|apply Qle_refl]]].
          apply list_elem_of_lookup. exists i.
          apply list_lookup_insert_eq. by eapply lookup_lt_Some.
        + apply Qlt_bool_false in Et. exists e.
          split; [by eapply list_elem_of_lookup_2|].
          split; [done|]. split; [|done]. right.
          by eapply list_elem_of_lookup_2.
      - exists m0. split; [|split; [done|split; [by left|apply Qle_refl]]].
        apply elem_of_app. right. by apply list_elem_of_singleton. }
    apply elem_of_app in Hm as [Hm|Hm].
    + destruct (IH m Hm) as (x & Hx & Hxm & Hsrc & Hts).
      unfold keep_latest.
      destruct (list_find (λ e, source e = source m0) acc)
        as [[i e]|] eqn:Ef.
      * apply list_find_Some in Ef as (Hi & He & _).
        destruct (Qlt_bool (timestamp e) (timestamp m0)) eqn:Et.
        -- apply list_elem_of_lookup in Hx as [j Hj].
           destruct (decide (j = i)) as [->|Hne].
           ++ assert (x = e) as -> by congruence.
              apply Qlt_bool_true in Et. exists m0.
              split; [|split; [|split]].
              ** apply list_elem_of_lookup. exists i.
                 apply list_lookup_insert_eq. by eapply lookup_lt_Some.
              ** apply elem_of_app. right. by apply list_elem_of_singleton.
              ** congruence.
              ** apply Qlt_le_weak. by eapply Qle_lt_trans.
           ++ exists x. split; [|split; [|done]].
              ** apply list_elem_of_lookup. exists j.
                 rewrite list_lookup_insert_ne; [done|]. congruence.
              ** apply elem_of_app. by left.
        -- exists x. split; [done|]. split; [|done].
           apply elem_of_app. by left.
      * exists x. split; [apply elem_of_app; by left|].
        split; [|done]. apply elem_of_app. by left.
    + apply list_elem_of_singleton in Hm as ->.
      destruct Hnew as (x & Hx & Hsrc & Hor & Hts).
      exists x. split; [done|]. split; [|done].
      apply elem_of_app. destruct Hor as [->|Hor].
      * right. by apply list_elem_of_singleton.
      * left. by apply Hsub.
Qed.

(** X13.  The first loop of [batch_replace_by_source] keeps one message
    per source: every message of the batch is represented by a kept
    message of its source that is at least as recent.  Of two messages of
    one source the later one is kept only when its timestamp is strictly
    greater. *)
Theorem latest_per_source_newest (msgs : list MessageItem) :
  NoDup (source <$> latest_per_source msgs)
  ∧ (∀ m, m ∈ msgs →
       ∃ x, x ∈ latest_per_source msgs ∧ x ∈ msgs ∧ source x = source m
            ∧ (timestamp m <= timestamp x)%Q)
  ∧ (∀ m1 m2, source m1 = source m2 →
       latest_per_source [m1; m2]
       = if Qlt_bool (timestamp m1) (timestamp m2) then [m2] else [m1]).
Proof.
  split; [apply latest_per_source_spec|]. split.
  - apply latest_per_source_covers.
  - intros m1 m2 Hs. unfold latest_per_source. cbn [foldl].
    unfold keep_latest at 2. cbn [list_find app]. unfold keep_latest.
    cbn [list_find]. rewrite decide_True by done. cbn [fmap option_fmap
      option_map prod_map]. simpl.
    destruct (Qlt_bool (timestamp m1) (timestamp m2)); reflexivity.
Qed.

(** ** What a batch reports *)

Lemma batch_fold_results (U : list MessageItem) (res : list bool)
    (b : MessageBuffer) :
  NoDup (source <$> U) → NoDup (source <$> buffer b) →
  length (buffer b) + length U ≤ max_size b →
  let st := foldl batch_step_by_source (res, b) U in
  st.1 = res ++ ((λ u, bool_decide (source u ∈ source <$> buffer b)) <$> U)
  ∧ NoDup (source <$> buffer st.2)
  ∧ (∀ x, x ∈ buffer b → source x ∉ source <$> U → x ∈ buffer st.2)
  ∧ (∀ x, x ∈ buffer st.2 → x ∈ buffer b ∨ source x ∈ source <$> U).
Proof.
  revert res b. induction U as [|u U IH]; intros res b HU Hb Hroom; cbv zeta.
  { cbn [foldl fmap list_fmap fst snd]. rewrite app_nil_r.
    repeat split; auto. }
  rewrite fmap_cons in HU. apply list.NoDup_cons in HU as [Hu HU].
  cbn [foldl].
  destruct (list_find (λ e, source u = source e) (buffer b))
    as [[i e]|] eqn:Ef.
  - assert (Hstep : batch_step_by_source (res, b) u
      = (res ++ [true],
         with_buffer (<[i := keep_image e u]> (buffer (carry_order e u b)))
           (carry_order e u b)))
      by (unfold batch_step_by_source; by rewrite Ef).
    rewrite Hstep. set (b1 := with_buffer _ _).
    apply list_find_Some in Ef as (Hi & Hsrc & _).
    destruct (keep_image_fields e u) as [_ Hks].
    assert (Hb1 : buffer b1 = <[i := keep_image e u]> (buffer b))
      by (unfold b1; simpl; by rewrite carry_order_buffer).
    assert (Hs1 : source <$> buffer b1 = source <$> buffer b).
    { rewrite Hb1. apply (fmap_insert_same source _ _ e); [done|congruence]. }
    assert (Hm1 : max_size b1 = max_size b) by apply carry_order_frame.
    destruct (IH (res ++ [true]) b1) as (I1 & I2 & I3 & I4); [done| | |].
    { by rewrite Hs1. }
    { rewrite Hb1, length_insert, Hm1. simpl in Hroom. lia. }
    split; [|split; [done|split]].
    + rewrite I1, Hs1, <- app_assoc. cbn [fmap list_fmap app]. do 2 f_equal.
      symmetry. apply bool_decide_eq_true_2. rewrite Hsrc.
      apply list_elem_of_fmap_2. by eapply list_elem_of_lookup_2.
    + intros x Hx Hxs. apply I3.
      * apply list_elem_of_lookup in Hx as [j Hj].
        apply list_elem_of_lookup. exists j. rewrite Hb1.
        rewrite list_lookup_insert_ne; [done|]. intros <-.
        apply Hxs. rewrite fmap_cons. apply elem_of_cons. left. congruence.
      * intros H. apply Hxs. rewrite fmap_cons. by right.
    + intros x Hx. destruct (I4 x Hx) as [H|H].
      * rewrite Hb1 in H. apply elem_of_insert_inv in H as [->|H]; [|by left].
        right. rewrite fmap_cons, Hks. by left.
      * right. rewrite fmap_cons. by right.
  - assert (Hstep : batch_step_by_source (res, b) u
      = (res ++ [false], append_new u (make_room b)))
      by (unfold batch_step_by_source; by rewrite Ef).
    rewrite Hstep. set (b1 := append_new u (make_room b)).
    apply list_find_None in Ef.
    assert (Hnew : source u ∉ source <$> buffer b).
    { intros (x & Hx & Hin)%list_elem_of_fmap.
      by apply (proj1 (list.Forall_forall _ _) Ef) in Hin. }
    destruct (make_room_spec b) as (Hmax & _ & _ & Hcases).
    assert (Hmr : buffer (make_room b) = buffer b).
    { destruct Hcases as [(H & _)|(x & _ & Hfull & _)]; [done|].
      simpl in Hroom. lia. }
    assert (Hb1 : buffer b1 = buffer b ++ [u])
      by (unfold b1; simpl; by rewrite Hmr).
    assert (Hm1 : max_size b1 = max_size b) by exact Hmax.
    destruct (IH (res ++ [false]) b1) as (I1 & I2 & I3 & I4); [done| | |].
    { rewrite Hb1, fmap_app. apply list.NoDup_app. split; [done|].
      split; [|apply list.NoDup_singleton].
      intros y Hy Hy'. apply list_elem_of_singleton in Hy'. by subst y. }
    { rewrite Hb1, length_app, Hm1. simpl in *. lia. }
    split; [|split; [done|split]].
    + rewrite I1, <- app_assoc. cbn [fmap list_fmap app]. f_equal.
      rewrite bool_decide_eq_false_2 by done. f_equal.
      apply list_fmap_ext. intros j x Hj.
      apply bool_decide_ext. rewrite Hb1, fmap_app, elem_of_app.
      split; [|by left]. intros [H|H]; [done|].
      apply list_elem_of_singleton in H. exfalso. apply Hu. rewrite <- H.
      apply list_elem_of_fmap_2. by eapply list_elem_of_lookup_2.
    + intros x Hx Hxs. apply I3.
      * rewrite Hb1. apply elem_of_app. by left.
      * intros H. apply Hxs. rewrite fmap_cons. by right.
    + intros x Hx. destruct (I4 x Hx) as [H|H].
      * rewrite Hb1 in H. apply elem_of_app in H as [H|H]; [by left|].
        apply list_elem_of_singleton in H as ->. right. rewrite fmap_cons.
        by left.
      * right. rewrite fmap_cons. by right.
Qed.

Lemma find_by_source_unique (b : MessageBuffer) (x : MessageItem) :
  NoDup (source <$> buffer b) → x ∈ buffer b →
  find_by_source (source x) b = Some x.
Proof.
  intros Hnd Hx. unfold find_by_source.
  destruct (list_find (λ msg, source msg = source x) (buffer b))
    as [[i y]|] eqn:Ef; simpl.
  - apply list_find_Some in Ef as (Hi & Hy & _). f_equal.
    apply (NoDup_fmap_eq source (buffer b)); [done| |done..].
    by eapply list_elem_of_lookup_2.
  - apply list_find_None in Ef.
    by apply (proj1 (list.Forall_forall _ _) Ef) in Hx.
Qed.

Lemma find_by_source_none (b : MessageBuffer) (s : pystr) :
  (∀ x, x ∈ buffer b → source x ≠ s) → find_by_source s b = None.
Proof.
  intros H. unfold find_by_source.
  destruct (list_find (λ msg, source msg = s) (buffer b))
    as [[i y]|] eqn:Ef; [|done].
  apply list_find_Some in Ef as (Hi & Hy & _).
  exfalso. apply (H y); [by eapply list_elem_of_lookup_2|done].
Qed.

(** X14.  A batch that fits into a buffer with one entry per source
    reports for every message whether its source had an entry before the
    call, and leaves the entries of the sources outside the batch in
    place. *)
Theorem batch_replace_by_source_results (msgs : list MessageItem)
    (b : MessageBuffer) :
  NoDup (source <$> buffer b) →
  length (buffer b) + length msgs ≤ max_size b →
  let r := batch_replace_by_source msgs b in
  r.1 = (λ m, bool_decide (source m ∈ source <$> buffer b)) <$> msgs
  ∧ (∀ s, s ∉ source <$> msgs → find_by_source s r.2 = find_by_source s b).
Proof.
  intros Hnd Hroom r.
  destruct (latest_per_source_spec msgs) as [HU Hsub].
  pose proof (length_latest_per_source msgs) as HlenU.
  destruct (batch_fold_results (latest_per_source msgs) [] b HU Hnd)
    as (F1 & F2 & F3 & F4); [lia|].
  assert (Hr2 : r.2 = sort_if_priority
    (foldl batch_step_by_source ([], b) (latest_per_source msgs)).2)
    by apply batch_replace_by_source_buffer.
  assert (Hr1 : r.1 = (λ m,
      match list_find (λ msg, source msg = source m)
              (latest_per_source msgs) with
      | Some (i, _) =>
          default false
            ((foldl batch_step_by_source ([], b) (latest_per_source msgs)).1
             !! i)
      | None => false
      end) <$> msgs).
  { unfold r, batch_replace_by_source.
    by destruct (foldl batch_step_by_source ([], b) (latest_per_source msgs)). }
  destruct (foldl batch_step_by_source ([], b) (latest_per_source msgs))
    as [ures b2]. cbn [fst snd] in *.
  split.
  - rewrite Hr1. apply list_fmap_ext. intros j m Hj.
    destruct (latest_per_source_covers msgs m) as (x & Hx & _ & Hxs & _).
    { by eapply list_elem_of_lookup_2. }
    destruct (list_find (λ msg, source msg = source m) (latest_per_source msgs))
      as [[i y]|] eqn:Ef.
    + apply list_find_Some in Ef as (Hi & Hy & _).
      rewrite F1. cbn [app]. rewrite list_lookup_fmap, Hi. simpl.
      by rewrite Hy.
    + apply list_find_None in Ef.
      by apply (proj1 (list.Forall_forall _ _) Ef) in Hx.
  - intros s Hs. rewrite Hr2.
    destruct (sort_if_priority_frame b2) as (Hperm & _).
    assert (Hnd' : NoDup (source <$> buffer (sort_if_priority b2)))
      by (by rewrite Hperm).
    assert (HsU : s ∉ source <$> latest_per_source msgs).
    { intros (x & -> & Hx)%list_elem_of_fmap. apply Hs.
      apply list_elem_of_fmap_2. by apply Hsub. }
    destruct (find_by_source s b) as [x|] eqn:Efb.
    + unfold find_by_source in Efb.
      destruct (list_find (λ msg, source msg = s) (buffer b))
        as [[i y]|] eqn:Ef; [|discriminate].
      apply list_find_Some in Ef as (Hi & Hy & _).
      simpl in Efb. injection Efb as ->. subst s.
      apply find_by_source_unique; [done|]. rewrite Hperm. apply F3; [|done].
      by eapply list_elem_of_lookup_2.
    + apply find_by_source_none. intros x Hx Hxs. rewrite Hperm in Hx.
      destruct (F4 x Hx) as [H|H].
      * rewrite <- Hxs in Efb.
        by rewrite (find_by_source_unique b x Hnd H) in Efb.
      * apply HsU. by rewrite <- Hxs.
Qed.

Lemma batch_replace_by_source_results_witness :
  (batch_replace_by_source [Samples.hko; Fixture.cenc] Fixture.loaded).1
  = [false; true].
Proof.
  destruct (batch_replace_by_source_results [Samples.hko; Fixture.cenc]
              Fixture.loaded) as [H _].
  - apply (bool_decide_unpack _). vm_compute. reflexivity.
  - vm_compute. lia.
  - rewrite H. vm_compute. reflexivity.
Defined.

(** ** The interrupting warning in the warning buffer *)




(** ** Removal *)

(** X15.  [remove_by_event_id] removes the entry [find_by_event_id]
    returns, and only that one: it reports [True], forgets the entry's add
    order, and every other entry stays.  Without such an entry it reports
    [False] and changes nothing.  An index that was in range is in range
    afterwards. *)
Theorem remove_by_event_id_spec (e s : pystr) (b : MessageBuffer) :
  let r := remove_by_event_id e s b in
  (∀ m, find_by_event_id e s b = Some m →
     r.1 = true ∧ buffer b ≡ₚ m :: buffer r.2
     ∧ _message_add_order r.2 = delete (oid m) (_message_add_order b)
     ∧ max_size r.2 = max_size b)
  ∧ (find_by_event_id e s b = None → r = (false, b))
  ∧ (current_index b < length (buffer b) → buffer r.2 ≠ [] →
     current_index r.2 < length (buffer r.2)).
Proof.
  unfold remove_by_event_id, find_by_event_id.
  destruct (list_find (λ msg, event_id msg = e ∧ source msg = s) (buffer b))
    as [[i x]|] eqn:Ef; cbn [fmap option_fmap option_map snd fst].
  2:{ split; [discriminate|]. split; [done|]. tauto. }
  apply list_find_Some in Ef as (Hi & _ & _).
  set (b1 := with_order _ _ _).
  set (b2 := if i <? current_index b1 then _ else _).
  assert (Hb1 : buffer b1 = delete i (buffer b)) by reflexivity.
  assert (Hb2 : buffer b2 = delete i (buffer b)
                ∧ _message_add_order b2 = delete (oid x) (_message_add_order b)
                ∧ max_size b2 = max_size b
                ∧ use_priority b2 = use_priority b).
  { unfold b2. destruct (i <? current_index b1); [done|].
    destruct (current_index b1 =? i); [|done].
    destruct (length (buffer b1) <=? current_index b1); done. }
  destruct Hb2 as (Hbuf2 & Hao2 & Hmax2 & Hup2).
  destruct (sort_if_priority_frame b2) as (Hp & Hmax & _ & _ & Hao & _).
  split; [|split; [discriminate|]].
  - intros m [= <-]. split; [done|]. split; [|split].
    + rewrite Hp, Hbuf2. by apply delete_Permutation.
    + by rewrite Hao, Hao2.
    + by rewrite Hmax, Hmax2.
  - intros Hci Hne.
    assert (Hlen : length (delete i (buffer b)) = length (buffer b) - 1).
    { apply length_delete. by eexists. }
    assert (Hil : i < length (buffer b)) by (by eapply lookup_lt_Some).
    assert (Hne2 : buffer b2 ≠ []).
    { intros H0. apply Hne. apply Permutation_nil_r. by rewrite <- H0, Hp. }
    unfold sort_if_priority in *. destruct (use_priority b2).
    + by apply _sort_by_priority_index.
    + assert (0 < length (buffer b2))
        by (destruct (buffer b2); simpl; [done|lia]).
      rewrite Hbuf2 in *. unfold b2.
      change (current_index b1) with (current_index b).
      destruct (i <? current_index b) eqn:E1.
      * apply Nat.ltb_lt in E1. simpl. lia.
      * apply Nat.ltb_ge in E1.
        destruct (current_index b =? i) eqn:E2.
        -- rewrite Hb1.
           destruct (length (delete i (buffer b)) <=? current_index b) eqn:E3;
             simpl; [lia|]. apply Nat.leb_gt in E3. exact E3.
        -- apply Nat.eqb_neq in E2. simpl. lia.
Qed.

(** ** Reading the rotation *)

Lemma list_find_oid (l : list MessageItem) (k : nat) (m : MessageItem) :
  NoDup (oid <$> l) → l !! k = Some m →
  list_find (λ x, oid x = oid m) l = Some (k, m).
Proof.
  intros Hnd Hk. apply list_find_Some. split; [done|]. split; [done|].
  intros j y Hj Hjk Hy.
  assert (j = k); [|lia].
  eapply (NoDup_lookup _ _ _ _ Hnd).
  - rewrite list_lookup_fmap, Hj. simpl. by rewrite Hy.
  - by rewrite list_lookup_fmap, Hk.
Qed.

Lemma get_next_plain (b : MessageBuffer) :
  use_priority b = false → buffer b ≠ [] →
  let i := S (current_index b) `mod` length (buffer b) in
  ∃ m, buffer b !! i = Some m
       ∧ get_next b = (Some m, with_displaying (Some (oid m)) (with_index i b)).
Proof.
  intros Hp Hne. cbv zeta. unfold get_next. rewrite Hp.
  destruct (buffer b) as [|x l] eqn:Hb; [done|].
  cbn [buffer with_index current_index]. rewrite Hb.
  set (i := S (current_index b) `mod` length (x :: l)).
  assert (Hi : i < length (x :: l))
    by (apply Nat.mod_upper_bound; simpl; lia).
  apply lookup_lt_is_Some in Hi as [m Hm]. exists m. by rewrite Hm.
Qed.

(** X16.  [get_current] answers with an entry of the buffer whenever there
    is one and does not touch the entries.  On a buffer without repeated
    objects it is stable (a second call returns the same message and the
    same state) and, called after [get_next], it returns the message
    [get_next] returned. *)
Theorem get_current_stable (b : MessageBuffer) :
  (buffer b ≠ [] → ∃ m, (get_current b).1 = Some m ∧ m ∈ buffer b)
  ∧ buffer (get_current b).2 = buffer b
  ∧ (NoDup (oid <$> buffer b) →
     get_current (get_current b).2 = get_current b
     ∧ ∀ m, (get_next b).1 = Some m →
            get_current (get_next b).2 = (Some m, (get_next b).2)).
Proof.
  assert (Hcases :
    buffer b ≠ [] →
    (∃ k m, buffer b !! k = Some m
            ∧ _current_displaying_msg_id b = Some (oid m)
            ∧ get_current b = (Some m, with_index k b))
    ∨ (∃ k m, buffer b !! k = Some m
              ∧ get_current b
                = (Some m, with_displaying (Some (oid m)) (with_index k b)))).
  { intros Hne. unfold get_current.
    destruct (buffer b) as [|x l] eqn:Hb; [done|]. rewrite <- Hb.
    destruct (match _current_displaying_msg_id b with
              | Some i => list_find (λ m, oid m = i) (buffer b)
              | None => None
              end) as [[k m]|] eqn:Ef.
    - left. exists k, m. destruct (_current_displaying_msg_id b) as [d|];
        [|discriminate].
      apply list_find_Some in Ef as (Hk & <- & _). done.
    - right.
      destruct (length (buffer b) <=? current_index b) eqn:E.
      + exists 0, x. cbn [buffer current_index with_index].
        rewrite Hb. simpl. split; [done|reflexivity].
      + apply Nat.leb_gt in E.
        apply lookup_lt_is_Some in E as [m Hm]. exists (current_index b), m.
        rewrite Hm. split; [done|]. by destruct b. }
  assert (Hemp : buffer b = [] ∨ buffer b ≠ [])
    by (destruct (buffer b); [by left|by right]).
  split; [|split].
  - intros Hne. destruct (Hcases Hne) as [(k & m & Hk & _ & ->)|(k & m & Hk & ->)];
      exists m; (split; [done|by eapply list_elem_of_lookup_2]).
  - destruct Hemp as [Hb|Hne].
    + unfold get_current. by rewrite Hb.
    + by destruct (Hcases Hne) as [(k & m & Hk & _ & ->)|(k & m & Hk & ->)].
  - intros Hnd.
    assert (Hseen : ∀ (c : MessageBuffer) k m,
      buffer c !! k = Some m → NoDup (oid <$> buffer c) →
      get_current (with_displaying (Some (oid m)) (with_index k c))
      = (Some m, with_displaying (Some (oid m)) (with_index k c))).
    { intros c k m Hk Hc. unfold get_current.
      cbn [buffer with_displaying with_index _current_displaying_msg_id].
      rewrite (list_find_oid _ _ _ Hc Hk).
      destruct (buffer c) as [|x l] eqn:Hb; [done|].
      by destruct c. }
    split.
    + destruct Hemp as [Hb|Hne].
      * unfold get_current. rewrite Hb. simpl. by rewrite Hb.
      * destruct (Hcases Hne) as [(k & m & Hk & Hd & ->)|(k & m & Hk & ->)];
          cbn [snd].
        -- replace (with_index k b)
             with (with_displaying (Some (oid m)) (with_index k b))
             by (destruct b; simpl in *; by rewrite Hd).
           by apply Hseen.
        -- by apply Hseen.
    + intros m Hm.
      destruct Hemp as [Hb|Hne].
      { unfold get_next in Hm. by rewrite Hb in Hm. }
      destruct (use_priority b) eqn:Hp.
      * destruct (get_next_priority b Hp Hne) as (m' & Hk & Hg).
        rewrite Hg in Hm |- *. cbn [fst snd] in *. injection Hm as ->.
        apply (Hseen (with_buffer (sorted_buffer b) b)); [done|].
        cbn [buffer with_buffer]. unfold sorted_buffer.
        by rewrite py_sort_perm.
      * destruct (get_next_plain b Hp Hne) as (m' & Hk & Hg).
        rewrite Hg in Hm |- *. cbn [fst snd] in *. injection Hm as ->.
        by apply Hseen.
Qed.

(** X17.  Without priorities [get_next] walks the buffer in its own order,
    starting after [current_index] and wrapping around: the [j]-th call
    returns the entry at position [(current_index + 1 + j) mod n]. *)
Theorem get_next_plain_rotation (k : nat) (b : MessageBuffer) :
  use_priority b = false → buffer b ≠ [] →
  get_next_run k b
  = (λ j, buffer b !! ((current_index b + 1 + j) `mod` length (buffer b)))
    <$> seq 0 k.
Proof.
  revert b. induction k as [|k IH]; intros b Hp Hne; [reflexivity|].
  cbn [get_next_run].
  destruct (get_next_plain b Hp Hne) as (m & Hm & ->).
  rewrite IH by done. cbn [seq fmap list_fmap]. f_equal.
  - rewrite <- Hm. f_equal. f_equal. lia.
  - rewrite <- fmap_S_seq, <- list_fmap_compose. apply list_fmap_ext.
    intros i j _. cbn [compose buffer with_displaying with_index current_index].
    f_equal.
    assert (length (buffer b) ≠ 0) by (destruct (buffer b); simpl; [done|lia]).
    replace (S (current_index b) `mod` length (buffer b) + 1 + j)
      with (S (current_index b) `mod` length (buffer b) + (1 + j)) by lia.
    rewrite Nat.Div0.add_mod_idemp_l. f_equal. lia.
Qed.

Lemma get_next_plain_rotation_witness :
  get_next_run 3 Samples.plain
  = [Some Fixture.cenc; Some Fixture.usgs; Some Fixture.cenc].
Proof.
  rewrite (get_next_plain_rotation 3 Samples.plain).
  - vm_compute. reflexivity.
  - reflexivity.
  - vm_compute. discriminate.
Defined.

(** ** Validity of warnings *)

(** X18.  For a warning that has not been displayed and carries its shock
    time, the expiry sweep applies the admission test: it keeps the
    warning exactly when [_is_warning_valid] would still admit it. *)
Theorem sweep_agrees_with_admission (sv : Services) (now now_tz : Q)
    (m : MessageItem) (pd : ParsedData) :
  first_displayed_at m = None →
  shock_time m = Some (pd_shock_time pd) → pd_shock_time pd ≠ [] →
  _is_warning_still_valid sv now now_tz m = _is_warning_valid sv now_tz pd.
Proof.
  intros Hf Hs Hne. unfold _is_warning_still_valid, _is_warning_valid.
  rewrite Hf, Hs. destruct (pd_shock_time pd) as [|c s]; [done|]. reflexivity.
Qed.

Lemma sweep_agrees_with_admission_witness :
  _is_warning_still_valid Fixture.services (secs 100) (secs 100)
    Fixture.jma_warning
  = _is_warning_valid Fixture.services (secs 100) Samples.jma_event.
Proof.
  apply (sweep_agrees_with_admission Fixture.services (secs 100) (secs 100)
           Fixture.jma_warning Samples.jma_event).
  - reflexivity.
  - reflexivity.
  - vm_compute. discriminate.
Defined.

Lemma Qminus_le_l (a b c : Q) : (a <= b)%Q → (a - c <= b - c)%Q.
Proof.
  intros H. unfold Qminus. apply Qplus_le_compat; [exact H|apply Qle_refl].
Qed.

Lemma Qle_bool_false (a b : Q) : Qle_bool a b = false ↔ (b < a)%Q.
Proof.
  split.
  - intros H. apply Qnot_le_lt. intros Hle.
    apply Qle_bool_iff in Hle. congruence.
  - intros H. destruct (Qle_bool a b) eqn:E; [|done].
    apply Qle_bool_iff in E. by apply Qlt_not_le in H.
Qed.

(** X19.  Expiry is final: a warning that the sweep's validity test
    rejects at one instant is rejected at every later instant, and an
    event that the admission test rejects is rejected from then on. *)
Theorem expired_stays_expired (sv : Services) (now now_tz now' now_tz' : Q) :
  (now <= now')%Q → (now_tz <= now_tz')%Q →
  (∀ m, _is_warning_still_valid sv now now_tz m = false →
        _is_warning_still_valid sv now' now_tz' m = false)
  ∧ (∀ pd, _is_warning_valid sv now_tz pd = false →
           _is_warning_valid sv now_tz' pd = false).
Proof.
  intros Hn Hz.
  assert (Hshock : ∀ t lim, Qle_bool (now_tz - t) lim = false →
                            Qle_bool (now_tz' - t) lim = false).
  { intros t lim H. apply Qle_bool_false in H. apply Qle_bool_false.
    eapply Qlt_le_trans; [exact H|]. by apply Qminus_le_l. }
  split.
  - intros m. unfold _is_warning_still_valid.
    destruct (first_displayed_at m) as [shown|].
    + intros H. apply Qlt_bool_false in H. apply Qlt_bool_false.
      eapply Qle_trans; [exact H|]. by apply Qminus_le_l.
    + destruct (negb (truthy _)); [done|].
      destruct (parse_display_time sv _) as [t|]; [|done]. apply Hshock.
  - intros pd. unfold _is_warning_valid.
    destruct (negb (nonempty _)); [done|].
    destruct (parse_display_time sv _) as [t|]; [|done]. apply Hshock.
Qed.

Lemma expired_stays_expired_witness :
  _is_warning_still_valid Fixture.services (secs 500) (secs 500)
    Fixture.shown_warning = false.
Proof.
  apply (proj1 (expired_stays_expired Fixture.services
                  (secs 400) (secs 400) (secs 500) (secs 500)
                  ltac:(apply Qle_bool_iff; reflexivity)
                  ltac:(apply Qle_bool_iff; reflexivity))).
  vm_compute. reflexivity.
Defined.

Lemma filter_filter_same {A} (P : A → Prop) `{!∀ x, Decision (P x)}
    (l : list A) :
  filter P (filter P l) = filter P l.
Proof.
  induction l as [|x l IH]; [done|]. rewrite filter_cons.
  destruct (decide (P x)) as [Hx|Hx]; [|exact IH].
  rewrite filter_cons, decide_True by done. by rewrite IH.
Qed.

Lemma _clean_expired_warnings_keeps (sv : Services) (now now_tz : Q)
    (w : MainWindow) :
  let r := _clean_expired_warnings sv now now_tz w in
  message_queue r.2 = message_queue w
  ∧ report_buffer r.2 = report_buffer w
  ∧ scrolling_text r.2 = scrolling_text w
  ∧ current_display_type r.2 = current_display_type w
  ∧ _current_displaying_message r.2 = _current_displaying_message w
  ∧ _pending_update_message r.2 = _pending_update_message w
  ∧ _switching_to_report r.2 = _switching_to_report w
  ∧ (r.1 = true →
     buffer (warning_buffer w) ≠ [] ∧ buffer (warning_buffer r.2) = []
     ∧ current_display_type w = Some warning).
Proof.
  intros r.
  pose proof (_clean_expired_warnings_buffer sv now now_tz w) as Hbuf.
  fold r in Hbuf.
  unfold r, _clean_expired_warnings.
  set (P := λ msg, _is_warning_still_valid sv now now_tz msg = true).
  destruct (0 <? _) eqn:E; [|done].
  apply Nat.ltb_lt in E.
  assert (buffer (warning_buffer w) ≠ []).
  { intros H0. rewrite H0 in E. simpl in E. lia. }
  set (wb := if _ <=? _ then _ else _).
  assert (Hwb : buffer wb = filter P (buffer (warning_buffer w))).
  { unfold wb. by destruct (_ <=? _). }
  destruct (buffer wb) as [|x l] eqn:Hb.
  - destruct (current_display_type w) as [[|]|] eqn:Ed; simpl;
      rewrite ?Ed; repeat split; try done.
  - simpl. repeat split; done.
Qed.

(** X20.  The expiry sweep changes the warning buffer only: queue, report
    buffer, sink and display state stay as they are, and what remains of
    the warning buffer is a subsequence of it.  It answers [True] only
    when it has emptied the buffer in warning mode.  A second sweep at the
    same instant finds nothing to remove. *)
Theorem _clean_expired_warnings_frame (sv : Services) (now now_tz : Q)
    (w : MainWindow) :
  let r := _clean_expired_warnings sv now now_tz w in
  message_queue r.2 = message_queue w
  ∧ report_buffer r.2 = report_buffer w
  ∧ scrolling_text r.2 = scrolling_text w
  ∧ current_display_type r.2 = current_display_type w
  ∧ _current_displaying_message r.2 = _current_displaying_message w
  ∧ buffer (warning_buffer r.2) `sublist_of` buffer (warning_buffer w)
  ∧ (r.1 = true →
     buffer (warning_buffer w) ≠ [] ∧ buffer (warning_buffer r.2) = []
     ∧ current_display_type w = Some warning)
  ∧ _clean_expired_warnings sv now now_tz r.2 = (false, r.2).
Proof.
  intros r.
  pose proof (_clean_expired_warnings_buffer sv now now_tz w) as Hbuf.
  fold r in Hbuf.
  destruct (_clean_expired_warnings_keeps sv now now_tz w)
    as (H1 & H2 & H3 & H4 & H5 & _ & _ & H6). fold r in H1, H2, H3, H4, H5, H6.
  repeat (split; [done|]). split; [|split; [done|]].
  - rewrite Hbuf. apply sublist_filter.
  - unfold _clean_expired_warnings. rewrite Hbuf.
    rewrite filter_filter_same. rewrite Nat.sub_diag. reflexivity.
Qed.

(** ** Receiving and processing *)

Lemma queue_put_length (n : nat) (item : MessageItem) (q : list MessageItem) :
  0 < n → length q ≤ n → length (queue_put n item q) ≤ n.
Proof.
  intros Hn Hq. unfold queue_put.
  destruct ((0 <? n) && (n <=? length q)) eqn:E.
  - rewrite length_app, length_drop. simpl. lia.
  - rewrite length_app. simpl.
    apply andb_false_iff in E as [E|E].
    + apply Nat.ltb_ge in E. lia.
    + apply Nat.leb_gt in E. lia.
Qed.

(** X21.  Receiving an event that is not a JMA cancellation changes
    neither the buffers nor the display: at most it puts one new message
    on the queue, stamped with the source name and the arrival time and
    not yet displayed; a queue of at most 100 messages stays so. *)
Theorem on_message_received_only_enqueues (sv : Services) (now now_tz : Q)
    (source_name : pystr) (pd : ParsedData) (w : MainWindow) :
  ¬ (pd_type pd = Some (cp "warning") ∧ source_name = cp "jma"
     ∧ pd_cancel pd = true) →
  let w' := on_message_received sv now now_tz source_name pd w in
  warning_buffer w' = warning_buffer w
  ∧ report_buffer w' = report_buffer w
  ∧ scrolling_text w' = scrolling_text w
  ∧ current_display_type w' = current_display_type w
  ∧ _current_displaying_message w' = _current_displaying_message w
  ∧ _pending_update_message w' = _pending_update_message w
  ∧ (w' = w
     ∨ ∃ item, message_queue w' = queue_put 100 item (message_queue w)
               ∧ oid item = next_oid w ∧ next_oid w' = S (next_oid w)
               ∧ source item = source_name ∧ timestamp item = now
               ∧ event_id item = pd_event_id pd
               ∧ format_message sv pd = Some (text item) ∧ text item ≠ []
               ∧ first_displayed_at item = None)
  ∧ (length (message_queue w) ≤ 100 → length (message_queue w') ≤ 100).
Proof.
  intros Hnc w'.
  assert (Hcases : w' = w
     ∨ ∃ item, w' = with_queue (queue_put 100 item (message_queue w))
                      (with_next_oid (S (next_oid w)) w)
               ∧ oid item = next_oid w
               ∧ source item = source_name ∧ timestamp item = now
               ∧ event_id item = pd_event_id pd
               ∧ format_message sv pd = Some (text item) ∧ text item ≠ []
               ∧ first_displayed_at item = None).
  { unfold w', on_message_received.
    destruct (str_eqb (default (cp "report") (pd_type pd)) (cp "warning")
              && str_eqb source_name (cp "jma") && pd_cancel pd) eqn:Ec.
    { exfalso. apply Hnc.
      apply andb_true_iff in Ec as [Ec Hc].
      apply andb_true_iff in Ec as [Ht Hs].
      apply str_eqb_true in Ht, Hs. split; [|done].
      destruct (pd_type pd) as [t|]; simpl in Ht; [by subst|].
      by vm_compute in Ht. }
    destruct (_ && negb _); [by left|].
    destruct (format_message sv pd) as [[|c t]|] eqn:Ef; [by left| |by left].
    right. eexists. split; [reflexivity|]. simpl. by repeat split. }
  destruct Hcases as [->|(item & -> & Hitem)].
  - repeat (split; [done|]). split; [by left|done].
  - repeat (split; [done|]). split.
    + right. exists item. simpl. tauto.
    + intros Hl. simpl. apply queue_put_length; [lia|done].
Qed.

Lemma on_message_received_only_enqueues_witness :
  let w' := on_message_received Fixture.services (secs 1) (secs 1)
              (cp "usgs") Samples.usgs_event new_window in
  warning_buffer w' = warning_buffer new_window
  ∧ report_buffer w' = report_buffer new_window
  ∧ scrolling_text w' = scrolling_text new_window
  ∧ length (message_queue w') ≤ 100.
Proof.
  destruct (on_message_received_only_enqueues Fixture.services
              (secs 1) (secs 1) (cp "usgs") Samples.usgs_event new_window)
    as (H1 & H2 & H3 & _ & _ & _ & _ & H8).
  - intros (H & _). vm_compute in H. discriminate.
  - cbv zeta. split; [exact H1|]. split; [exact H2|]. split; [exact H3|].
    apply H8. simpl. lia.
Defined.

Lemma _switch_to_warning_mode_queue (now : Q) (m : MessageItem) (f : bool)
    (w : MainWindow) :
  message_queue (_switch_to_warning_mode now m f w) = message_queue w.
Proof.
  unfold _switch_to_warning_mode, mark_first_display.
  destruct (update_text _ _ _ _ _ _) as [[|] st];
    repeat match goal with
      | |- context [if ?c then _ else _] => destruct c
      | |- context [match ?x with _ => _ end] => destruct x
      end; reflexivity.
Qed.

Lemma process_warnings_queue (now : Q) (l : list MessageItem)
    (w : MainWindow) :
  message_queue (process_warnings now l w) = message_queue w.
Proof.
  unfold process_warnings.
  destruct (batch_replace_by_source l (warning_buffer w)) as [res wb].
  destruct (current_display_type w) as [[|]|];
    repeat match goal with
      | |- context [if ?c then _ else _] => destruct c
      | |- context [match ?x with _ => _ end] => destruct x
      end; cbn [message_queue with_display_type];
    rewrite ?_switch_to_warning_mode_queue; reflexivity.
Qed.

Lemma process_reports_queue (l : list MessageItem) (h : bool)
    (w : MainWindow) :
  message_queue (process_reports l h w) = message_queue w.
Proof.
  unfold process_reports.
  destruct (batch_replace_by_source l (report_buffer w)) as [res rb].
  set (w0 := with_report_buffer rb w).
  assert (H0 : message_queue w0 = message_queue w) by done.
  clearbody w0. revert w0 H0.
  induction (zip res l) as [|[u msg] z IH]; intros w0 H0; simpl.
  - destruct (negb h && negb (is_scrolling (scrolling_text w))); exact H0.
  - apply IH. destruct u; [|exact H0].
    destruct (_current_displaying_message w0) as [cur|]; [|exact H0].
    destruct (str_eqb (source cur) (source msg)); [|exact H0].
    destruct (find_by_source _ _); exact H0.
Qed.

(** X22.  One run of [process_messages] takes the five oldest messages of
    the queue (all of them when there are fewer) and leaves the others
    queued in their order.  A run that takes no warning makes no
    [update_text] call and changes neither the warning buffer nor the
    display mode: reports are buffered, they never interrupt. *)
Theorem process_messages_takes_five (sv : Services) (now : Q)
    (w : MainWindow) :
  let w' := process_messages sv now w in
  message_queue w' = drop 5 (message_queue w)
  ∧ (Forall (λ m, message_type m ≠ cp "warning") (take 5 (message_queue w)) →
     scrolling_text w' = scrolling_text w
     ∧ warning_buffer w' = warning_buffer w
     ∧ current_display_type w' = current_display_type w).
Proof.
  intros w'. split.
  - unfold w', process_messages.
    repeat match goal with
      | |- context [if ?c then _ else _] => destruct c
      end;
      rewrite ?process_reports_queue, ?process_warnings_queue; reflexivity.
  - intros Hnw. unfold w', process_messages.
    assert (Hno : List.filter
                    (λ msg, str_eqb (message_type msg) (cp "warning"))
                    (take 5 (message_queue w)) = []).
    { induction (take 5 (message_queue w)) as [|x l IH]; [done|].
      inversion Hnw as [|? ? Hx Hl]; subst. simpl.
      apply str_eqb_false in Hx. rewrite Hx. by apply IH. }
    rewrite Hno. cbn [nonempty].
    destruct (_ && _); [|done].
    match goal with
    | |- context [process_reports ?l ?h ?w0] =>
        destruct (process_reports_frame l h w0) as (H1 & H2 & H3)
    end.
    rewrite H1, H2, H3. done.
Qed.

Lemma stamp_first_display_twice (t1 t2 : Q) (m : MessageItem) :
  stamp_first_display t2 (stamp_first_display t1 m) = stamp_first_display t1 m.
Proof.
  unfold stamp_first_display at 2 3.
  destruct (first_displayed_at m) eqn:E; unfold stamp_first_display.
  - by rewrite E.
  - reflexivity.
Qed.

(** X23.  The time of the first display is written once: marking a
    message as displayed again, at any later time, changes nothing, so
    the minimum display time always counts from the first display. *)
Theorem first_display_is_kept (t1 t2 : Q) (m : MessageItem) (w : MainWindow) :
  mark_first_display t2 m (mark_first_display t1 m w)
  = mark_first_display t1 m w.
Proof.
  unfold mark_first_display.
  destruct (str_eqb (message_type m) (cp "warning")); [|reflexivity].
  assert (Hl : ∀ l : list MessageItem,
    Alias.on_object (oid m) (stamp_first_display t2)
    <$> (Alias.on_object (oid m) (stamp_first_display t1) <$> l)
    = Alias.on_object (oid m) (stamp_first_display t1) <$> l).
  { intros l. rewrite <- list_fmap_compose. apply list_fmap_ext.
    intros i x _. unfold compose, Alias.on_object.
    destruct (oid x =? oid m) eqn:E.
    - assert (oid (stamp_first_display t1 x) = oid x) as ->
        by (unfold stamp_first_display; by destruct (first_displayed_at x)).
      rewrite E. apply stamp_first_display_twice.
    - by rewrite E. }
  assert (Ho : ∀ o : option MessageItem,
    Alias.on_object (oid m) (stamp_first_display t2)
    <$> (Alias.on_object (oid m) (stamp_first_display t1) <$> o)
    = Alias.on_object (oid m) (stamp_first_display t1) <$> o).
  { intros [x|]; [|done]. simpl. f_equal.
    specialize (Hl [x]). by injection Hl. }
  unfold Alias.assign. destruct w as [q wb rb st d sw cur pend tm no].
  destruct wb, rb. cbn. rewrite !Hl, !Ho. reflexivity.
Qed.

(** ** The renderer's guards *)

(** X24.  [format_message] yields a text for a warning only when the
    event passes the admission test, is not a cancelled JMA event, and
    the formatter produced a text that is not blank.  Hence a cancelled
    JMA event that arrives under another connection name than "jma" is
    dropped by [on_message_received] without any effect. *)
Theorem format_message_guards (sv : Services) (now_tz : Q)
    (fw fr fwe fg : ParsedData → option pystr) (pd : ParsedData) :
  pd_type pd = Some (cp "warning") →
  (∀ t, MessageProcessor.format_message sv now_tz fw fr fwe fg pd = Some t →
     fw pd = Some t ∧ strip t ≠ []
     ∧ _is_warning_valid sv now_tz pd = true
     ∧ ¬ (pd_source_type pd = cp "jma" ∧ pd_cancel pd = true))
  ∧ (pd_source_type pd = cp "jma" → pd_cancel pd = true →
     ∀ now source_name w,
       source_name ≠ cp "jma" →
       on_message_received
         (MessageProcessor.services sv now_tz fw fr fwe fg)
         now now_tz source_name pd w = w).
Proof.
  intros Hty.
  assert (Hw : str_eqb (default (cp "report") (pd_type pd)) (cp "warning")
               = true) by (rewrite Hty; by apply str_eqb_true).
  split.
  - intros t. unfold MessageProcessor.format_message. rewrite Hw.
    destruct (str_eqb (pd_source_type pd) (cp "jma") && pd_cancel pd) eqn:Ec;
      [discriminate|].
    destruct (_is_warning_valid sv now_tz pd) eqn:Ev; [|discriminate].
    simpl. destruct (fw pd) as [r|]; [|discriminate].
    destruct (negb (nonempty r) || str_eqb (strip r) []) eqn:Eb;
      [discriminate|].
    intros [= <-]. apply orb_false_iff in Eb as [_ Eb].
    apply str_eqb_false in Eb. repeat split; [done|].
    intros [Hs Hc]. rewrite Hc, andb_true_r in Ec.
    apply str_eqb_false in Ec. contradiction.
  - intros Hs Hc now source_name w Hne.
    unfold on_message_received. rewrite Hw.
    apply str_eqb_false in Hne. rewrite Hne. cbn [andb].
    destruct (negb _); [done|].
    cbn [format_message MessageProcessor.services].
    unfold MessageProcessor.format_message. rewrite Hw, Hs, Hc.
    assert (str_eqb (cp "jma") (cp "jma") = true) as ->
      by (by apply str_eqb_true).
    reflexivity.
Qed.

Lemma format_message_guards_witness :
  on_message_received
    (MessageProcessor.services Fixture.services (secs 400)
       Samples.payload Samples.payload Samples.payload Samples.payload)
    (secs 400) (secs 400) (cp "fanstudio") Samples.jma_cancel
    (Fixture.window_with [Fixture.jma_warning])
  = Fixture.window_with [Fixture.jma_warning].
Proof.
  apply (proj2 (format_message_guards Fixture.services (secs 400)
                  Samples.payload Samples.payload Samples.payload
                  Samples.payload Samples.jma_cancel eq_refl)).
  - reflexivity.
  - reflexivity.
  - vm_compute. discriminate.
Defined.

(** ** The end of a scroll *)

Lemma get_next_some (b : MessageBuffer) :
  buffer b ≠ [] → ∃ m, (get_next b).1 = Some m.
Proof.
  intros Hne. destruct (use_priority b) eqn:Hp.
  - destruct (get_next_priority b Hp Hne) as (m & _ & ->). by exists m.
  - destruct (get_next_plain b Hp Hne) as (m & _ & ->). by exists m.
Qed.

Lemma Alias_assign_frame (i : nat) (f : MessageItem → MessageItem)
    (w : MainWindow) :
  scrolling_text (Alias.assign i f w) = scrolling_text w
  ∧ current_display_type (Alias.assign i f w) = current_display_type w
  ∧ _switching_to_report (Alias.assign i f w) = _switching_to_report w
  ∧ length (buffer (warning_buffer (Alias.assign i f w)))
    = length (buffer (warning_buffer w))
  ∧ _current_displaying_message (Alias.assign i f w)
    = Alias.on_object i f <$> _current_displaying_message w.
Proof. unfold Alias.assign. simpl. by rewrite length_fmap. Qed.

(** X25.  While the warning buffer holds a warning that is still valid,
    the end of a scroll hands the display to a valid warning of the
    buffer: exactly one [update_text] call is made, it is accepted, it
    carries that warning, and the mode is warning.  No report is shown and
    no demotion starts. *)
Theorem valid_warning_keeps_the_display (sv : Services) (now now_tz : Q)
    (w : MainWindow) (m0 : MessageItem) :
  m0 ∈ buffer (warning_buffer w) →
  _is_warning_still_valid sv now now_tz m0 = true →
  let w' := scroll_completed sv now now_tz w in
  ∃ m, m ∈ buffer (warning_buffer w)
       ∧ _is_warning_still_valid sv now now_tz m = true
       ∧ calls (scrolling_text w')
         = calls (scrolling_text w)
           ++ [mkCall (text m) (color m) (image_path m) false
                 (message_type m) true]
       ∧ current_display_type w' = Some warning
       ∧ oid <$> _current_displaying_message w' = Some (oid m)
       ∧ _switching_to_report w' = _switching_to_report w.
Proof.
  intros Hin Hvalid w'. unfold w', scroll_completed, _on_scroll_completed.
  set (w0 := with_scrolling_text _ w).
  assert (H0 : (0 <? size (warning_buffer w0)) = true).
  { apply Nat.ltb_lt. unfold size. simpl.
    destruct (buffer (warning_buffer w)); [by apply elem_of_nil in Hin|].
    simpl. lia. }
  rewrite H0.
  pose proof (_clean_expired_warnings_buffer sv now now_tz w0) as Hbuf.
  destruct (_clean_expired_warnings_keeps sv now now_tz w0)
    as (_ & _ & Hst & _ & _ & _ & Hsw & _).
  set (w1 := (_clean_expired_warnings sv now now_tz w0).2) in *.
  change (buffer (warning_buffer w0)) with (buffer (warning_buffer w)) in Hbuf.
  assert (Hm0 : m0 ∈ buffer (warning_buffer w1)).
  { rewrite Hbuf. apply list_elem_of_filter. by split. }
  assert (Hne1 : buffer (warning_buffer w1) ≠ []).
  { intros H. rewrite H in Hm0. by apply elem_of_nil in Hm0. }
  assert (H1 : (size (warning_buffer w1) =? 0) = false).
  { apply Nat.eqb_neq. unfold size.
    destruct (buffer (warning_buffer w1)); [done|]. simpl. lia. }
  rewrite H1.
  destruct (get_next_some _ Hne1) as (m & Hm).
  destruct (get_next_result (warning_buffer w1)) as (Hperm & Helem).
  destruct (get_next (warning_buffer w1)) as [nm wb2] eqn:Hg.
  cbn [fst snd] in *. subst nm.
  assert (Hm1 : m ∈ buffer (warning_buffer w1)) by (by apply Helem).
  rewrite Hbuf in Hm1. apply list_elem_of_filter in Hm1 as [Hv Hmw].
  rewrite Hv. cbn [negb].
  exists m. split; [done|]. split; [done|].
  unfold show_next_warning, update_text.
  cbn [scrolling_text with_warning_buffer].
  rewrite Hst. cbn [scrolling_text w0 with_scrolling_text _is_scrolling
                    calls andb].
  set (call := mkCall _ _ _ _ _ _).
  set (w3 := with_pending None _).
  assert (Hw3 : calls (scrolling_text w3) = calls (scrolling_text w) ++ [call]
    ∧ current_display_type w3 = Some warning
    ∧ oid <$> _current_displaying_message w3 = Some (oid m)
    ∧ _switching_to_report w3 = _switching_to_report w
    ∧ length (buffer (warning_buffer w3)) = length (buffer wb2)).
  { unfold w3, mark_first_display.
    destruct (str_eqb (message_type m) (cp "warning")).
    - match goal with
      | |- context [Alias.assign ?i ?f ?x] =>
          destruct (Alias_assign_frame i f x) as (A1 & A2 & A3 & A4 & A5)
      end.
      cbn [scrolling_text current_display_type _switching_to_report
           warning_buffer _current_displaying_message with_pending].
      rewrite A1, A2, A3, A4, A5. cbn. rewrite Hsw.
      repeat split; try done.
      unfold Alias.on_object. rewrite Nat.eqb_refl.
      unfold stamp_first_display. by destruct (first_displayed_at m).
    - cbn. rewrite Hsw. done. }
  destruct Hw3 as (C1 & C2 & C3 & C4 & C5).
  assert (Hfin : final_demotion_check w3 = w3).
  { unfold final_demotion_check. rewrite C2.
    assert ((size (warning_buffer w3) =? 0) = false) as ->; [|done].
    apply Nat.eqb_neq. unfold size. rewrite C5.
    rewrite Hperm. destruct (buffer (warning_buffer w1)); [done|]. simpl. lia. }
  rewrite Hfin. done.
Qed.

Lemma valid_warning_keeps_the_display_witness :
  let w := Fixture.window_with [Fixture.jma_warning] in
  let w' := scroll_completed Fixture.services (secs 100) (secs 100) w in
  current_display_type w' = Some warning
  ∧ length (calls (scrolling_text w')) = 1.
Proof.
  destruct (valid_warning_keeps_the_display Fixture.services
              (secs 100) (secs 100)
              (Fixture.window_with [Fixture.jma_warning]) Fixture.jma_warning)
    as (m & _ & _ & Hcalls & Hmode & _).
  - vm_compute. by left.
  - vm_compute. reflexivity.
  - cbv zeta. split; [exact Hmode|]. rewrite Hcalls. reflexivity.
Defined.

(** ** Demotion and the rotation of reports *)

(** X26.  [_switch_to_report_mode] puts a report on display only in
    warning mode, outside a switch in progress, with a report buffer that
    is not empty and a sink that is not scrolling; it then shows the head
    of the report buffer with a forced call, which is accepted, and the
    mode becomes report.  In every other case it leaves the sink, the
    mode, both buffers and the displayed message as they are: a demotion
    never cuts a scroll short. *)
Theorem _switch_to_report_mode_cases (w : MainWindow) :
  let w' := _switch_to_report_mode w in
  let fires :=
    current_display_type w = Some warning ∧ _switching_to_report w = false
    ∧ buffer (report_buffer w) ≠ []
    ∧ is_scrolling (scrolling_text w) = false in
  (fires →
   ∃ m, head (buffer (report_buffer w)) = Some m
        ∧ calls (scrolling_text w')
          = calls (scrolling_text w)
            ++ [mkCall (text m) (color m) (image_path m) true
                  (message_type m) true]
        ∧ current_display_type w' = Some report
        ∧ _current_displaying_message w' = Some m
        ∧ _switching_to_report w' = false)
  ∧ (¬ fires →
     scrolling_text w' = scrolling_text w
     ∧ current_display_type w' = current_display_type w
     ∧ report_buffer w' = report_buffer w
     ∧ warning_buffer w' = warning_buffer w
     ∧ _current_displaying_message w' = _current_displaying_message w).
Proof.
  intros w' fires. unfold w', _switch_to_report_mode. split.
  - intros (Hmode & Hsw & Hne & Hscroll). rewrite Hmode, Hsw.
    destruct (buffer (report_buffer w)) as [|m l] eqn:Hb; [done|].
    assert ((0 <? size (report_buffer w)) = true) as ->
      by (unfold size; by rewrite Hb).
    rewrite Hscroll. cbn [negb]. cbn [report_buffer with_switching].
    rewrite Hb. exists m. split; [done|].
    unfold _do_switch_to_report.
    cbn [scrolling_text with_report_buffer with_switching].
    rewrite Hscroll. cbn [negb]. rewrite update_text_forced. done.
  - intros Hn.
    destruct (current_display_type w) as [[|]|] eqn:Hmode.
    2,3: by destruct (_switching_to_report w).
    destruct (_switching_to_report w) eqn:Hsw; [done|].
    destruct (0 <? size (report_buffer w)) eqn:Hsize; [|done].
    destruct (is_scrolling (scrolling_text w)) eqn:Hscroll; [done|].
    exfalso. apply Hn. repeat split.
    apply Nat.ltb_lt in Hsize. unfold size in Hsize.
    intros H0. rewrite H0 in Hsize. simpl in Hsize. lia.
Qed.

(** X27.  With no warning buffered, the end of a scroll puts exactly one
    report on display, by a call that is not forced and is accepted: the
    entry of the source of the pending update when there is a pending
    update (the pending message itself when the buffer no longer holds
    its source), otherwise the message [get_next] returns.  The pending
    update is consumed and the mode is report. *)
Theorem report_scroll_end (sv : Services) (now now_tz : Q) (w : MainWindow) :
  buffer (warning_buffer w) = [] → buffer (report_buffer w) ≠ [] →
  let w' := scroll_completed sv now now_tz w in
  ∃ m, calls (scrolling_text w')
       = calls (scrolling_text w)
         ++ [mkCall (text m) (color m) (image_path m) false
               (message_type m) true]
       ∧ current_display_type w' = Some report
       ∧ _current_displaying_message w' = Some m
       ∧ _pending_update_message w' = None
       ∧ warning_buffer w' = warning_buffer w
       ∧ match _pending_update_message w with
         | Some p =>
             find_by_source (source p) (report_buffer w) = Some m
             ∨ (find_by_source (source p) (report_buffer w) = None ∧ m = p)
         | None => (get_next (report_buffer w)).1 = Some m
         end.
Proof.
  intros Hwb Hrb w'. unfold w', scroll_completed, _on_scroll_completed.
  set (w0 := with_scrolling_text _ w).
  assert ((0 <? size (warning_buffer w0)) = false) as ->
    by (unfold size; simpl; by rewrite Hwb).
  assert ((0 <? size (report_buffer w0)) = true) as ->.
  { apply Nat.ltb_lt. unfold size. simpl.
    destruct (buffer (report_buffer w)); [done|]. simpl. lia. }
  assert (Hshow : ∀ (m : MessageItem) (w1 : MainWindow),
    scrolling_text w1 = scrolling_text w0 →
    _pending_update_message w1 = None →
    warning_buffer w1 = warning_buffer w →
    let '(success, st) :=
      update_text (text m) (color m) (image_path m) false (message_type m)
        (scrolling_text w1) in
    let w2 := with_scrolling_text st w1 in
    let w3 := if success
              then with_current (Some m) (with_display_type (Some report) w2)
              else w2 in
    calls (scrolling_text (final_demotion_check w3))
    = calls (scrolling_text w)
      ++ [mkCall (text m) (color m) (image_path m) false (message_type m) true]
    ∧ current_display_type (final_demotion_check w3) = Some report
    ∧ _current_displaying_message (final_demotion_check w3) = Some m
    ∧ _pending_update_message (final_demotion_check w3) = None
    ∧ warning_buffer (final_demotion_check w3) = warning_buffer w).
  { intros m w1 Hst Hp Hw. unfold update_text. rewrite Hst.
    cbn [w0 scrolling_text with_scrolling_text _is_scrolling andb calls].
    unfold final_demotion_check. cbn. by rewrite Hp, Hw. }
  destruct (_pending_update_message w) as [p|] eqn:Hpend.
  - cbn [_pending_update_message w0 with_scrolling_text].
    rewrite Hpend.
    cbn [report_buffer with_pending w0 with_scrolling_text].
    unfold find_by_source.
    destruct (list_find (λ msg, source msg = source p)
                (buffer (report_buffer w))) as [[i m]|] eqn:Ef.
    + exists m.
      match goal with
      | |- context [final_demotion_check
                      (match update_text _ _ _ _ _ (scrolling_text ?w1) with
                       | _ => _ end)] =>
          pose proof (Hshow m w1 eq_refl eq_refl eq_refl) as Hs
      end.
      destruct (update_text _ _ _ _ _ _) as [success st].
      destruct Hs as (S1 & S2 & S3 & S4 & S5).
      repeat (split; [done|]). by left.
    + exists p.
      match goal with
      | |- context [final_demotion_check
                      (match update_text _ _ _ _ _ (scrolling_text ?w1) with
                       | _ => _ end)] =>
          pose proof (Hshow p w1 eq_refl eq_refl eq_refl) as Hs
      end.
      destruct (update_text _ _ _ _ _ _) as [success st].
      destruct Hs as (S1 & S2 & S3 & S4 & S5).
      repeat (split; [done|]). by right.
  - cbn [_pending_update_message w0 with_scrolling_text]. rewrite Hpend.
    cbn [report_buffer w0 with_scrolling_text].
    destruct (get_next_some (report_buffer w) Hrb) as (m & Hm).
    destruct (get_next (report_buffer w)) as [nm rb] eqn:Hg.
    cbn [fst] in Hm. subst nm. exists m.
    match goal with
    | |- context [final_demotion_check
                    (match update_text _ _ _ _ _ (scrolling_text ?w1) with
                     | _ => _ end)] =>
        pose proof (Hshow m w1 eq_refl Hpend eq_refl) as Hs
    end.
    destruct (update_text _ _ _ _ _ _) as [success st].
    destruct Hs as (S1 & S2 & S3 & S4 & S5).
    repeat (split; [done|]). done.
Qed.

Lemma report_scroll_end_witness :
  let w := with_report_buffer Fixture.loaded new_window in
  let w' := scroll_completed Fixture.services (secs 5) (secs 5) w in
  current_display_type w' = Some report
  ∧ _current_displaying_message w' = Some Fixture.weatheralarm.
Proof.
  destruct (report_scroll_end Fixture.services (secs 5) (secs 5)
              (with_report_buffer Fixture.loaded new_window))
    as (m & _ & Hmode & Hcur & _ & _ & Hm).
  - reflexivity.
  - vm_compute. discriminate.
  - cbv zeta. split; [exact Hmode|]. rewrite Hcur.
    vm_compute in Hm. exact (eq_sym Hm).
Defined.

(** ** Completing a configuration file *)

Section ConfigFileFacts.
Context {V : Type}.
Implicit Types (existing full : gmap pystr (ConfigValue V)).

Lemma existsb_false {A} (f : A → bool) (l : list A) :
  existsb f l = false ↔ ∀ x, x ∈ l → f x = false.
Proof.
  induction l as [|a l IH]; simpl.
  - split; [|done]. intros _ x Hx. by apply elem_of_nil in Hx.
  - rewrite orb_false_iff, IH. split.
    + intros [Ha Hl] x Hx. apply elem_of_cons in Hx as [->|Hx]; auto.
    + intros H. split; [apply H; left|]. intros x Hx. apply H. by right.
Qed.

Lemma fill_subkey_fold (l : list (pystr * V)) (section : gmap pystr V)
    (k : pystr) :
  NoDup l.*1 →
  foldl fill_subkey section l !! k
  = match section !! k with
    | Some v => Some v
    | None => (list_to_map l : gmap pystr V) !! k
    end.
Proof.
  revert section. induction l as [|[k0 v0] l IH]; intros section Hnd.
  - simpl. by destruct (section !! k).
  - apply list.NoDup_cons in Hnd as [Hk0 Hnd]. cbn [foldl].
    rewrite (IH _ Hnd). unfold fill_subkey. cbn [fst snd list_to_map foldr].
    destruct (decide (k = k0)) as [->|Hne].
    + rewrite lookup_insert_eq.
      destruct (section !! k0) as [v|] eqn:E.
      * by rewrite E.
      * by rewrite lookup_insert_eq.
    + rewrite lookup_insert_ne by done.
      destruct (section !! k0) as [v|] eqn:E; [done|].
      by rewrite lookup_insert_ne by done.
Qed.

Lemma fill_section (section full_section : gmap pystr V) :
  foldl fill_subkey section (map_to_list full_section)
  = section ∪ full_section.
Proof.
  apply map_eq. intros k.
  rewrite fill_subkey_fold by apply NoDup_fst_map_to_list.
  rewrite list_to_map_to_list, lookup_union.
  by destruct (section !! k), (full_section !! k).
Qed.

Lemma merge_key_fold (l : list (pystr * ConfigValue V)) existing (k : pystr) :
  NoDup l.*1 →
  foldl merge_key existing l !! k
  = completed (existing !! k)
      ((list_to_map l : gmap pystr (ConfigValue V)) !! k).
Proof.
  revert existing. induction l as [|[k0 v0] l IH]; intros existing Hnd.
  - simpl. by destruct (existing !! k) as [[]|].
  - apply list.NoDup_cons in Hnd as [Hk0 Hnd]. cbn [foldl].
    rewrite (IH _ Hnd). cbn [list_to_map foldr]. unfold merge_key.
    destruct (decide (k = k0)) as [->|Hne].
    + rewrite lookup_insert_eq.
      assert ((list_to_map l : gmap pystr (ConfigValue V)) !! k0 = None) as ->
        by (by apply not_elem_of_list_to_map_1).
      destruct (existing !! k0) as [[v|s]|] eqn:E.
      * by rewrite E.
      * destruct v0 as [v|fs].
        -- by rewrite E.
        -- rewrite lookup_insert_eq, fill_section. reflexivity.
      * rewrite lookup_insert_eq. by destruct v0.
    + rewrite lookup_insert_ne by done.
      assert (∀ x, <[k0 := x]> existing !! k = existing !! k) as Hi
        by (intros x; by rewrite lookup_insert_ne).
      destruct (existing !! k0) as [[v|s]|]; [done| |by rewrite Hi].
      destruct v0; [done|by rewrite Hi].
Qed.

Lemma merge_lookup existing full (k : pystr) :
  _merge_config_file existing full !! k
  = completed (existing !! k) (full !! k).
Proof.
  unfold _merge_config_file.
  rewrite merge_key_fold by apply NoDup_fst_map_to_list.
  by rewrite list_to_map_to_list.
Qed.

(** X28.  [_merge_config_file] only fills gaps.  A key of the existing
    file keeps its value, a key the file lacks gets the value of the full
    configuration, and where both hold a section the section keeps its own
    entries and receives those it lacks; no key is deleted and no value of
    the file is overwritten. *)
Theorem _merge_config_file_lookup existing full (k : pystr) :
  _merge_config_file existing full !! k
  = completed (existing !! k) (full !! k).
Proof. apply merge_lookup.
Qed.

Lemma _has_missing_keys_false existing full :
  _has_missing_keys existing full = false
  ↔ ∀ k fv, full !! k = Some fv →
      ∃ ev, existing !! k = Some ev
            ∧ ∀ fs s, fv = Dict fs → ev = Dict s →
                ∀ j, is_Some (fs !! j) → is_Some (s !! j).
Proof.
  unfold _has_missing_keys. rewrite existsb_false. split.
  - intros H k fv Hk. apply elem_of_map_to_list in Hk.
    specialize (H _ Hk). cbn [fst snd] in H.
    destruct (existing !! k) as [ev|]; [|discriminate].
    exists ev. split; [done|]. intros fs s -> -> j [x Hj].
    rewrite existsb_false in H. apply elem_of_map_to_list in Hj.
    specialize (H _ Hj). cbn [fst] in H.
    apply bool_decide_eq_false in H.
    destruct (s !! j); [by eexists|done].
  - intros H [k fv] Hk. apply elem_of_map_to_list in Hk.
    cbn [fst snd]. destruct (H k fv Hk) as (ev & -> & Hsub).
    destruct fv as [v|fs]; [done|]. destruct ev as [v|s]; [done|].
    apply existsb_false. intros [j x] Hj. apply elem_of_map_to_list in Hj.
    cbn [fst]. apply bool_decide_eq_false.
    destruct (Hsub fs s eq_refl eq_refl j) as [y Hy]; [by eexists|].
    by rewrite Hy.
Qed.

(** X29.  After [_merge_config_file] nothing is missing; and
    [_has_missing_keys] answers [False] exactly when the merge would
    change nothing, so the file is rewritten exactly when the merge makes
    a difference. *)
Theorem _merge_config_file_complete existing full :
  _has_missing_keys (_merge_config_file existing full) full = false
  ∧ (_has_missing_keys existing full = false
     ↔ _merge_config_file existing full = existing).
Proof.
  assert (Hdone :
    _has_missing_keys (_merge_config_file existing full) full = false).
  { apply _has_missing_keys_false. intros k fv Hk.
    rewrite merge_lookup, Hk.
    destruct (existing !! k) as [[v|s]|]; simpl.
    - eexists. split; [done|]. intros; discriminate.
    - destruct fv as [v|fs].
      + eexists. split; [done|]. intros; discriminate.
      + eexists. split; [done|]. intros fs' s' [= <-] [= <-] j [x Hj].
        rewrite lookup_union, Hj. destruct (s !! j); by eexists.
    - exists fv. split; [done|]. intros fs s -> [= <-] j Hj. exact Hj. }
  split; [exact Hdone|]. split.
  - intros H. apply map_eq. intros k. rewrite merge_lookup.
    destruct (full !! k) as [fv|] eqn:Hk.
    2:{ by destruct (existing !! k) as [[]|]. }
    destruct (proj1 (_has_missing_keys_false _ _) H k fv Hk)
      as (ev & -> & Hsub).
    destruct ev as [v|s]; [done|]. destruct fv as [v|fs]; [done|]. simpl.
    do 2 f_equal. apply map_eq. intros j. rewrite lookup_union.
    destruct (fs !! j) as [x|] eqn:Hj.
    + destruct (Hsub fs s eq_refl eq_refl j) as [y ->]; [by eexists|done].
    + by destruct (s !! j).
  - intros H. by rewrite H in Hdone.
Qed.
End ConfigFileFacts.
